(** * clamav-prometheus-exporter: the collector

    A shallow embedding of [pkg/collector/collector.go] and of the parts of
    the Go libraries that decide what [Collect] does: leftmost-first regular
    expression search ([regexp]), decimal to binary64 conversion
    ([strconv.ParseFloat]), and the construction of constant metrics
    ([prometheus.MustNewConstMetric]).  A collection pass is a value: the
    sequence of events it performs (commands dialled, metrics sent on the
    channel, debug lines) and the way it ends.

    The sources hold a second, earlier variant of the same file, which sends
    the pools_used gauge only; the module [part_000] embeds it.  Its
    comments say why the patterns of the present file are narrow: converting
    whatever looks like a number "crashes". *)

From Stdlib Require Import Bool List Arith ZArith QArith Qreduction Qabs Lia.
From Stdlib Require Import Ascii String.
Import ListNotations.

Local Close Scope Q_scope.
Local Open Scope list_scope.
Local Open Scope string_scope.

(** ** Byte strings

    A Go [string] and a [[]byte] are both sequences of bytes; [string] of
    the Standard Library is exactly that.  The patterns of the collector are
    ASCII: a byte of a multi-byte rune, or a byte that is not UTF-8, matches
    none of their literals and classes, so matching byte by byte is
    matching rune by rune. *)

Definition LF : string := String "010" "".
Definition TAB : string := String "009" "".

Fixpoint all_chars (p : ascii -> bool) (s : string) : bool :=
  match s with
  | "" => true
  | String c s' => p c && all_chars p s'
  end.

(** [strip_prefix l s] is the rest of [s] after its prefix [l], when [l]
    is a prefix of [s]. *)
Fixpoint strip_prefix (l s : string) : option string :=
  match l with
  | "" => Some s
  | String a l' =>
      match s with
      | "" => None
      | String b s' => if Ascii.eqb a b then strip_prefix l' s' else None
      end
  end.

Definition code (c : ascii) : Z := Z.of_N (N_of_ascii c).

Definition is_digit (c : ascii) : bool := (48 <=? code c)%Z && (code c <=? 57)%Z.
Definition is_digit_or_dot (c : ascii) : bool := is_digit c || Ascii.eqb c ".".

(** ** Package regexp: leftmost-first matching with submatches *)

Module regexp.

(** The syntax tree of a pattern, with the operators the collector's four
    patterns use. *)
Inductive Regexp : Type :=
| Literal (l : string)
| CharClass (ranges : list (ascii * ascii))
| Concat (r1 r2 : Regexp)
| Alternate (r1 r2 : Regexp)
| Star (r : Regexp)
| Plus (r : Regexp)
| Capture (n : nat) (r : Regexp).

Fixpoint cat (r : Regexp) (rs : list Regexp) : Regexp :=
  match rs with
  | [] => r
  | r' :: rs' => Concat r (cat r' rs')
  end.

Definition in_range (c : ascii) (lohi : ascii * ascii) : bool :=
  (code (fst lohi) <=? code c)%Z && (code c <=? code (snd lohi))%Z.

Definition in_class (ranges : list (ascii * ascii)) (c : ascii) : bool :=
  existsb (in_range c) ranges.

(** Submatch registers: entry [n] holds what group [n] matched last,
    [None] while the group has not taken part. *)
Definition Caps := list (option string).

Fixpoint set_cap (n : nat) (v : string) (caps : Caps) : Caps :=
  match caps, n with
  | [], _ => []
  | _ :: caps', O => Some v :: caps'
  | x :: caps', S n' => x :: set_cap n' v caps'
  end.

(** One way of matching at the current position: the text consumed, the
    registers afterwards, and the input left. *)
Definition Res : Type := string * Caps * string.

Definition prepend (c1 : string) (r : Res) : Res :=
  let '(c2, caps, rest) := r in (c1 ++ c2, caps, rest).

(** The greedy loop of [Star]: one more iteration is preferred to
    stopping.  An iteration that consumes nothing is not repeated (the
    bodies of the loops in this program never match the empty string).
    [fuel] bounds the number of iterations; every iteration consumes a
    byte, so the length of the input plus one is never exhausted. *)
Fixpoint star_loop (step : string -> Caps -> list Res) (fuel : nat)
         (s : string) (caps : Caps) : list Res :=
  match fuel with
  | O => [("", caps, s)]
  | S fuel' =>
      (flat_map
         (fun r1 : Res =>
            let '(c1, caps1, rest1) := r1 in
            match c1 with
            | "" => []
            | _ => map (prepend c1) (star_loop step fuel' rest1 caps1)
            end)
         (step s caps)
       ++ [("", caps, s)])%list
  end.

(** [backtrack r s caps]: every way [r] matches a prefix of [s], in the
    order in which a backtracking search tries them.  The head of the list
    is the match the package reports at this position ("among the matches
    that begin leftmost, the one a backtracking search would have found
    first"). *)
Fixpoint backtrack (r : Regexp) (s : string) (caps : Caps) : list Res :=
  match r with
  | Literal l =>
      match strip_prefix l s with
      | Some rest => [(l, caps, rest)]
      | None => []
      end
  | CharClass ranges =>
      match s with
      | String c rest =>
          if in_class ranges c then [(String c "", caps, rest)] else []
      | "" => []
      end
  | Concat r1 r2 =>
      flat_map
        (fun x : Res =>
           let '(c1, caps1, rest1) := x in
           map (prepend c1) (backtrack r2 rest1 caps1))
        (backtrack r1 s caps)
  | Alternate r1 r2 => (backtrack r1 s caps ++ backtrack r2 s caps)%list
  | Star r1 => star_loop (backtrack r1) (S (length s)) s caps
  | Plus r1 =>
      flat_map
        (fun x : Res =>
           let '(c1, caps1, rest1) := x in
           map (prepend c1)
               (star_loop (backtrack r1) (S (length rest1)) rest1 caps1))
        (backtrack r1 s caps)
  | Capture n r1 =>
      map (fun x : Res =>
             let '(c, caps1, rest) := x in (c, set_cap n c caps1, rest))
          (backtrack r1 s caps)
  end.

(** A compiled pattern: the whole expression is group 0, and there are
    [numSubexp] parenthesised groups. *)
Record Compiled : Type := MustCompile
  { expr : Regexp; numSubexp : nat }.

Definition match_here (re : Compiled) (s : string) : option Res :=
  hd_error
    (backtrack (Capture 0 (expr re)) s (repeat None (S (numSubexp re)))).

(** The leftmost match at or after the current position: the bytes skipped
    before it, and the match. *)
Fixpoint search (re : Compiled) (s : string) : option (string * Res) :=
  match match_here re s with
  | Some m => Some ("", m)
  | None =>
      match s with
      | "" => None
      | String c s' =>
          match search re s' with
          | Some (skipped, m) => Some (String c skipped, m)
          | None => None
          end
      end
  end.

(** The slice of strings of one match: index 0 is the whole match, index
    [n] is group [n], the empty string for a group that took no part. *)
Definition submatch (m : Res) : list string :=
  let '(_, caps, _) := m in
  map (fun o : option string => match o with Some v => v | None => "" end)
      caps.

(** The loop of [FindAll...]: successive non-overlapping matches; an empty
    match directly after the preceding match is dropped, and the search
    moves one position past an empty match. *)
Fixpoint all_matches (fuel : nat) (re : Compiled) (s : string)
         (after_match : bool) : list (list string) :=
  match fuel with
  | O => []
  | S fuel' =>
      match search re s with
      | None => []
      | Some (skipped, (c, caps, rest)) =>
          match c with
          | "" =>
              let accept :=
                negb (after_match && match skipped with "" => true | _ => false end) in
              ((if accept then [submatch (c, caps, rest)] else [])
               ++ match rest with
                  | "" => []
                  | String _ rest' => all_matches fuel' re rest' false
                  end)%list
          | _ => submatch (c, caps, rest) :: all_matches fuel' re rest true
          end
      end
  end.

(** [re.FindAllStringSubmatch(s, -1)]. *)
Definition FindAllStringSubmatch (re : Compiled) (s : string)
  : list (list string) :=
  all_matches (S (length s)) re s false.

Definition digit : Regexp := CharClass [("0", "9")]%char.
Definition digit_or_dot : Regexp := CharClass [("0", "9"); (".", ".")]%char.
(** Perl class [\s]: tab, newline, form feed, carriage return, space. *)
Definition space : Regexp :=
  CharClass [("009", "010"); ("012", "013"); (" ", " ")]%char.

End regexp.

(** ** Package strconv: [ParseFloat(s, 64)] *)

Module strconv.

(** A finite, non-negative binary64 value, as the reduced fraction it
    denotes.  Every value of this development comes from [nearest64] or is
    the constant 1. *)
Definition float64 : Type := Q.

Inductive Err : Type := ErrSyntax | ErrRange.

Record NumError : Type := { Func : string; Num : string; Cause : Err }.

Definition syntaxError (s : string) : NumError :=
  {| Func := "ParseFloat"; Num := s; Cause := ErrSyntax |}.
Definition rangeError (s : string) : NumError :=
  {| Func := "ParseFloat"; Num := s; Cause := ErrRange |}.

Definition digit_val (c : ascii) : Z := (code c - 48)%Z.

(** The scanning loop of [readFloat] on digits and points: a second point
    stops the scan, and what is then left over makes the input malformed;
    so does a scan that saw no digit.  The result is the mantissa as an
    integer and the number of digits after the point. *)
Fixpoint readFloat (s : string) (sawdot sawdigits : bool)
         (mantissa : Z) (frac : Z) : option (Z * Z) :=
  match s with
  | "" => if sawdigits then Some (mantissa, frac) else None
  | String c s' =>
      if Ascii.eqb c "." then
        if sawdot then None
        else readFloat s' true sawdigits mantissa frac
      else if is_digit c then
        readFloat s' sawdot true (10 * mantissa + digit_val c)%Z
                  (if sawdot then frac + 1 else frac)%Z
      else None
  end.

(** [ge_pow2 n d e]: 2^e <= n/d. *)
Definition ge_pow2 (n d e : Z) : bool :=
  if (0 <=? e)%Z then (d * 2 ^ e <=? n)%Z else (d <=? n * 2 ^ (- e))%Z.

(** The binary exponent of n/d, for n, d > 0. *)
Definition floor_log2 (n d : Z) : Z :=
  let e := (Z.log2 n - Z.log2 d)%Z in
  if ge_pow2 n d e then e else (e - 1)%Z.

(** n/d rounded to an integer, ties to even. *)
Definition round_half_even (n d : Z) : Z :=
  let q := (n / d)%Z in
  match (2 * (n mod d) ?= d)%Z with
  | Lt => q
  | Gt => (q + 1)%Z
  | Eq => if Z.even q then q else (q + 1)%Z
  end.

(** The binary64 nearest to n/d (n >= 0, d > 0), ties to even: 53 bits of
    precision, least exponent -1074; [None] when the rounded value
    exceeds the largest finite binary64. *)
Definition nearest64 (n d : Z) : option float64 :=
  if (n =? 0)%Z then Some (inject_Z 0)
  else
    let e := floor_log2 n d in
    let q := Z.max (e - 52) (-1074) in
    let m :=
      if (0 <=? q)%Z then round_half_even n (d * 2 ^ q)
      else round_half_even (n * 2 ^ (- q)) d in
    if (0 <=? q)%Z then
      if (2 ^ 1024 <=? m * 2 ^ q)%Z then None
      else Some (inject_Z (m * 2 ^ q))
    else Some (Qred (m # Z.to_pos (2 ^ (- q)))).

(** [ParseFloat(s, 64)] on strings of digits and points: a syntax error, a
    range error, or the nearest binary64.  The other inputs that
    [ParseFloat] accepts (signs, exponents, hexadecimal mantissas,
    underscores, infinities, NaN) all contain a byte that is neither a
    digit nor a point; on a string with such a byte this function
    answers [None], "not covered".  [Collect_stays_covered] below shows
    that the collector never passes such a string. *)
Definition ParseFloat (s : string) : option (float64 + NumError) :=
  if all_chars is_digit_or_dot s then
    match readFloat s false false 0 0 with
    | None => Some (inr (syntaxError s))
    | Some (m, k) =>
        match nearest64 m (10 ^ k) with
        | Some v => Some (inl v)
        | None => Some (inr (rangeError s))
        end
    end
  else None.

End strconv.

(** ** Package prometheus: descriptors and constant metrics *)

Module prometheus.
Import strconv.

(** A descriptor, as [NewDesc] makes it from a name, a help text and the
    names of the variable labels (the constant labels of the collector are
    all nil).  The names the collector uses are valid metric and label names,
    so its descriptors carry no error. *)
Record Desc : Type := NewDesc
  { fqName : string; help : string; variableLabels : list string }.

Inductive ValueType : Type := CounterValue | GaugeValue | UntypedValue.

Record Metric : Type :=
  { desc : Desc; valType : ValueType; value : float64;
    labelValues : list string }.

(** [NewConstMetric] fails when the number of label values differs from
    the number of variable labels of the descriptor.  (It also refuses
    label values that are not UTF-8; the only label values of this
    program are made of digits and points, see [version_labels_plain].) *)
Definition NewConstMetric (d : Desc) (t : ValueType) (v : float64)
           (labels : list string) : option Metric :=
  if Nat.eqb (List.length labels) (List.length (variableLabels d)) then
    Some {| desc := d; valType := t; value := v; labelValues := labels |}
  else None.

End prometheus.

(** ** Package commands

    Modelled from the spec: the package [pkg/commands] is not part of the
    sources at hand; the spec gives the commands as an enumeration of three
    values, each standing for one fixed request token. *)

Module commands.
Inductive Command : Type := PING | STATS | VERSION.
End commands.

(** ** Package clamav

    Modelled from the spec: the package [pkg/clamav] is not part of the
    sources at hand; the spec gives its client as [dial(command) -> RawReply],
    one exchange per call, an empty reply on a transport failure.  Within
    one pass every command is dialled at most once, so the client of a pass
    is the function from the command to the reply it gets. *)

Module clamav.
Import commands.
Record Client : Type := { Dial : Command -> string }.
End clamav.

(** ** Package collector *)

Module collector.
Import regexp strconv prometheus commands clamav.

Record Collector : Type :=
  { client : Client;
    up : Desc;
    threadsLive : Desc;
    threadsIdle : Desc;
    threadsMax : Desc;
    queue : Desc;
    memHeap : Desc;
    memMmap : Desc;
    memUsed : Desc;
    buildInfo : Desc;
    poolsUsed : Desc;
    poolsTotal : Desc }.

Definition New (client : Client) : Collector :=
  {| client := client;
     up := NewDesc "clamav_up" "Shows UP Status" [];
     threadsLive := NewDesc "clamav_threads_live" "Shows live threads" [];
     threadsIdle := NewDesc "clamav_threads_idle" "Shows idle threads" [];
     threadsMax := NewDesc "clamav_threads_max" "Shows max threads" [];
     queue := NewDesc "clamav_queue" "Shows queued items" [];
     memHeap := NewDesc "clamav_mem_heap" "Shows heap memory usage" [];
     memMmap := NewDesc "clamav_mem_mmap" "Shows mmap memory usage" [];
     memUsed := NewDesc "clamav_mem_used" "Shows used memory usage" [];
     buildInfo :=
       NewDesc "clamav_build_info" "Shows ClamAV Build Info"
               ["clamav_version"; "database_version"];
     poolsUsed :=
       NewDesc "clamav_pools_used_mb" "Shows pools usage memory in Mb" [];
     poolsTotal :=
       NewDesc "clamav_pools_total_mb" "Shows pools total memory in Mb" [] |}.

(** [Describe] sends the eleven descriptors on its channel, in this
    order. *)
Definition Describe (collector : Collector) : list Desc :=
  [ up collector; threadsLive collector; threadsIdle collector;
    threadsMax collector; queue collector; memHeap collector;
    memMmap collector; memUsed collector; buildInfo collector;
    poolsUsed collector; poolsTotal collector ].

(** *** Effects of a pass

    What a pass does to the outside: it dials a command, sends a metric on
    the channel, writes a debug line.  How it ends: it returns, or
    [log.Fatalf] ends the process, or a run-time panic does (an index out
    of range, [MustNewConstMetric] on an error), or the pass leaves what
    [strconv.ParseFloat] above covers. *)
Inductive event : Type :=
| EvDial (c : Command)
| EvSend (m : Metric)
| EvDebug (line : string).

Inductive outcome (A : Type) : Type :=
| Ret (a : A)
| Fatal (e : NumError)
| Panic
| NotCovered.
Arguments Ret {A} a.
Arguments Fatal {A} e.
Arguments Panic {A}.
Arguments NotCovered {A}.

Definition M (A : Type) : Type := list event * outcome A.

Definition ret {A} (a : A) : M A := ([], Ret a).

Definition bind {A B} (m : M A) (f : A -> M B) : M B :=
  match m with
  | (t, Ret a) => let '(t', o) := f a in ((t ++ t')%list, o)
  | (t, Fatal e) => (t, Fatal e)
  | (t, Panic) => (t, Panic)
  | (t, NotCovered) => (t, NotCovered)
  end.

Notation "x <- m ;; k" := (bind m (fun x => k))
  (at level 61, m at next level, right associativity).
Notation "m ;; k" := (bind m (fun _ => k))
  (at level 61, right associativity).

Definition dial (collector : Collector) (c : Command) : M string :=
  ([EvDial c], Ret (Dial (client collector) c)).

(** [ch <- m] *)
Definition send (m : Metric) : M unit := ([EvSend m], Ret tt).

Definition Debug (line : string) : M unit := ([EvDebug line], Ret tt).

Definition MustNewConstMetric (d : Desc) (t : ValueType) (v : float64)
           (labels : list string) : M Metric :=
  match NewConstMetric d t v labels with
  | Some m => ret m
  | None => ([], Panic)
  end.

(** [matches[i][j]] *)
Definition at2 (matches : list (list string)) (i j : nat) : M string :=
  match nth_error matches i with
  | Some m =>
      match nth_error m j with
      | Some v => ret v
      | None => ([], Panic)
      end
  | None => ([], Panic)
  end.

Definition when (b : bool) (body : M unit) : M unit :=
  if b then body else ret tt.

(** The closure [float] of [Collect]: [log.Fatalf] on a conversion
    error. *)
Definition float (s : string) : M float64 :=
  match ParseFloat s with
  | Some (inl f) => ret f
  | Some (inr err) => ([], Fatal err)
  | None => ([], NotCovered)
  end.

(** The four patterns of [Collect]. *)

(** ["THREADS: live ([0-9]+)  idle ([0-9]+) max ([0-9]+) "] *)
Definition threads_regex : Compiled :=
  MustCompile
    (cat (Literal "THREADS: live ")
         [Capture 1 (Plus digit); Literal "  idle ";
          Capture 2 (Plus digit); Literal " max ";
          Capture 3 (Plus digit); Literal " "])
    3.

(** ["QUEUE:: ([0-9]+) items"] *)
Definition queue_regex : Compiled :=
  MustCompile
    (cat (Literal "QUEUE:: ") [Capture 1 (Plus digit); Literal " items"])
    1.

Definition na_or_digits : Regexp := Alternate (Literal "N/A") (Plus digit).

(** ["MEMSTATS: heap (N/A|[0-9]+) mmap (N/A|[0-9]+) used (N/A|[0-9]+) free (N/A|[0-9]+) releasable (N/A|[0-9]+) pools ([0-9]+) pools_used ([0-9.]+)M pools_total ([0-9.]+)M"] *)
Definition memstats_regex : Compiled :=
  MustCompile
    (cat (Literal "MEMSTATS: heap ")
         [Capture 1 na_or_digits; Literal " mmap ";
          Capture 2 na_or_digits; Literal " used ";
          Capture 3 na_or_digits; Literal " free ";
          Capture 4 na_or_digits; Literal " releasable ";
          Capture 5 na_or_digits; Literal " pools ";
          Capture 6 (Plus digit); Literal " pools_used ";
          Capture 7 (Plus digit_or_dot); Literal "M pools_total ";
          Capture 8 (Plus digit_or_dot); Literal "M"])
    8.

(** ["((ClamAV)+\\s(V)/(V))"], where V stands for a possibly empty run of
    digits and points, written [[0-9.]] followed by a star in the
    source. *)
Definition version_regex : Compiled :=
  MustCompile
    (Capture 1
       (cat (Plus (Capture 2 (Literal "ClamAV")))
            [space; Capture 3 (Star digit_or_dot); Literal "/";
             Capture 4 (Star digit_or_dot)]))
    4.

(** [ch <- prometheus.MustNewConstMetric(d, prometheus.GaugeValue,
    float(matches[i][j]))]: the index, the conversion, the construction
    and the send, in the order Go evaluates them. *)
Definition send_gauge (d : Desc) (matches : list (list string))
           (i j : nat) : M unit :=
  s <- at2 matches i j ;;
  f <- float s ;;
  m <- MustNewConstMetric d GaugeValue f [] ;;
  send m.

Definition PONG : string := "PONG" ++ LF.

Definition Collect (collector : Collector) : M unit :=
  pong <- dial collector PING ;;
  when (String.eqb pong PONG)
       (m <- MustNewConstMetric (up collector) CounterValue (inject_Z 1) [] ;;
        send m) ;;

  stats <- dial collector STATS ;;
  Debug ("Stats: " ++ stats) ;;

  (* THREADS: *)
  let matches := FindAllStringSubmatch threads_regex stats in
  when (0 <? List.length matches)%nat
       (send_gauge (threadsLive collector) matches 0 1 ;;
        send_gauge (threadsIdle collector) matches 0 2 ;;
        send_gauge (threadsMax collector) matches 0 3) ;;

  (* QUEUE: *)
  let matches := FindAllStringSubmatch queue_regex stats in
  when (0 <? List.length matches)%nat
       (send_gauge (queue collector) matches 0 1) ;;

  (* MEMSTATS: *)
  let matches := FindAllStringSubmatch memstats_regex stats in
  when (0 <? List.length matches)%nat
       (h <- at2 matches 0 1 ;;
        when (negb (String.eqb h "N/A"))
             (send_gauge (memHeap collector) matches 0 1) ;;
        m <- at2 matches 0 2 ;;
        when (negb (String.eqb m "N/A"))
             (send_gauge (memMmap collector) matches 0 2) ;;
        u <- at2 matches 0 3 ;;
        when (negb (String.eqb u "N/A"))
             (send_gauge (memUsed collector) matches 0 3) ;;
        send_gauge (poolsUsed collector) matches 0 7 ;;
        send_gauge (poolsTotal collector) matches 0 8) ;;

  version <- dial collector VERSION ;;
  let matches := FindAllStringSubmatch version_regex version in
  when (0 <? List.length matches)%nat
       (l1 <- at2 matches 0 3 ;;
        l2 <- at2 matches 0 4 ;;
        m <- MustNewConstMetric (buildInfo collector) GaugeValue
                                (inject_Z 1) [l1; l2] ;;
        send m).

(** *** Reading a pass *)

Definition trace {A} (m : M A) : list event := fst m.
Definition result {A} (m : M A) : outcome A := snd m.

Fixpoint dialled (t : list event) : list Command :=
  match t with
  | [] => []
  | EvDial c :: t' => c :: dialled t'
  | _ :: t' => dialled t'
  end.

Fixpoint sent (t : list event) : list Metric :=
  match t with
  | [] => []
  | EvSend m :: t' => m :: sent t'
  | _ :: t' => sent t'
  end.

(** The observations of a pass on one metric name: value and labels of
    every metric sent with that descriptor name. *)
Definition observed (name : string) (t : list event)
  : list (float64 * list string) :=
  map (fun m => (value m, labelValues m))
      (filter (fun m => String.eqb (fqName (desc m)) name) (sent t)).

(** A client that answers the three commands with three given replies. *)
Definition replies (pong stats version : string) : Client :=
  {| Dial := fun c =>
               match c with
               | PING => pong
               | STATS => stats
               | VERSION => version
               end |}.

(** The example of a STATS reply given in the source of [Collect], in four
    parts. *)
Definition example_head : string :=
  "POOLS: 1" ++ LF ++ LF ++
  "STATE: VALID PRIMARY" ++ LF.

Definition example_threads : string :=
  "THREADS: live 10  idle 2 max 10 idle-timeout 30" ++ LF.

Definition example_queue : string :=
  "QUEUE: 0 items" ++ LF ++
  TAB ++ "INSTREAM 1.249366 instream(10.42.174.58@41938)" ++ LF ++
  TAB ++ "IDLE -0.021568 " ++ LF ++
  TAB ++ "IDLE 0.022133 " ++ LF ++
  TAB ++ "INSTREAM 11.672077 instream(10.42.174.58@35486)" ++ LF ++
  TAB ++ "INSTREAM 6.629173 instream(10.42.174.58@38126)" ++ LF ++
  TAB ++ "INSTREAM 6.627400 instream(10.42.174.58@38128)" ++ LF ++
  TAB ++ "INSTREAM 1.606307 instream(10.42.174.58@41684)" ++ LF ++
  TAB ++ "STATS 0.000276 " ++ LF ++
  TAB ++ "IDLE 0.013437 " ++ LF ++
  TAB ++ "INSTREAM 0.010599 instream(10.42.74.224@39776)" ++ LF ++ LF.

Definition example_memstats : string :=
  "MEMSTATS: heap N/A mmap N/A used N/A free N/A releasable N/A pools 1 pools_used 1143.596M pools_total 1143.632M" ++ LF ++
  "END" ++ LF.

Definition example_stats : string :=
  example_head ++ example_threads ++ example_queue ++ example_memstats.

End collector.

(** ** The earlier variant of the file

    The sources hold an earlier state of [collector.go]: the same
    [Collector], a [New] with other names for the two pools metrics, the
    same [Describe], and a [Collect] that, of the STATS reply, counts the
    runs of digits and points, logs the reply and the count at info level,
    and sends the pools_used gauge alone. *)

Module part_000.
Import regexp strconv prometheus commands clamav.

Definition New (client : Client) : collector.Collector :=
  {| collector.client := client;
     collector.up := NewDesc "clamav_up" "Shows UP Status" [];
     collector.threadsLive :=
       NewDesc "clamav_threads_live" "Shows live threads" [];
     collector.threadsIdle :=
       NewDesc "clamav_threads_idle" "Shows idle threads" [];
     collector.threadsMax :=
       NewDesc "clamav_threads_max" "Shows max threads" [];
     collector.queue := NewDesc "clamav_queue" "Shows queued items" [];
     collector.memHeap :=
       NewDesc "clamav_mem_heap" "Shows heap memory usage" [];
     collector.memMmap :=
       NewDesc "clamav_mem_mmap" "Shows mmap memory usage" [];
     collector.memUsed :=
       NewDesc "clamav_mem_used" "Shows used memory usage" [];
     collector.buildInfo :=
       NewDesc "clamav_build_info" "Shows ClamAV Build Info"
               ["clamav_version"; "database_version"];
     collector.poolsUsed :=
       NewDesc "clamav_pools_used" "Shows pools usage memory" [];
     collector.poolsTotal :=
       NewDesc "clamav_pools_total" "Shows pools total memory" [] |}.

Definition Describe (c : collector.Collector) : list Desc :=
  [ collector.up c; collector.threadsLive c; collector.threadsIdle c;
    collector.threadsMax c; collector.queue c; collector.memHeap c;
    collector.memMmap c; collector.memUsed c; collector.buildInfo c;
    collector.poolsUsed c; collector.poolsTotal c ].

(** The effects of a pass of this variant: it calls [log.Info]. *)
Inductive event : Type :=
| EvDial (c : Command)
| EvSend (m : Metric)
| EvInfo (line : string).

Definition M (A : Type) : Type := list event * collector.outcome A.

Definition ret {A} (a : A) : M A := ([], collector.Ret a).

Definition bind {A B} (m : M A) (f : A -> M B) : M B :=
  match m with
  | (t, collector.Ret a) => let '(t', o) := f a in ((t ++ t')%list, o)
  | (t, collector.Fatal e) => (t, collector.Fatal e)
  | (t, collector.Panic) => (t, collector.Panic)
  | (t, collector.NotCovered) => (t, collector.NotCovered)
  end.

Notation "x <- m ;; k" := (bind m (fun x => k))
  (at level 61, m at next level, right associativity).
Notation "m ;; k" := (bind m (fun _ => k))
  (at level 61, right associativity).

Definition dial (c : collector.Collector) (cmd : Command) : M string :=
  ([EvDial cmd], collector.Ret (Dial (collector.client c) cmd)).

Definition send (m : Metric) : M unit := ([EvSend m], collector.Ret tt).

Definition Info (line : string) : M unit := ([EvInfo line], collector.Ret tt).

Definition MustNewConstMetric (d : Desc) (t : ValueType) (v : float64)
           (labels : list string) : M Metric :=
  match NewConstMetric d t v labels with
  | Some m => ret m
  | None => ([], collector.Panic)
  end.

Definition at2 (matches : list (list string)) (i j : nat) : M string :=
  match nth_error matches i with
  | Some m =>
      match nth_error m j with
      | Some v => ret v
      | None => ([], collector.Panic)
      end
  | None => ([], collector.Panic)
  end.

Definition when (b : bool) (body : M unit) : M unit :=
  if b then body else ret tt.

Definition float (s : string) : M float64 :=
  match ParseFloat s with
  | Some (inl f) => ret f
  | Some (inr err) => ([], collector.Fatal err)
  | None => ([], collector.NotCovered)
  end.

(** [string(i)] for an integer [i]: the UTF-8 encoding of the code point
    [i], and of U+FFFD when [i] is not a code point. *)
Definition byte (n : Z) : ascii := ascii_of_N (Z.to_N n).

Definition encoderune (r : Z) : string :=
  if (r <=? 127)%Z then String (byte r) ""
  else if (r <=? 2047)%Z then
    String (byte (Z.lor 192 (Z.shiftr r 6)))
      (String (byte (Z.lor 128 (Z.land r 63))) "")
  else if (r <=? 65535)%Z then
    String (byte (Z.lor 224 (Z.shiftr r 12)))
      (String (byte (Z.lor 128 (Z.land (Z.shiftr r 6) 63)))
         (String (byte (Z.lor 128 (Z.land r 63))) ""))
  else
    String (byte (Z.lor 240 (Z.shiftr r 18)))
      (String (byte (Z.lor 128 (Z.land (Z.shiftr r 12) 63)))
         (String (byte (Z.lor 128 (Z.land (Z.shiftr r 6) 63)))
            (String (byte (Z.lor 128 (Z.land r 63))) ""))).

Definition runeError : Z := 65533.

Definition intstring (i : Z) : string :=
  if (i <? 0)%Z || (1114111 <? i)%Z || ((55296 <=? i)%Z && (i <=? 57343)%Z)
  then encoderune runeError
  else encoderune i.

(** ["([0-9.]+)"] *)
Definition numbers_regex : Compiled :=
  MustCompile (Capture 1 (Plus digit_or_dot)) 1.

(** ["pools_used ([0-9.]+)M"] *)
Definition pools_used_regex : Compiled :=
  MustCompile
    (cat (Literal "pools_used ") [Capture 1 (Plus digit_or_dot); Literal "M"])
    1.

Definition send_gauge (d : Desc) (matches : list (list string))
           (i j : nat) : M unit :=
  s <- at2 matches i j ;;
  f <- float s ;;
  m <- MustNewConstMetric d GaugeValue f [] ;;
  send m.

Definition Collect (c : collector.Collector) : M unit :=
  pong <- dial c PING ;;
  when (String.eqb pong collector.PONG)
       (m <- MustNewConstMetric (collector.up c) CounterValue (inject_Z 1) [] ;;
        send m) ;;

  stats <- dial c STATS ;;
  Info ("Stats: " ++ stats) ;;
  let matches := FindAllStringSubmatch numbers_regex stats in
  Info ("Stats: " ++ intstring (Z.of_nat (List.length matches))) ;;
  when (0 <? List.length matches)%nat (ret tt) ;;
  let matches := FindAllStringSubmatch pools_used_regex stats in
  when (0 <? List.length matches)%nat
       (send_gauge (collector.poolsUsed c) matches 0 1) ;;

  version <- dial c VERSION ;;
  let matches := FindAllStringSubmatch collector.version_regex version in
  when (0 <? List.length matches)%nat
       (l1 <- at2 matches 0 3 ;;
        l2 <- at2 matches 0 4 ;;
        m <- MustNewConstMetric (collector.buildInfo c) GaugeValue
                                (inject_Z 1) [l1; l2] ;;
        send m).

(** *** Reading a pass *)

Definition trace {A} (m : M A) : list event := fst m.
Definition result {A} (m : M A) : collector.outcome A := snd m.

Fixpoint dialled (t : list event) : list Command :=
  match t with
  | [] => []
  | EvDial c :: t' => c :: dialled t'
  | _ :: t' => dialled t'
  end.

Fixpoint sent (t : list event) : list Metric :=
  match t with
  | [] => []
  | EvSend m :: t' => m :: sent t'
  | _ :: t' => sent t'
  end.

Fixpoint logged (t : list event) : list string :=
  match t with
  | [] => []
  | EvInfo line :: t' => line :: logged t'
  | _ :: t' => logged t'
  end.

Definition observed (name : string) (t : list event)
  : list (float64 * list string) :=
  map (fun m => (value m, labelValues m))
      (filter (fun m => String.eqb (fqName (desc m)) name) (sent t)).

Definition names_sent (t : list event) : list string :=
  map (fun m => fqName (desc m)) (sent t).

(** The steps of [Collect] on the STATS and VERSION replies. *)
Definition pools_step (c : collector.Collector) (stats : string) : M unit :=
  let matches := FindAllStringSubmatch pools_used_regex stats in
  when (0 <? List.length matches)%nat
       (send_gauge (collector.poolsUsed c) matches 0 1).

Definition version_step (c : collector.Collector) (version : string) : M unit :=
  let matches := FindAllStringSubmatch collector.version_regex version in
  when (0 <? List.length matches)%nat
       (l1 <- at2 matches 0 3 ;;
        l2 <- at2 matches 0 4 ;;
        m <- MustNewConstMetric (collector.buildInfo c) GaugeValue
                                (inject_Z 1) [l1; l2] ;;
        send m).

End part_000.

Import regexp strconv prometheus commands clamav collector.

(** * Vocabulary

    The notions the statements below are written in. *)

(** ** What a pattern matches

    The declarative reading of a pattern: [Matches r c caps caps'] says that
    [r] matches exactly the text [c], taking the registers from [caps] to
    [caps'].  It says nothing about which match is preferred; [backtrack]
    enumerates these matches in order of preference. *)

Inductive Matches : Regexp -> string -> Caps -> Caps -> Prop :=
| MLiteral l caps : Matches (Literal l) l caps caps
| MCharClass ranges c caps :
    in_class ranges c = true ->
    Matches (CharClass ranges) (String c "") caps caps
| MConcat r1 r2 c1 c2 caps caps1 caps2 :
    Matches r1 c1 caps caps1 -> Matches r2 c2 caps1 caps2 ->
    Matches (Concat r1 r2) (c1 ++ c2) caps caps2
| MAlternateL r1 r2 c caps caps' :
    Matches r1 c caps caps' -> Matches (Alternate r1 r2) c caps caps'
| MAlternateR r1 r2 c caps caps' :
    Matches r2 c caps caps' -> Matches (Alternate r1 r2) c caps caps'
| MStarStop r caps : Matches (Star r) "" caps caps
| MStarStep r c1 c2 caps caps1 caps2 :
    Matches r c1 caps caps1 -> c1 <> "" -> Matches (Star r) c2 caps1 caps2 ->
    Matches (Star r) (c1 ++ c2) caps caps2
| MPlus r c1 c2 caps caps1 caps2 :
    Matches r c1 caps caps1 -> Matches (Star r) c2 caps1 caps2 ->
    Matches (Plus r) (c1 ++ c2) caps caps2
| MCapture n r c caps caps1 :
    Matches r c caps caps1 ->
    Matches (Capture n r) c caps (set_cap n c caps1).

(** The registers a search starts from, and an occurrence of a compiled
    pattern: a text the whole pattern matches, with the registers it
    leaves. *)
Definition no_caps (re : Compiled) : Caps := repeat None (S (numSubexp re)).

Definition Occurrence (re : Compiled) (c : string) (caps : Caps) : Prop :=
  Matches (Capture 0 (expr re)) c (no_caps re) caps.

(** ** The shapes of the four patterns *)

(** [stops ranges rest]: a run of bytes of the class cannot go on into
    [rest]. *)
Definition stops (ranges : list (ascii * ascii)) (rest : string) : bool :=
  match rest with
  | "" => true
  | String c _ => negb (in_class ranges c)
  end.

(** A non-empty run of decimal digits. *)
Definition number (s : string) : bool :=
  negb (String.eqb s "") && all_chars is_digit s.

(** A non-empty run of digits and points. *)
Definition dotted (s : string) : bool :=
  negb (String.eqb s "") && all_chars is_digit_or_dot s.

(** The placeholder or a number. *)
Definition na_or_number (s : string) : bool := String.eqb s "N/A" || number s.

(** A byte of the class [\s]. *)
Definition is_space (c : ascii) : bool :=
  in_class [("009", "010"); ("012", "013"); (" ", " ")]%char c.

(** The texts the three STATS patterns match, from the submatches. *)
Definition threads_line (a b c : string) : string :=
  "THREADS: live " ++ a ++ "  idle " ++ b ++ " max " ++ c ++ " ".

Definition queue_line (n : string) : string := "QUEUE:: " ++ n ++ " items".

Definition memstats_line (h m u f r p pu pt : string) : string :=
  "MEMSTATS: heap " ++ h ++ " mmap " ++ m ++ " used " ++ u ++ " free " ++ f
  ++ " releasable " ++ r ++ " pools " ++ p ++ " pools_used " ++ pu
  ++ "M pools_total " ++ pt ++ "M".

(** A possibly empty run of digits and points. *)
Definition plain (s : string) : bool := all_chars is_digit_or_dot s.

Fixpoint copies (n : nat) (l : string) : string :=
  match n with
  | O => ""
  | S n' => l ++ copies n' l
  end.

(** The text of an occurrence of the VERSION pattern: the product name one
    or more times, one white-space byte, the engine version, a slash, the
    database version. *)
Definition version_text (n : nat) (w : ascii) (e d : string) : string :=
  copies (S n) "ClamAV" ++ String w "" ++ e ++ "/" ++ d.

Fixpoint digits_acc (s : string) (acc : Z) : Z :=
  match s with
  | "" => acc
  | String c s' => digits_acc s' (10 * acc + digit_val c)%Z
  end.

(** The integer a run of decimal digits denotes. *)
Definition digits_value (s : string) : Z := digits_acc s 0.

(** ** The steps of a pass

    [Collect] step by step: what it does with each reply ([Collect_steps]
    below puts the steps together again). *)

(** [gauge_of d s]: convert [s] and send it as a gauge on [d]. *)
Definition gauge_of (d : Desc) (s : string) : M unit :=
  f <- float s ;;
  m <- MustNewConstMetric d GaugeValue f [] ;;
  send m.

Definition ping_step (c : Collector) (pong : string) : M unit :=
  when (String.eqb pong PONG)
       (m <- MustNewConstMetric (up c) CounterValue (inject_Z 1) [] ;;
        send m).

Definition threads_step (c : Collector) (stats : string) : M unit :=
  let matches := FindAllStringSubmatch threads_regex stats in
  when (0 <? List.length matches)%nat
       (send_gauge (threadsLive c) matches 0 1 ;;
        send_gauge (threadsIdle c) matches 0 2 ;;
        send_gauge (threadsMax c) matches 0 3).

Definition queue_step (c : Collector) (stats : string) : M unit :=
  let matches := FindAllStringSubmatch queue_regex stats in
  when (0 <? List.length matches)%nat
       (send_gauge (queue c) matches 0 1).

Definition memstats_step (c : Collector) (stats : string) : M unit :=
  let matches := FindAllStringSubmatch memstats_regex stats in
  when (0 <? List.length matches)%nat
       (h <- at2 matches 0 1 ;;
        when (negb (String.eqb h "N/A"))
             (send_gauge (memHeap c) matches 0 1) ;;
        m <- at2 matches 0 2 ;;
        when (negb (String.eqb m "N/A"))
             (send_gauge (memMmap c) matches 0 2) ;;
        u <- at2 matches 0 3 ;;
        when (negb (String.eqb u "N/A"))
             (send_gauge (memUsed c) matches 0 3) ;;
        send_gauge (poolsUsed c) matches 0 7 ;;
        send_gauge (poolsTotal c) matches 0 8).

Definition version_step (c : Collector) (version : string) : M unit :=
  let matches := FindAllStringSubmatch version_regex version in
  when (0 <? List.length matches)%nat
       (l1 <- at2 matches 0 3 ;;
        l2 <- at2 matches 0 4 ;;
        m <- MustNewConstMetric (buildInfo c) GaugeValue (inject_Z 1) [l1; l2] ;;
        send m).

(** The part of a pass between the STATS exchange and the VERSION
    exchange. *)
Definition stats_steps (c : Collector) (stats : string) : M unit :=
  threads_step c stats ;; queue_step c stats ;; memstats_step c stats.

Definition returns {A} (m : M A) : bool :=
  match result m with
  | Ret _ => true
  | _ => false
  end.

(** The metric names a trace sends on. *)
Definition names_sent (t : list event) : list string :=
  map (fun m => fqName (desc m)) (sent t).

Definition only (names : list string) (t : list event) : Prop :=
  incl (names_sent t) names.

(** ** Occurrences in a reply, in plain terms *)

(** [threads_at stats pre a b c post]: after [pre], the reply has a THREADS
    line with the numbers [a], [b], [c] (the blank behind [c] included),
    and [post] follows. *)
Definition threads_at (stats pre a b c post : string) : Prop :=
  number a = true /\ number b = true /\ number c = true /\
  stats = pre ++ threads_line a b c ++ post.

Definition queue_at (stats pre n post : string) : Prop :=
  number n = true /\ stats = pre ++ queue_line n ++ post.

Definition memstats_at (stats pre h m u f r p pu pt post : string) : Prop :=
  na_or_number h = true /\ na_or_number m = true /\ na_or_number u = true /\
  na_or_number f = true /\ na_or_number r = true /\ number p = true /\
  dotted pu = true /\ dotted pt = true /\
  stats = pre ++ memstats_line h m u f r p pu pt ++ post.

(** After [pre], the reply has the product name [S n] times, a white-space
    byte, and the two versions around a slash. *)
Definition version_at (version pre : string) (n : nat) (w : ascii)
           (e d post : string) : Prop :=
  is_space w = true /\ plain e = true /\ plain d = true /\
  version = pre ++ version_text n w e d ++ post.

(** [post] does not go on with a digit or a point. *)
Definition ends_run (post : string) : bool :=
  stops [("0", "9"); (".", ".")]%char post.

(** The same, leftmost in the reply. *)
Definition first_threads_at (stats pre a b c post : string) : Prop :=
  threads_at stats pre a b c post /\
  forall pre' a' b' c' post',
    threads_at stats pre' a' b' c' post' -> (length pre <= length pre')%nat.

Definition first_queue_at (stats pre n post : string) : Prop :=
  queue_at stats pre n post /\
  forall pre' n' post',
    queue_at stats pre' n' post' -> (length pre <= length pre')%nat.

Definition first_memstats_at (stats pre h m u f r p pu pt post : string) : Prop :=
  memstats_at stats pre h m u f r p pu pt post /\
  forall pre' h' m' u' f' r' p' pu' pt' post',
    memstats_at stats pre' h' m' u' f' r' p' pu' pt' post' ->
    (length pre <= length pre')%nat.

(** Leftmost, and with the database version as long as it can be. *)
Definition first_version_at (version pre : string) (n : nat) (w : ascii)
           (e d post : string) : Prop :=
  version_at version pre n w e d post /\ ends_run post = true /\
  forall pre' n' w' e' d' post',
    version_at version pre' n' w' e' d' post' -> (length pre <= length pre')%nat.

(** ** What is sent *)

(** The gauge sent for a value on a descriptor without labels. *)
Definition gauge (d : Desc) (v : float64) : event :=
  EvSend {| desc := d; valType := GaugeValue; value := v; labelValues := [] |}.

(** A number the conversion to binary64 keeps as it is. *)
Definition below_2_53 (s : string) : Prop := (digits_value s < 2 ^ 53)%Z.

(** The THREADS and MEMSTATS steps send a sequence of gauges, each converted
    from one submatch; the first conversion that fails ends the process. *)
Fixpoint run_gauges (l : list (Desc * string)) : M unit :=
  match l with
  | [] => ret tt
  | (d, s) :: l' => gauge_of d s ;; run_gauges l'
  end.

(** What a completed sequence sends on one name. *)
Definition values_of (name : string) (l : list (Desc * string))
  : list (float64 * list string) :=
  flat_map
    (fun ds : Desc * string =>
       if String.eqb (fqName (fst ds)) name then
         match ParseFloat (snd ds) with
         | Some (inl v) => [(v, [])]
         | _ => []
         end
       else [])
    l.

(** The gauge of a MEMSTATS value that may be the placeholder. *)
Definition unless_na (d : Desc) (s : string) : list (Desc * string) :=
  if String.eqb s "N/A" then [] else [(d, s)].

Definition unlabelled (l : list (Desc * string)) : Prop :=
  Forall (fun ds => variableLabels (fst ds) = []) l.

Definition threads_gauges (cl : Client) (a b c : string) : list (Desc * string) :=
  [(threadsLive (New cl), a); (threadsIdle (New cl), b);
   (threadsMax (New cl), c)].

Definition memstats_gauges (cl : Client) (h m u pu pt : string) : list (Desc * string) :=
  (unless_na (memHeap (New cl)) h ++ unless_na (memMmap (New cl)) m
   ++ unless_na (memUsed (New cl)) u
   ++ [(poolsUsed (New cl), pu); (poolsTotal (New cl), pt)])%list.

(** The number of times a byte occurs in a string. *)
Fixpoint count_char (c : ascii) (s : string) : nat :=
  match s with
  | "" => 0
  | String x s' => (if Ascii.eqb x c then 1 else 0) + count_char c s'
  end.

(** ** Replies used as examples *)

(** A STATS reply whose MEMSTATS line has a pools_used value with two
    points; the pattern of the MEMSTATS line accepts it. *)
Definition two_points_stats : string :=
  "MEMSTATS: heap N/A mmap N/A used N/A free N/A releasable N/A pools 1 pools_used 1.2.3M pools_total 1143.632M"
  ++ LF.

Definition memstats_names : list string :=
  ["clamav_mem_heap"; "clamav_mem_mmap"; "clamav_mem_used";
   "clamav_pools_used_mb"; "clamav_pools_total_mb"].

(** A STATS reply whose MEMSTATS line is whole but for the value of free. *)
Definition bad_free_stats : string :=
  "MEMSTATS: heap 1 mmap 2 used 3 free ? releasable 5 pools 1 pools_used 1143.596M pools_total 1143.632M"
  ++ LF.

(** On [name] the pass sends exactly the value [s] converts to. *)
Definition sent_converted (name s : string) (t : list event) : Prop :=
  exists v, ParseFloat s = Some (inl v) /\ observed name t = [(v, [])].

(** The same, unless [s] is the placeholder: then nothing is sent. *)
Definition sent_unless_na (name s : string) (t : list event) : Prop :=
  if String.eqb s "N/A" then observed name t = []
  else sent_converted name s t.

(** Whatever the pass sends on [name] is the conversion of [s]. *)
Definition only_converted (name s : string) (t : list event) : Prop :=
  forall v labels,
    In (v, labels) (observed name t) ->
    ParseFloat s = Some (inl v) /\ labels = [].

(** Two replies agree on the leftmost THREADS line: both have one, with the
    same three numbers, or neither has one.  What stands before and behind
    the line is free on both sides. *)
Definition same_first_threads (s1 s2 : string) : Prop :=
  (exists a b c pre1 post1 pre2 post2,
      first_threads_at s1 pre1 a b c post1 /\
      first_threads_at s2 pre2 a b c post2) \/
  ((forall pre a b c post, ~ threads_at s1 pre a b c post) /\
   (forall pre a b c post, ~ threads_at s2 pre a b c post)).

Definition same_first_queue (s1 s2 : string) : Prop :=
  (exists n pre1 post1 pre2 post2,
      first_queue_at s1 pre1 n post1 /\ first_queue_at s2 pre2 n post2) \/
  ((forall pre n post, ~ queue_at s1 pre n post) /\
   (forall pre n post, ~ queue_at s2 pre n post)).

(** The same for the MEMSTATS line and the five values [Collect] reads of
    it; the values of free, releasable and pools are free as well. *)
Definition same_first_memstats (s1 s2 : string) : Prop :=
  (exists h m u pu pt f1 r1 p1 pre1 post1 f2 r2 p2 pre2 post2,
      first_memstats_at s1 pre1 h m u f1 r1 p1 pu pt post1 /\
      first_memstats_at s2 pre2 h m u f2 r2 p2 pu pt post2) \/
  ((forall pre h m u f r p pu pt post,
       ~ memstats_at s1 pre h m u f r p pu pt post) /\
   (forall pre h m u f r p pu pt post,
       ~ memstats_at s2 pre h m u f r p pu pt post)).

(** A step ends by returning or by [log.Fatalf]. *)
Definition returns_or_fatal (m : M unit) : Prop :=
  result m = Ret tt \/ exists e, result m = Fatal e.

(** ** The shape of a pass *)

(** [Subseq l1 l2]: [l1] is [l2] with some of its elements left out. *)
Inductive Subseq {A : Type} : list A -> list A -> Prop :=
| SubseqNil : Subseq [] []
| SubseqTake x l1 l2 : Subseq l1 l2 -> Subseq (x :: l1) (x :: l2)
| SubseqSkip x l1 l2 : Subseq l1 l2 -> Subseq l1 (x :: l2).

(** The metric names, in the order of the sends of [Collect]. *)
Definition collect_order : list string :=
  ["clamav_up";
   "clamav_threads_live"; "clamav_threads_idle"; "clamav_threads_max";
   "clamav_queue";
   "clamav_mem_heap"; "clamav_mem_mmap"; "clamav_mem_used";
   "clamav_pools_used_mb"; "clamav_pools_total_mb";
   "clamav_build_info"].

(** The lines a trace hands to [log.Debug]. *)
Fixpoint debugged (t : list event) : list string :=
  match t with
  | [] => []
  | EvDebug line :: t' => line :: debugged t'
  | _ :: t' => debugged t'
  end.

(** A trace that sends metrics, each with the property [P], and does
    nothing else. *)
Definition sends_only (P : Metric -> Prop) (t : list event) : Prop :=
  Forall (fun e => match e with EvSend m => P m | _ => False end) t.

(** What the registry expects of a metric of a collector: a descriptor
    that [Describe] has announced, and as many label values as the
    descriptor has variable labels. *)
Definition described (c : Collector) (m : Metric) : Prop :=
  In (desc m) (Describe c) /\
  List.length (labelValues m) = List.length (variableLabels (desc m)).

(** The type and the sign of a metric of this collector. *)
Definition typed (m : Metric) : Prop :=
  valType m = (if String.eqb (fqName (desc m)) "clamav_up"
               then CounterValue else GaugeValue) /\
  Qle (inject_Z 0) (value m).

Definition well_formed (cl : Client) (m : Metric) : Prop :=
  described (New cl) m /\ typed m.

(** [s] occurs in [t]. *)
Definition substring (s t : string) : Prop :=
  exists pre post, t = pre ++ s ++ post.

(** ** Decimal numerals *)

Definition no_digit (s : string) : bool :=
  all_chars (fun c => negb (is_digit c)) s.

(** A numeral that [ParseFloat] converts whatever its digits: digits with
    at most one point, at least one digit, at most 308 bytes. *)
Definition decimal (s : string) : bool :=
  plain s && negb (no_digit s) && (count_char "." s <=? 1)%nat
  && (length s <=? 308)%nat.

Fixpoint without_points (s : string) : string :=
  match s with
  | "" => ""
  | String c s' =>
      if Ascii.eqb c "." then without_points s'
      else String c (without_points s')
  end.

(** What follows the first point. *)
Fixpoint after_point (s : string) : string :=
  match s with
  | "" => ""
  | String c s' => if Ascii.eqb c "." then s' else after_point s'
  end.

(** The rational number a numeral with at most one point denotes. *)
Definition decimal_value (s : string) : Q :=
  Qmake (digits_value (without_points s))
        (Z.to_pos (10 ^ Z.of_nat (length (after_point s)))).

(** The least lengths of a reply in which a pattern can occur. *)
Definition least_stats_length : nat := length (queue_line "0").
Definition least_version_length : nat := length (version_text 0 " " "" "").

(** ** The pools_used pattern of the earlier variant *)

(** The text the pattern matches, from its submatch. *)
Definition pools_used_text (pu : string) : string :=
  "pools_used " ++ pu ++ "M".

Definition pools_used_at (stats pre pu post : string) : Prop :=
  dotted pu = true /\ stats = pre ++ pools_used_text pu ++ post.

Definition first_pools_used_at (stats pre pu post : string) : Prop :=
  pools_used_at stats pre pu post /\
  forall pre' pu' post',
    pools_used_at stats pre' pu' post' -> (length pre <= length pre')%nat.

(** The metric names, in the order of the sends of the earlier [Collect]. *)
Definition earlier_order : list string :=
  ["clamav_up"; "clamav_pools_used"; "clamav_build_info"].

(** * Properties *)

(** ** Strings *)

Lemma append_nil_r (s : string) : s ++ "" = s.
Proof. induction s as [|a s IH]; simpl; [reflexivity | now rewrite IH]. Qed.

Lemma append_assoc (s1 s2 s3 : string) : (s1 ++ s2) ++ s3 = s1 ++ (s2 ++ s3).
Proof. induction s1 as [|a s1 IH]; simpl; [reflexivity | now rewrite IH]. Qed.

Lemma length_append (s1 s2 : string) :
  length (s1 ++ s2) = length s1 + length s2.
Proof. induction s1 as [|a s1 IH]; simpl; [reflexivity | now rewrite IH]. Qed.

Lemma append_inv_head (s t1 t2 : string) : s ++ t1 = s ++ t2 -> t1 = t2.
Proof.
  induction s as [|a s IH]; simpl; intros H; [exact H|].
  injection H as H. now apply IH.
Qed.

Lemma all_chars_app (p : ascii -> bool) (s1 s2 : string) :
  all_chars p (s1 ++ s2) = all_chars p s1 && all_chars p s2.
Proof.
  induction s1 as [|a s1 IH]; simpl; [reflexivity|].
  now rewrite IH, andb_assoc.
Qed.

Lemma all_chars_ext (p q : ascii -> bool) (s : string) :
  (forall c, p c = q c) -> all_chars p s = all_chars q s.
Proof.
  intros E. induction s as [|a s IH]; simpl; [reflexivity|].
  now rewrite E, IH.
Qed.

Lemma strip_prefix_app (l rest : string) : strip_prefix l (l ++ rest) = Some rest.
Proof.
  induction l as [|a l IH]; simpl; [reflexivity|].
  now rewrite Ascii.eqb_refl.
Qed.

Lemma strip_prefix_inv (l s rest : string) :
  strip_prefix l s = Some rest -> s = l ++ rest.
Proof.
  revert s. induction l as [|a l IH]; simpl; intros s H.
  - now injection H as ->.
  - destruct s as [|b s]; [discriminate|].
    destruct (Ascii.eqb_spec a b) as [->|]; [|discriminate].
    now rewrite (IH _ H).
Qed.

(** ** The backtracking enumeration against the declarative reading *)

Section Backtrack.

Lemma star_loop_sound (r : Regexp) (fuel : nat) :
  (forall s caps c caps' rest,
      In (c, caps', rest) (backtrack r s caps) ->
      Matches r c caps caps' /\ s = c ++ rest) ->
  forall s caps c caps' rest,
    In (c, caps', rest) (star_loop (backtrack r) fuel s caps) ->
    Matches (Star r) c caps caps' /\ s = c ++ rest.
Proof.
  intros Hstep. induction fuel as [|fuel IH]; simpl; intros s caps c caps' rest H.
  - destruct H as [H|[]]. injection H as <- <- <-. split; [constructor | reflexivity].
  - apply in_app_or in H. destruct H as [H|[H|[]]].
    + apply in_flat_map in H. destruct H as [[[c1 caps1] rest1] [H1 H2]].
      destruct (Hstep _ _ _ _ _ H1) as [M1 E1].
      destruct c1 as [|a c1]; [contradiction|].
      apply in_map_iff in H2. destruct H2 as [[[c2 caps2] rest2] [E H2]].
      simpl in E. injection E as <- <- <-.
      destruct (IH _ _ _ _ _ H2) as [M2 E2].
      split.
      * change (String a (c1 ++ c2)) with (String a c1 ++ c2).
        eapply MStarStep; eauto. discriminate.
      * rewrite E1, E2. simpl. now rewrite append_assoc.
    + injection H as <- <- <-. split; [constructor | reflexivity].
Qed.

(** Every enumerated match is a match of the pattern, and splits the
    input into the text matched and the text left. *)
Theorem backtrack_sound (r : Regexp) :
  forall s caps c caps' rest,
    In (c, caps', rest) (backtrack r s caps) ->
    Matches r c caps caps' /\ s = c ++ rest.
Proof.
  induction r as [l|ranges|r1 IH1 r2 IH2|r1 IH1 r2 IH2|r1 IH1|r1 IH1|n r1 IH1];
    intros s caps c caps' rest H; cbn [backtrack] in H.
  - destruct (strip_prefix l s) as [rest0|] eqn:E; [|contradiction].
    destruct H as [H|[]]. injection H as <- <- <-.
    split; [constructor | now apply strip_prefix_inv].
  - destruct s as [|a s]; [contradiction|].
    destruct (in_class ranges a) eqn:E; [|contradiction].
    destruct H as [H|[]]. injection H as <- <- <-.
    split; [now constructor | reflexivity].
  - apply in_flat_map in H. destruct H as [[[c1 caps1] rest1] [H1 H2]].
    apply in_map_iff in H2. destruct H2 as [[[c2 caps2] rest2] [E H2]].
    simpl in E. injection E as <- <- <-.
    destruct (IH1 _ _ _ _ _ H1) as [M1 E1].
    destruct (IH2 _ _ _ _ _ H2) as [M2 E2].
    split; [econstructor; eauto|].
    rewrite E1, E2. now rewrite append_assoc.
  - apply in_app_or in H. destruct H as [H|H].
    + destruct (IH1 _ _ _ _ _ H). split; [now apply MAlternateL | assumption].
    + destruct (IH2 _ _ _ _ _ H). split; [now apply MAlternateR | assumption].
  - now apply (star_loop_sound _ _ IH1) in H.
  - apply in_flat_map in H. destruct H as [[[c1 caps1] rest1] [H1 H2]].
    apply in_map_iff in H2. destruct H2 as [[[c2 caps2] rest2] [E H2]].
    simpl in E. injection E as <- <- <-.
    destruct (IH1 _ _ _ _ _ H1) as [M1 E1].
    destruct (star_loop_sound _ _ IH1 _ _ _ _ _ H2) as [M2 E2].
    split; [econstructor; eauto|].
    rewrite E1, E2. now rewrite append_assoc.
  - apply in_map_iff in H. destruct H as [[[c1 caps1] rest1] [E H]].
    injection E as <- <- <-.
    destruct (IH1 _ _ _ _ _ H). split; [now constructor | assumption].
Qed.

Lemma flat_map_ext_in {A B} (f g : A -> list B) (l : list A) :
  (forall a, In a l -> f a = g a) -> flat_map f l = flat_map g l.
Proof.
  induction l as [|x l IH]; intros H; [reflexivity|].
  simpl. rewrite (H x) by now left.
  rewrite IH; [reflexivity|]. intros a Ha. apply H. now right.
Qed.

(** The fuel of a loop is never exhausted: beyond the length of the input,
    more fuel changes nothing. *)
Lemma star_loop_fuel (r : Regexp) (f1 : nat) :
  forall f2 s caps,
    (length s < f1)%nat -> (length s < f2)%nat ->
    star_loop (backtrack r) f1 s caps = star_loop (backtrack r) f2 s caps.
Proof.
  induction f1 as [|f1 IH]; intros f2 s caps H1 H2; [inversion H1|].
  destruct f2 as [|f2]; [inversion H2|].
  cbn [star_loop]. f_equal. apply flat_map_ext_in.
  intros [[c1 caps1] rest1] Hin.
  destruct c1 as [|a c1]; [reflexivity|].
  apply backtrack_sound in Hin. destruct Hin as [_ ->].
  simpl in H1, H2. rewrite length_append in H1, H2.
  f_equal. apply IH; lia.
Qed.

(** Conversely every match of the pattern at the head of the input is
    enumerated; the fuel of the loops is enough. *)
Lemma backtrack_complete_aux (r : Regexp) (c : string) (caps caps' : Caps) :
  Matches r c caps caps' ->
  (forall rest, In (c, caps', rest) (backtrack r (c ++ rest) caps)) /\
  (forall r1, r = Star r1 ->
     forall fuel rest, (length c < fuel)%nat ->
       In (c, caps', rest) (star_loop (backtrack r1) fuel (c ++ rest) caps)).
Proof.
  induction 1 as [l caps|ranges a caps Ha|r1 r2 c1 c2 caps caps1 caps2 _ [IH1 _] _ [IH2 _]
                 |r1 r2 c caps caps' _ [IH _]|r1 r2 c caps caps' _ [IH _]
                 |r caps|r c1 c2 caps caps1 caps2 _ [IH1 _] Hne _ [_ IH2]
                 |r c1 c2 caps caps1 caps2 _ [IH1 _] _ [_ IH2]
                 |n r c caps caps1 _ [IH _]].
  - split; [|discriminate]. intros rest. simpl.
    rewrite strip_prefix_app. now left.
  - split; [|discriminate]. intros rest. simpl. rewrite Ha. now left.
  - split; [|discriminate]. intros rest. simpl.
    apply in_flat_map. exists (c1, caps1, c2 ++ rest). split.
    + rewrite append_assoc. apply IH1.
    + apply in_map_iff. exists (c2, caps2, rest). split; [reflexivity | apply IH2].
  - split; [|discriminate]. intros rest. simpl. apply in_or_app. left. apply IH.
  - split; [|discriminate]. intros rest. simpl. apply in_or_app. right. apply IH.
  - assert (G : forall r1 : Regexp, Star r = Star r1 ->
              forall fuel rest, (length "" < fuel)%nat ->
                In ("", caps, rest) (star_loop (backtrack r1) fuel ("" ++ rest) caps)).
    { intros r1 _ fuel rest Hf. destruct fuel as [|fuel]; [inversion Hf|].
      simpl. apply in_or_app. right. now left. }
    split; [|exact G]. intros rest. cbn [backtrack].
    apply (G r eq_refl). simpl. lia.
  - assert (G : forall r1 : Regexp, Star r = Star r1 ->
              forall fuel rest, (length (c1 ++ c2) < fuel)%nat ->
                In (c1 ++ c2, caps2, rest)
                   (star_loop (backtrack r1) fuel ((c1 ++ c2) ++ rest) caps)).
    { intros r1 E fuel rest Hf. injection E as <-.
      destruct fuel as [|fuel]; [inversion Hf|].
      rewrite length_append in Hf.
      assert (0 < length c1)%nat
        by (destruct c1; [congruence | simpl; lia]).
      simpl. apply in_or_app. left.
      apply in_flat_map. exists (c1, caps1, c2 ++ rest). split.
      - rewrite append_assoc. apply IH1.
      - destruct c1 as [|a c1]; [congruence|].
        apply in_map_iff. exists (c2, caps2, rest). split; [reflexivity|].
        apply (IH2 r eq_refl). simpl in Hf. lia. }
    split; [|exact G]. intros rest. cbn [backtrack].
    apply (G r eq_refl). rewrite !length_append. lia.
  - split; [|discriminate]. intros rest. cbn [backtrack].
    apply in_flat_map. exists (c1, caps1, c2 ++ rest). split.
    + rewrite append_assoc. apply IH1.
    + apply in_map_iff. exists (c2, caps2, rest). split; [reflexivity|].
      apply (IH2 r eq_refl). rewrite length_append. lia.
  - split; [|discriminate]. intros rest. simpl.
    apply in_map_iff. exists (c, caps1, rest). split; [reflexivity | apply IH].
Qed.

Theorem backtrack_complete (r : Regexp) (c : string) (caps caps' : Caps)
        (rest : string) :
  Matches r c caps caps' -> In (c, caps', rest) (backtrack r (c ++ rest) caps).
Proof. intros H. now apply (backtrack_complete_aux _ _ _ _ H). Qed.

End Backtrack.

(** ** The preferred match: the head of the enumeration *)

Section Preference.

Lemma first_literal (l rest : string) (caps : Caps) :
  hd_error (backtrack (Literal l) (l ++ rest) caps) = Some (l, caps, rest).
Proof. simpl. now rewrite strip_prefix_app. Qed.

Lemma first_concat (r1 r2 : Regexp) (s : string) (caps : Caps)
      c1 caps1 rest1 c2 caps2 rest2 :
  hd_error (backtrack r1 s caps) = Some (c1, caps1, rest1) ->
  hd_error (backtrack r2 rest1 caps1) = Some (c2, caps2, rest2) ->
  hd_error (backtrack (Concat r1 r2) s caps) = Some (c1 ++ c2, caps2, rest2).
Proof.
  intros H1 H2. cbn [backtrack].
  destruct (backtrack r1 s caps) as [|x l1]; [discriminate|].
  injection H1 as ->. cbn [flat_map].
  destruct (backtrack r2 rest1 caps1) as [|y l2]; [discriminate|].
  injection H2 as ->. reflexivity.
Qed.

Lemma first_capture (n : nat) (r : Regexp) (s : string) (caps : Caps)
      c caps1 rest :
  hd_error (backtrack r s caps) = Some (c, caps1, rest) ->
  hd_error (backtrack (Capture n r) s caps) = Some (c, set_cap n c caps1, rest).
Proof.
  intros H. cbn [backtrack].
  destruct (backtrack r s caps) as [|x l]; [discriminate|].
  injection H as ->. reflexivity.
Qed.

Lemma first_alternate_l (r1 r2 : Regexp) (s : string) (caps : Caps) x :
  hd_error (backtrack r1 s caps) = Some x ->
  hd_error (backtrack (Alternate r1 r2) s caps) = Some x.
Proof.
  intros H. cbn [backtrack].
  destruct (backtrack r1 s caps); [discriminate | exact H].
Qed.

Lemma first_alternate_r (r1 r2 : Regexp) (s : string) (caps : Caps) :
  backtrack r1 s caps = [] ->
  hd_error (backtrack (Alternate r1 r2) s caps) = hd_error (backtrack r2 s caps).
Proof. intros H. cbn [backtrack]. now rewrite H. Qed.

Lemma class_stops (ranges : list (ascii * ascii)) (rest : string) (caps : Caps) :
  stops ranges rest = true -> backtrack (CharClass ranges) rest caps = [].
Proof.
  destruct rest as [|a rest]; simpl; [reflexivity|].
  now destruct (in_class ranges a).
Qed.

Lemma class_step (ranges : list (ascii * ascii)) (x : ascii) (s : string)
      (caps : Caps) :
  in_class ranges x = true ->
  backtrack (CharClass ranges) (String x s) caps = [(String x "", caps, s)].
Proof. intros H. simpl. now rewrite H. Qed.

(** A greedy loop over a class takes the whole run. *)
Lemma first_star_loop_class (ranges : list (ascii * ascii)) (a : string) :
  forall fuel rest caps,
    all_chars (in_class ranges) a = true -> stops ranges rest = true ->
    (length a < fuel)%nat ->
    hd_error (star_loop (backtrack (CharClass ranges)) fuel (a ++ rest) caps)
    = Some (a, caps, rest).
Proof.
  induction a as [|x a IH]; intros fuel rest caps Ha Hs Hf;
    (destruct fuel as [|fuel]; [inversion Hf|]).
  - cbn [star_loop append]. now rewrite class_stops.
  - simpl in Ha. apply andb_prop in Ha. destruct Ha as [Hx Ha].
    cbn [star_loop append]. rewrite (class_step _ _ _ _ Hx).
    cbn [flat_map]. rewrite app_nil_r.
    specialize (IH fuel rest caps Ha Hs ltac:(simpl in Hf; lia)).
    destruct (star_loop (backtrack (CharClass ranges)) fuel (a ++ rest) caps)
      as [|y l]; [discriminate|].
    injection IH as ->. reflexivity.
Qed.

Lemma first_star_class (ranges : list (ascii * ascii)) (a rest : string)
      (caps : Caps) :
  all_chars (in_class ranges) a = true -> stops ranges rest = true ->
  hd_error (backtrack (Star (CharClass ranges)) (a ++ rest) caps)
  = Some (a, caps, rest).
Proof.
  intros Ha Hs. cbn [backtrack]. apply first_star_loop_class; auto.
  rewrite length_append. lia.
Qed.

Lemma first_plus_class (ranges : list (ascii * ascii)) (a rest : string)
      (caps : Caps) :
  a <> "" ->
  all_chars (in_class ranges) a = true -> stops ranges rest = true ->
  hd_error (backtrack (Plus (CharClass ranges)) (a ++ rest) caps)
  = Some (a, caps, rest).
Proof.
  intros Hne Ha Hs. destruct a as [|x a]; [congruence|].
  simpl in Ha. apply andb_prop in Ha. destruct Ha as [Hx Ha].
  change (backtrack (Plus (CharClass ranges)) (String x a ++ rest) caps)
    with (flat_map
            (fun y : Res =>
               let '(c1, caps1, rest1) := y in
               map (prepend c1)
                   (star_loop (backtrack (CharClass ranges))
                              (S (length rest1)) rest1 caps1))
            (backtrack (CharClass ranges) (String x (a ++ rest)) caps)).
  rewrite (class_step _ _ _ _ Hx). cbn [flat_map]. rewrite app_nil_r.
  assert (H := first_star_loop_class ranges a (S (length (a ++ rest))) rest
                 caps Ha Hs ltac:(rewrite length_append; lia)).
  destruct (star_loop (backtrack (CharClass ranges)) (S (length (a ++ rest)))
                      (a ++ rest) caps) as [|y l]; [discriminate|].
  injection H as ->. reflexivity.
Qed.

End Preference.

(** ** Search: the leftmost position with a match *)

Section Search.
Variable re : Compiled.

Lemma match_here_sound (s c : string) (caps : Caps) (rest : string) :
  match_here re s = Some (c, caps, rest) ->
  Occurrence re c caps /\ s = c ++ rest.
Proof.
  unfold match_here, Occurrence, no_caps. intros H.
  apply backtrack_sound.
  destruct (backtrack _ s _) as [|x l]; [discriminate|].
  injection H as ->. now left.
Qed.

Lemma match_here_none (s : string) :
  match_here re s = None ->
  forall c caps rest, Occurrence re c caps -> s <> c ++ rest.
Proof.
  unfold match_here, Occurrence, no_caps. intros H c caps rest M ->.
  apply (backtrack_complete _ _ _ _ rest) in M.
  destruct (backtrack _ (c ++ rest) _); [contradiction | discriminate].
Qed.

Lemma search_unfold (s : string) :
  search re s =
  match match_here re s with
  | Some m => Some ("", m)
  | None =>
      match s with
      | "" => None
      | String c s' =>
          match search re s' with
          | Some (skipped, m) => Some (String c skipped, m)
          | None => None
          end
      end
  end.
Proof. destruct s; reflexivity. Qed.

(** The search reports the match at the first position that has one. *)
Lemma search_found (pre s : string) (m : Res) :
  match_here re s = Some m ->
  (forall p1 p2, pre = p1 ++ p2 -> p2 <> "" -> match_here re (p2 ++ s) = None) ->
  search re (pre ++ s) = Some (pre, m).
Proof.
  intros Hm. induction pre as [|a pre IH]; intros Hpre.
  - simpl. rewrite search_unfold, Hm. reflexivity.
  - rewrite search_unfold.
    rewrite (Hpre "" (String a pre) eq_refl ltac:(discriminate)).
    simpl. rewrite IH; [reflexivity|].
    intros p1 p2 E Hne. apply (Hpre (String a p1) p2); [|assumption].
    simpl. now rewrite E.
Qed.

Lemma search_inv (s skipped : string) (m : Res) :
  search re s = Some (skipped, m) ->
  exists s',
    s = skipped ++ s' /\ match_here re s' = Some m /\
    (forall p1 p2, skipped = p1 ++ p2 -> p2 <> "" ->
                   match_here re (p2 ++ s') = None).
Proof.
  revert skipped. induction s as [|a s IH]; intros skipped H;
    rewrite search_unfold in H.
  - destruct (match_here re "") as [m'|] eqn:E; [|discriminate].
    injection H as <- <-. exists "". repeat split; auto.
    intros p1 p2 E'. destruct p1; destruct p2; simpl in E'; congruence.
  - destruct (match_here re (String a s)) as [m'|] eqn:E.
    + injection H as <- <-. exists (String a s). repeat split; auto.
      intros p1 p2 E'. destruct p1; destruct p2; simpl in E'; congruence.
    + destruct (search re s) as [[sk m']|] eqn:E'; [|discriminate].
      injection H as <- <-.
      destruct (IH _ eq_refl) as [s' [Es [Hm Hno]]].
      exists s'. repeat split; auto.
      * simpl. now rewrite Es.
      * intros p1 p2 E2 Hne. destruct p1 as [|b p1]; simpl in E2.
        -- subst p2. simpl. rewrite <- Es. exact E.
        -- injection E2 as _ E2. now apply (Hno p1 p2).
Qed.

Lemma search_none (s : string) :
  (forall p1 p2, s = p1 ++ p2 -> match_here re p2 = None) ->
  search re s = None.
Proof.
  induction s as [|a s IH]; intros H; rewrite search_unfold.
  - now rewrite (H "" "" eq_refl).
  - rewrite (H "" (String a s) eq_refl).
    rewrite IH; [reflexivity|].
    intros p1 p2 E. apply (H (String a p1) p2). simpl. now rewrite E.
Qed.

Lemma search_none_inv (s : string) :
  search re s = None ->
  forall p1 p2, s = p1 ++ p2 -> match_here re p2 = None.
Proof.
  induction s as [|a s IH]; intros H p1 p2 E; rewrite search_unfold in H.
  - destruct p1; destruct p2; try discriminate.
    now destruct (match_here re "").
  - destruct (match_here re (String a s)) eqn:E1; [discriminate|].
    destruct (search re s) as [[sk m']|] eqn:E2; [discriminate|].
    destruct p1 as [|b p1]; simpl in E.
    + now subst p2.
    + injection E as _ E. now apply (IH eq_refl p1 p2).
Qed.

(** Of the result of [FindAllStringSubmatch], the collector uses whether
    it is empty and its first element: that is the leftmost match. *)
Lemma FindAll_head (s : string) :
  hd_error (FindAllStringSubmatch re s)
  = option_map (fun x => submatch (snd x)) (search re s).
Proof.
  unfold FindAllStringSubmatch. cbn [all_matches].
  destruct (search re s) as [[skipped [[c caps] rest]]|]; [|reflexivity].
  destruct c; reflexivity.
Qed.

(** The fuel of [FindAllStringSubmatch] is never exhausted either. *)
Lemma all_matches_fuel (f1 : nat) :
  forall f2 s after,
    (length s < f1)%nat -> (length s < f2)%nat ->
    all_matches f1 re s after = all_matches f2 re s after.
Proof.
  induction f1 as [|f1 IH]; intros f2 s after H1 H2; [inversion H1|].
  destruct f2 as [|f2]; [inversion H2|].
  cbn [all_matches].
  destruct (search re s) as [[skipped [[c caps] rest]]|] eqn:E; [|reflexivity].
  apply search_inv in E. destruct E as (s' & -> & Hm & _).
  apply match_here_sound in Hm. destruct Hm as [_ ->].
  rewrite !length_append in H1, H2.
  destruct c as [|a c].
  - f_equal. destruct rest as [|b rest]; [reflexivity|].
    simpl in H1, H2. apply IH; lia.
  - f_equal. simpl in H1, H2. apply IH; lia.
Qed.

End Search.

(** ** Runs of a character class *)

Section Classes.

Lemma code_inj (a b : ascii) : code a = code b -> a = b.
Proof.
  unfold code. intros H. apply N2Z.inj in H.
  rewrite <- (ascii_N_embedding a), <- (ascii_N_embedding b). now rewrite H.
Qed.

Lemma in_class_digit (c : ascii) : in_class [("0", "9")%char] c = is_digit c.
Proof. unfold in_class, in_range, is_digit. simpl. now rewrite orb_false_r. Qed.

Lemma in_class_digit_or_dot (c : ascii) :
  in_class [("0", "9"); (".", ".")]%char c = is_digit_or_dot c.
Proof.
  unfold in_class, in_range, is_digit_or_dot, is_digit. simpl.
  rewrite orb_false_r. f_equal.
  destruct (Ascii.eqb_spec c ".") as [->|Hne]; [reflexivity|].
  change (code ".") with 46%Z.
  destruct (46 <=? code c)%Z eqn:E1; [|reflexivity].
  destruct (code c <=? 46)%Z eqn:E2; [|reflexivity].
  exfalso. apply Hne. apply code_inj. change (code ".") with 46%Z. lia.
Qed.

Lemma matches_star_class (ranges : list (ascii * ascii)) (c : string)
      (caps caps' : Caps) :
  Matches (Star (CharClass ranges)) c caps caps' ->
  caps' = caps /\ all_chars (in_class ranges) c = true.
Proof.
  intros H. remember (Star (CharClass ranges)) as r eqn:Er.
  induction H as [| | | | | |r0 c1 c2 caps caps1 caps2 H1 _ Hne H2 IH2| |];
    try discriminate.
  - split; reflexivity.
  - injection Er as ->. inversion H1; subst.
    destruct (IH2 eq_refl) as [-> Hc2]. split; [reflexivity|].
    simpl. now rewrite Hc2, andb_true_r.
Qed.

Lemma matches_plus_class (ranges : list (ascii * ascii)) (c : string)
      (caps caps' : Caps) :
  Matches (Plus (CharClass ranges)) c caps caps' ->
  caps' = caps /\ c <> "" /\ all_chars (in_class ranges) c = true.
Proof.
  intros H. inversion H as [| | | | | | |r0 c1 c2 caps0 caps1 caps2 H1 H2|]; subst.
  inversion H1; subst. apply matches_star_class in H2. destruct H2 as [-> Hc2].
  repeat split; [discriminate|]. simpl. now rewrite Hc2, andb_true_r.
Qed.

Lemma star_class_matches (ranges : list (ascii * ascii)) (c : string)
      (caps : Caps) :
  all_chars (in_class ranges) c = true ->
  Matches (Star (CharClass ranges)) c caps caps.
Proof.
  induction c as [|x c IH]; simpl; intros H; [constructor|].
  apply andb_prop in H. destruct H as [Hx Hc].
  change (String x c) with (String x "" ++ c).
  eapply MStarStep; [now constructor | discriminate | now apply IH].
Qed.

Lemma plus_class_matches (ranges : list (ascii * ascii)) (c : string)
      (caps : Caps) :
  c <> "" -> all_chars (in_class ranges) c = true ->
  Matches (Plus (CharClass ranges)) c caps caps.
Proof.
  destruct c as [|x c]; [congruence|]. simpl. intros _ H.
  apply andb_prop in H. destruct H as [Hx Hc].
  change (String x c) with (String x "" ++ c).
  eapply MPlus; [now constructor | now apply star_class_matches].
Qed.

End Classes.

(** ** The shapes of the four patterns, in plain terms *)

Section Shapes.

Lemma number_spec (s : string) :
  number s = true <-> s <> "" /\ all_chars (in_class [("0", "9")%char]) s = true.
Proof.
  unfold number. rewrite andb_true_iff, negb_true_iff, String.eqb_neq.
  now rewrite (all_chars_ext _ _ s in_class_digit).
Qed.

Lemma dotted_spec (s : string) :
  dotted s = true <->
  s <> "" /\ all_chars (in_class [("0", "9"); (".", ".")]%char) s = true.
Proof.
  unfold dotted. rewrite andb_true_iff, negb_true_iff, String.eqb_neq.
  now rewrite (all_chars_ext _ _ s in_class_digit_or_dot).
Qed.

Lemma matches_number (s : string) (caps caps' : Caps) :
  Matches (Plus digit) s caps caps' <-> caps' = caps /\ number s = true.
Proof.
  rewrite number_spec. split.
  - intros H. now apply matches_plus_class in H.
  - intros [-> [H1 H2]]. now apply plus_class_matches.
Qed.

Lemma matches_dotted (s : string) (caps caps' : Caps) :
  Matches (Plus digit_or_dot) s caps caps' <-> caps' = caps /\ dotted s = true.
Proof.
  rewrite dotted_spec. split.
  - intros H. now apply matches_plus_class in H.
  - intros [-> [H1 H2]]. now apply plus_class_matches.
Qed.

Lemma matches_na_or_number (s : string) (caps caps' : Caps) :
  Matches na_or_digits s caps caps' <-> caps' = caps /\ na_or_number s = true.
Proof.
  unfold na_or_digits, na_or_number. rewrite orb_true_iff, String.eqb_eq. split.
  - intros H. inversion H; subst.
    + match goal with M : Matches (Literal _) _ _ _ |- _ => inversion M; subst end.
      auto.
    + match goal with M : Matches (Plus _) _ _ _ |- _ =>
                        apply matches_number in M; destruct M as [-> M] end.
      auto.
  - intros [-> [->|H]].
    + apply MAlternateL. constructor.
    + apply MAlternateR. now apply matches_number.
Qed.

End Shapes.

(** Inversion of a match of a composite pattern into its parts. *)
Ltac invert_matches :=
  repeat match goal with
         | H : Matches (Concat _ _) _ _ _ |- _ => inversion H; subst; clear H
         | H : Matches (Literal _) _ _ _ |- _ => inversion H; subst; clear H
         | H : Matches (Capture _ _) _ _ _ |- _ => inversion H; subst; clear H
         | H : Matches (Plus digit) _ _ _ |- _ =>
             apply matches_number in H; destruct H as [-> H]
         | H : Matches (Plus digit_or_dot) _ _ _ |- _ =>
             apply matches_dotted in H; destruct H as [-> H]
         | H : Matches na_or_digits _ _ _ |- _ =>
             apply matches_na_or_number in H; destruct H as [-> H]
         end.

Section PatternShapes.

Lemma threads_occurrence (c : string) (caps : Caps) :
  Occurrence threads_regex c caps <->
  exists a b d,
    number a = true /\ number b = true /\ number d = true /\
    c = threads_line a b d /\
    caps = [Some c; Some a; Some b; Some d].
Proof.
  unfold Occurrence, no_caps, threads_regex. cbn [expr numSubexp cat repeat].
  split.
  - intros H. invert_matches. eexists _, _, _.
    refine (conj _ (conj _ (conj _ (conj eq_refl eq_refl)))); assumption.
  - intros (a & b & d & Ha & Hb & Hd & -> & ->).
    unfold threads_line.
    apply (MCapture 0 _ _ _ [None; Some a; Some b; Some d]).
    repeat (eapply MConcat; [| ]); try apply MLiteral.
    + apply (MCapture 1 _ _ _ [None; None; None; None]).
      now apply matches_number.
    + apply (MCapture 2 _ _ _ [None; Some a; None; None]).
      now apply matches_number.
    + apply (MCapture 3 _ _ _ [None; Some a; Some b; None]).
      now apply matches_number.
Qed.

End PatternShapes.

(** ** Occurrences of a pattern in a text *)

Section Occurrences.
Variable re : Compiled.

(** The match preferred at the leftmost position that has an occurrence
    is the one the search finds. *)
Lemma search_first_occurrence (s pre c : string) (caps : Caps) (post : string) :
  s = pre ++ c ++ post ->
  match_here re (c ++ post) = Some (c, caps, post) ->
  (forall pre' c' caps' post',
      Occurrence re c' caps' -> s = pre' ++ c' ++ post' ->
      (length pre <= length pre')%nat) ->
  search re s = Some (pre, (c, caps, post)).
Proof.
  intros -> Hm Hmin. apply search_found; [exact Hm|].
  intros p1 p2 -> Hne.
  destruct (match_here re (p2 ++ c ++ post)) as [[[c' caps'] rest']|] eqn:M;
    [|reflexivity].
  apply match_here_sound in M. destruct M as [Ho E].
  exfalso. specialize (Hmin p1 c' caps' rest' Ho).
  rewrite append_assoc, E in Hmin. specialize (Hmin eq_refl).
  rewrite length_append in Hmin.
  destruct p2; [congruence | simpl in Hmin; lia].
Qed.

Lemma search_no_occurrence (s : string) :
  (forall pre c caps post, Occurrence re c caps -> s <> pre ++ c ++ post) ->
  search re s = None.
Proof.
  intros H. apply search_none. intros p1 p2 ->.
  destruct (match_here re p2) as [[[c caps] rest]|] eqn:M; [|reflexivity].
  apply match_here_sound in M. destruct M as [Ho ->].
  exfalso. now apply (H p1 c caps rest Ho).
Qed.

Lemma search_occurrence (s skipped c : string) (caps : Caps) (rest : string) :
  search re s = Some (skipped, (c, caps, rest)) ->
  Occurrence re c caps /\ s = skipped ++ c ++ rest.
Proof.
  intros H. apply search_inv in H. destruct H as [s' [-> [Hm _]]].
  apply match_here_sound in Hm. destruct Hm as [Ho ->]. now split.
Qed.

(** What the collector reads off [FindAllStringSubmatch]. *)
Lemma FindAll_first (s skipped : string) (m : Res) :
  search re s = Some (skipped, m) ->
  exists later, FindAllStringSubmatch re s = submatch m :: later.
Proof.
  intros H. assert (E := FindAll_head re s). rewrite H in E. simpl in E.
  destruct (FindAllStringSubmatch re s) as [|x later]; [discriminate|].
  injection E as ->. now exists later.
Qed.

Lemma FindAll_none (s : string) :
  search re s = None -> FindAllStringSubmatch re s = [].
Proof.
  intros H. assert (E := FindAll_head re s). rewrite H in E. simpl in E.
  now destruct (FindAllStringSubmatch re s).
Qed.

Lemma FindAll_occurrence (s : string) (m : list string) (later : list (list string)) :
  FindAllStringSubmatch re s = m :: later ->
  exists pre c caps post,
    Occurrence re c caps /\ s = pre ++ c ++ post /\
    m = submatch (c, caps, post).
Proof.
  intros H. assert (E := FindAll_head re s). rewrite H in E. simpl in E.
  destruct (search re s) as [[skipped [[c caps] rest]]|] eqn:Es; [|discriminate].
  injection E as ->. apply search_occurrence in Es. destruct Es as [Ho ->].
  now exists skipped, c, caps, rest.
Qed.

End Occurrences.

(** Construction of a match of a composite pattern from its parts. *)
Ltac build_matches :=
  repeat first
         [ apply MLiteral
         | eapply MConcat
         | eapply MCapture
         | apply matches_number; split; [reflexivity | assumption]
         | apply matches_dotted; split; [reflexivity | assumption]
         | apply matches_na_or_number; split; [reflexivity | assumption] ].

Section MorePatternShapes.

Lemma queue_occurrence (c : string) (caps : Caps) :
  Occurrence queue_regex c caps <->
  exists n, number n = true /\ c = queue_line n /\ caps = [Some c; Some n].
Proof.
  unfold Occurrence, no_caps, queue_regex. cbn [expr numSubexp cat repeat].
  split.
  - intros H. invert_matches. eexists.
    refine (conj _ (conj eq_refl eq_refl)); assumption.
  - intros (n & Hn & -> & ->). unfold queue_line.
    match goal with
    | |- Matches _ ?c _ _ =>
        change (Matches (Capture 0
                  (Concat (Literal "QUEUE:: ")
                     (Concat (Capture 1 (Plus digit)) (Literal " items"))))
                  c [None; None] (set_cap 0 c (set_cap 1 n [None; None])))
    end.
    build_matches.
Qed.

Lemma memstats_occurrence (c : string) (caps : Caps) :
  Occurrence memstats_regex c caps <->
  exists h m u f r p pu pt,
    na_or_number h = true /\ na_or_number m = true /\
    na_or_number u = true /\ na_or_number f = true /\
    na_or_number r = true /\ number p = true /\
    dotted pu = true /\ dotted pt = true /\
    c = memstats_line h m u f r p pu pt /\
    caps = [Some c; Some h; Some m; Some u; Some f; Some r; Some p;
            Some pu; Some pt].
Proof.
  unfold Occurrence, no_caps, memstats_regex. cbn [expr numSubexp cat repeat].
  split.
  - intros H. invert_matches. eexists _, _, _, _, _, _, _, _.
    refine (conj _ (conj _ (conj _ (conj _ (conj _ (conj _ (conj _ (conj _
              (conj eq_refl eq_refl))))))))); assumption.
  - intros (h & m & u & f & r & p & pu & pt
            & Hh & Hm & Hu & Hf & Hr & Hp & Hpu & Hpt & -> & ->).
    unfold memstats_line.
    match goal with
    | |- Matches ?re ?c ?caps0 _ =>
        change (Matches re c caps0
                  (set_cap 0 c
                     (set_cap 8 pt (set_cap 7 pu (set_cap 6 p (set_cap 5 r
                        (set_cap 4 f (set_cap 3 u (set_cap 2 m
                           (set_cap 1 h caps0))))))))))
    end.
    build_matches.
Qed.

End MorePatternShapes.

(** ** The VERSION pattern *)

Section VersionPattern.

Lemma set_cap_idem (n : nat) (v v' : string) (caps : Caps) :
  set_cap n v (set_cap n v' caps) = set_cap n v caps.
Proof.
  revert n. induction caps as [|x caps IH]; intros [|n]; simpl; try reflexivity.
  now rewrite IH.
Qed.

Lemma plain_spec (s : string) :
  plain s = all_chars (in_class [("0", "9"); (".", ".")]%char) s.
Proof. unfold plain. symmetry. apply all_chars_ext, in_class_digit_or_dot. Qed.

Lemma matches_plain (s : string) (caps caps' : Caps) :
  Matches (Star digit_or_dot) s caps caps' <-> caps' = caps /\ plain s = true.
Proof.
  rewrite plain_spec. split.
  - apply matches_star_class.
  - intros [-> H]. now apply star_class_matches.
Qed.

Lemma matches_star_copies (k : nat) (l c : string) (caps caps' : Caps) :
  Matches (Star (Capture k (Literal l))) c caps caps' ->
  exists n, c = copies n l /\
            caps' = match n with O => caps | S _ => set_cap k l caps end.
Proof.
  intros H. remember (Star (Capture k (Literal l))) as r eqn:Er.
  induction H as [| | | | | |r0 c1 c2 caps caps1 caps2 H1 _ Hne H2 IH2| |];
    try discriminate.
  - now exists O.
  - injection Er as ->. inversion H1; subst.
    match goal with M : Matches (Literal _) _ _ _ |- _ => inversion M; subst end.
    destruct (IH2 eq_refl) as [n [-> E]]. exists (S n). split; [reflexivity|].
    destruct n; [assumption|]. now rewrite set_cap_idem in E.
Qed.

Lemma matches_plus_copies (k : nat) (l c : string) (caps caps' : Caps) :
  Matches (Plus (Capture k (Literal l))) c caps caps' ->
  exists n, c = copies (S n) l /\ caps' = set_cap k l caps.
Proof.
  intros H. inversion H as [| | | | | | |r0 c1 c2 caps0 caps1 caps2 H1 H2|]; subst.
  inversion H1; subst.
  match goal with M : Matches (Literal _) _ _ _ |- _ => inversion M; subst end.
  apply matches_star_copies in H2. destruct H2 as [n [-> E]].
  exists n. split; [reflexivity|].
  destruct n; [assumption|]. now rewrite set_cap_idem in E.
Qed.

Lemma copies_matches_star (k : nat) (l : string) (caps : Caps) (n : nat) :
  l <> "" ->
  Matches (Star (Capture k (Literal l))) (copies n l) caps
          match n with O => caps | S _ => set_cap k l caps end.
Proof.
  intros Hl. revert caps. induction n as [|n IH]; intros caps; [constructor|].
  simpl copies. eapply MStarStep; [constructor; constructor | exact Hl |].
  specialize (IH (set_cap k l caps)).
  destruct n; [exact IH|]. now rewrite set_cap_idem in IH.
Qed.

Lemma copies_matches_plus (k : nat) (l : string) (caps : Caps) (n : nat) :
  l <> "" ->
  Matches (Plus (Capture k (Literal l))) (copies (S n) l) caps (set_cap k l caps).
Proof.
  intros Hl. simpl copies. eapply MPlus; [constructor; constructor|].
  assert (H := copies_matches_star k l (set_cap k l caps) n Hl).
  destruct n; [exact H|]. now rewrite set_cap_idem in H.
Qed.

Lemma version_occurrence (c : string) (caps : Caps) :
  Occurrence version_regex c caps <->
  exists n w e d,
    is_space w = true /\ plain e = true /\ plain d = true /\
    c = version_text n w e d /\
    caps = [Some c; Some c; Some "ClamAV"; Some e; Some d].
Proof.
  unfold Occurrence, no_caps, version_regex. cbn [expr numSubexp cat repeat].
  split.
  - intros H. invert_matches.
    repeat match goal with
           | M : Matches (Plus (Capture _ _)) _ _ _ |- _ =>
               apply matches_plus_copies in M; destruct M as [n [-> ->]]
           | M : Matches (Star digit_or_dot) _ _ _ |- _ =>
               apply matches_plain in M; destruct M as [-> M]
           | M : Matches space _ _ _ |- _ => inversion M; subst; clear M
           end.
    eexists n, _, _, _.
    refine (conj _ (conj _ (conj _ (conj eq_refl eq_refl)))); assumption.
  - intros (n & w & e & d & Hw & He & Hd & -> & ->). unfold version_text.
    match goal with
    | |- Matches ?re ?c ?caps0 _ =>
        change (Matches re c caps0
                  (set_cap 0 c (set_cap 1 c
                     (set_cap 4 d (set_cap 3 e (set_cap 2 "ClamAV" caps0))))))
    end.
    repeat first
           [ apply MLiteral
           | eapply MConcat
           | eapply MCapture
           | apply copies_matches_plus; discriminate
           | apply matches_plain; split; [reflexivity | assumption]
           | apply MCharClass; exact Hw ].
Qed.

End VersionPattern.

(** ** The preferred match of each pattern at a position *)

Section FirstOfParts.

Lemma first_number (a rest : string) (caps : Caps) :
  number a = true -> stops [("0", "9")%char] rest = true ->
  hd_error (backtrack (Plus digit) (a ++ rest) caps) = Some (a, caps, rest).
Proof.
  intros Ha Hs. apply number_spec in Ha. destruct Ha.
  now apply first_plus_class.
Qed.

Lemma first_dotted (a rest : string) (caps : Caps) :
  dotted a = true -> stops [("0", "9"); (".", ".")]%char rest = true ->
  hd_error (backtrack (Plus digit_or_dot) (a ++ rest) caps) = Some (a, caps, rest).
Proof.
  intros Ha Hs. apply dotted_spec in Ha. destruct Ha.
  now apply first_plus_class.
Qed.

Lemma first_plain (a rest : string) (caps : Caps) :
  plain a = true -> stops [("0", "9"); (".", ".")]%char rest = true ->
  hd_error (backtrack (Star digit_or_dot) (a ++ rest) caps) = Some (a, caps, rest).
Proof.
  intros Ha Hs. rewrite plain_spec in Ha. now apply first_star_class.
Qed.

Lemma first_na_or_digits (h rest : string) (caps : Caps) :
  na_or_number h = true -> stops [("0", "9")%char] rest = true ->
  hd_error (backtrack na_or_digits (h ++ rest) caps) = Some (h, caps, rest).
Proof.
  unfold na_or_number, na_or_digits. intros H Hs.
  destruct (String.eqb_spec h "N/A") as [->|Hne].
  - apply first_alternate_l. apply first_literal.
  - simpl in H. rewrite first_alternate_r; [now apply first_number|].
    unfold number in H. apply andb_prop in H. destruct H as [H1 H2].
    destruct h as [|x h]; [discriminate|].
    simpl in H2. apply andb_prop in H2. destruct H2 as [Hx _].
    cbn [backtrack append strip_prefix].
    destruct (Ascii.eqb_spec "N" x) as [<-|]; [discriminate | reflexivity].
Qed.

End FirstOfParts.

(** The preferred match of a sequence, part by part from the left. *)
Ltac solve_first :=
  lazymatch goal with
  | |- hd_error (backtrack (Literal _) _ _) = _ => exact (first_literal _ _ _)
  | |- hd_error (backtrack (Concat _ _) _ _) = _ =>
      eapply first_concat; [solve_first | solve_first]
  | |- hd_error (backtrack (Capture _ _) _ _) = _ =>
      eapply first_capture; solve_first
  | |- hd_error (backtrack (Plus digit) _ _) = _ =>
      apply first_number; [assumption | reflexivity]
  | |- hd_error (backtrack (Plus digit_or_dot) _ _) = _ =>
      apply first_dotted; [assumption | reflexivity]
  | |- hd_error (backtrack na_or_digits _ _) = _ =>
      apply first_na_or_digits; [assumption | reflexivity]
  end.

Section PreferredMatches.

Lemma match_here_threads (a b c post : string) :
  number a = true -> number b = true -> number c = true ->
  match_here threads_regex (threads_line a b c ++ post)
  = Some (threads_line a b c,
          [Some (threads_line a b c); Some a; Some b; Some c], post).
Proof.
  intros Ha Hb Hc. unfold match_here, threads_line.
  rewrite !append_assoc.
  cbn [threads_regex expr numSubexp cat repeat].
  apply (first_capture 0 _ _ _ _ [None; Some a; Some b; Some c]).
  solve_first.
Qed.

Lemma match_here_queue (n post : string) :
  number n = true ->
  match_here queue_regex (queue_line n ++ post)
  = Some (queue_line n, [Some (queue_line n); Some n], post).
Proof.
  intros Hn. unfold match_here, queue_line.
  rewrite !append_assoc.
  cbn [queue_regex expr numSubexp cat repeat].
  apply (first_capture 0 _ _ _ _ [None; Some n]).
  solve_first.
Qed.

Lemma match_here_memstats (h m u f r p pu pt post : string) :
  na_or_number h = true -> na_or_number m = true -> na_or_number u = true ->
  na_or_number f = true -> na_or_number r = true -> number p = true ->
  dotted pu = true -> dotted pt = true ->
  match_here memstats_regex (memstats_line h m u f r p pu pt ++ post)
  = Some (memstats_line h m u f r p pu pt,
          [Some (memstats_line h m u f r p pu pt); Some h; Some m; Some u;
           Some f; Some r; Some p; Some pu; Some pt], post).
Proof.
  intros Hh Hm Hu Hf Hr Hp Hpu Hpt. unfold match_here, memstats_line.
  rewrite !append_assoc.
  cbn [memstats_regex expr numSubexp cat repeat].
  apply (first_capture 0 _ _ _ _
           [None; Some h; Some m; Some u; Some f; Some r; Some p;
            Some pu; Some pt]).
  solve_first.
Qed.

Lemma length_copies (l : string) (n : nat) :
  l <> "" -> (n <= length (copies n l))%nat.
Proof.
  intros Hl. induction n as [|n IH]; simpl; [lia|].
  rewrite length_append. destruct l; [congruence | simpl; lia].
Qed.

Lemma capture_literal_step (k : nat) (l rest : string) (caps : Caps) :
  backtrack (Capture k (Literal l)) (l ++ rest) caps
  = [(l, set_cap k l caps, rest)].
Proof. cbn [backtrack]. now rewrite strip_prefix_app. Qed.

Lemma capture_literal_stops (k : nat) (l rest : string) (caps : Caps) :
  strip_prefix l rest = None ->
  backtrack (Capture k (Literal l)) rest caps = [].
Proof. intros H. cbn [backtrack]. now rewrite H. Qed.

(** A greedy loop over a literal takes all its copies. *)
Lemma first_star_loop_copies (k : nat) (l : string) (n : nat) :
  forall fuel rest caps,
    l <> "" -> strip_prefix l rest = None -> (n < fuel)%nat ->
    hd_error (star_loop (backtrack (Capture k (Literal l))) fuel
                        (copies n l ++ rest) caps)
    = Some (copies n l,
            match n with O => caps | S _ => set_cap k l caps end, rest).
Proof.
  induction n as [|n IH]; intros fuel rest caps Hl Hs Hf;
    (destruct fuel as [|fuel]; [inversion Hf|]).
  - cbn [star_loop copies append]. now rewrite capture_literal_stops.
  - cbn [star_loop copies]. rewrite append_assoc, capture_literal_step.
    cbn [flat_map]. rewrite app_nil_r.
    specialize (IH fuel rest (set_cap k l caps) Hl Hs ltac:(lia)).
    destruct l as [|x l]; [congruence|].
    destruct (star_loop _ fuel _ _) as [|y later]; [discriminate|].
    injection IH as ->. cbn [map hd_error app prepend]. f_equal. f_equal. f_equal.
    destruct n; [reflexivity | apply set_cap_idem].
Qed.

Lemma first_plus_copies (k : nat) (l : string) (n : nat) (rest : string)
      (caps : Caps) :
  l <> "" -> strip_prefix l rest = None ->
  hd_error (backtrack (Plus (Capture k (Literal l))) (copies (S n) l ++ rest) caps)
  = Some (copies (S n) l, set_cap k l caps, rest).
Proof.
  intros Hl Hs.
  change (backtrack (Plus (Capture k (Literal l))) (copies (S n) l ++ rest) caps)
    with (flat_map
            (fun y : Res =>
               let '(c1, caps1, rest1) := y in
               map (prepend c1)
                   (star_loop (backtrack (Capture k (Literal l)))
                              (S (length rest1)) rest1 caps1))
            (backtrack (Capture k (Literal l)) (copies (S n) l ++ rest) caps)).
  cbn [copies]. rewrite append_assoc, capture_literal_step.
  cbn [flat_map]. rewrite app_nil_r.
  assert (H := first_star_loop_copies k l n (S (length (copies n l ++ rest)))
                 rest (set_cap k l caps) Hl Hs).
  rewrite length_append in H.
  specialize (H ltac:(pose proof (length_copies l n Hl); lia)).
  rewrite <- length_append in H.
  destruct (star_loop _ _ _ _) as [|y later]; [discriminate|].
  injection H as ->. cbn [map hd_error prepend]. f_equal. f_equal. f_equal.
  destruct n; [reflexivity | apply set_cap_idem].
Qed.

Lemma space_not_product (w : ascii) (rest : string) :
  is_space w = true -> strip_prefix "ClamAV" (String w rest) = None.
Proof.
  intros Hw. cbn [strip_prefix].
  destruct (Ascii.eqb_spec "C" w) as [<-|]; [discriminate | reflexivity].
Qed.

Lemma match_here_version (n : nat) (w : ascii) (e d post : string) :
  is_space w = true -> plain e = true -> plain d = true ->
  stops [("0", "9"); (".", ".")]%char post = true ->
  match_here version_regex (version_text n w e d ++ post)
  = Some (version_text n w e d,
          [Some (version_text n w e d); Some (version_text n w e d);
           Some "ClamAV"; Some e; Some d], post).
Proof.
  intros Hw He Hd Hp. unfold match_here, version_text.
  rewrite !append_assoc.
  cbn [version_regex expr numSubexp cat repeat].
  apply (first_capture 0 _ _ _ _
           [None; Some (version_text n w e d); Some "ClamAV"; Some e; Some d]).
  apply (first_capture 1 _ _ _ _ [None; None; Some "ClamAV"; Some e; Some d]).
  eapply first_concat.
  { apply first_plus_copies; [discriminate | now apply space_not_product]. }
  eapply first_concat.
  { unfold space. cbn [append]. rewrite (class_step _ _ _ _ Hw). reflexivity. }
  eapply first_concat.
  { eapply first_capture. apply first_plain; [exact He | reflexivity]. }
  eapply first_concat.
  { exact (first_literal _ _ _). }
  apply (first_capture 4 _ _ _ _ [None; None; Some "ClamAV"; Some e; None]).
  exact (first_plain _ _ _ Hd Hp).
Qed.

End PreferredMatches.

(** ** Conversion of decimal numbers *)

Section Conversion.
Local Open Scope Z_scope.

Lemma digit_not_dot (c : ascii) : is_digit c = true -> Ascii.eqb c "." = false.
Proof.
  intros H. destruct (Ascii.eqb_spec c ".") as [->|]; [discriminate | reflexivity].
Qed.

Lemma digit_val_nonneg (c : ascii) : is_digit c = true -> 0 <= digit_val c.
Proof. unfold is_digit, digit_val. lia. Qed.

Lemma digits_are_plain (s : string) :
  all_chars is_digit s = true -> all_chars is_digit_or_dot s = true.
Proof.
  induction s as [|c s IH]; simpl; [reflexivity|].
  intros H. apply andb_prop in H. destruct H as [Hc Hs].
  rewrite (IH Hs). unfold is_digit_or_dot. now rewrite Hc.
Qed.

Lemma digits_acc_nonneg (s : string) :
  all_chars is_digit s = true -> forall acc, 0 <= acc -> 0 <= digits_acc s acc.
Proof.
  induction s as [|c s IH]; cbn [digits_acc all_chars]; intros H acc Hacc;
    [assumption|].
  apply andb_prop in H. destruct H as [Hc Hs].
  apply IH; [assumption|]. pose proof (digit_val_nonneg c Hc). lia.
Qed.

Lemma readFloat_digits (s : string) :
  all_chars is_digit s = true ->
  forall sawdigits m,
    readFloat s false sawdigits m 0
    = if sawdigits || negb (String.eqb s "") then Some (digits_acc s m, 0)
      else None.
Proof.
  induction s as [|c s IH]; cbn [readFloat digits_acc all_chars];
    intros H sawdigits m.
  - now rewrite orb_false_r.
  - apply andb_prop in H. destruct H as [Hc Hs].
    rewrite (digit_not_dot c Hc), Hc, (IH Hs). cbn [String.eqb negb orb].
    now rewrite orb_true_r.
Qed.

Lemma Qred_integer (n : Z) (p : positive) :
  Qred (Qmake (n * Zpos p) p) = inject_Z n.
Proof.
  assert (E : Qeq (Qmake (n * Zpos p) p) (inject_Z n))
    by (unfold Qeq, inject_Z; simpl; lia).
  rewrite (Qred_complete _ _ E). unfold Qred, inject_Z.
  pose proof (Z.ggcd_gcd n 1) as Hg.
  pose proof (Z.ggcd_correct_divisors n 1) as Hd.
  destruct (Z.ggcd n 1) as [g [aa bb]]. simpl in *.
  rewrite Z.gcd_1_r in Hg. subst g. destruct Hd as [Ha Hb].
  assert (aa = n) by lia. assert (bb = 1) by lia. subst aa bb. reflexivity.
Qed.

(** Below 2^53 every integer is a binary64: the conversion is exact. *)
Lemma nearest64_integer (n : Z) :
  0 <= n < 2 ^ 53 -> nearest64 n 1 = Some (inject_Z n).
Proof.
  intros [H0 H53]. unfold nearest64.
  destruct (Z.eqb_spec n 0) as [->|Hn]; [reflexivity|].
  assert (Hpos : 0 < n) by lia.
  pose proof (Z.log2_nonneg n) as Hl0.
  assert (Hl : Z.log2 n < 53) by (apply Z.log2_lt_pow2; lia).
  pose proof (Z.log2_spec n Hpos) as [Hlo _].
  assert (Hfl : floor_log2 n 1 = Z.log2 n).
  { unfold floor_log2, ge_pow2. change (Z.log2 1) with 0. rewrite Z.sub_0_r.
    destruct (Z.leb_spec 0 (Z.log2 n)); [|lia].
    destruct (Z.leb_spec (1 * 2 ^ Z.log2 n) n); [reflexivity | lia]. }
  rewrite Hfl. rewrite Z.max_l by lia.
  destruct (Z.leb_spec 0 (Z.log2 n - 52)) as [Hq|Hq].
  - assert (Z.log2 n - 52 = 0) as -> by lia.
    change (2 ^ 0) with 1. rewrite !Z.mul_1_r.
    unfold round_half_even. rewrite Z.div_1_r, Z.mod_1_r.
    change (2 * 0 ?= 1) with Lt. cbv iota.
    destruct (Z.leb_spec (2 ^ 1024) n); [|reflexivity].
    assert (2 ^ 53 < 2 ^ 1024) by (apply Z.pow_lt_mono_r; lia). lia.
  - unfold round_half_even. rewrite Z.div_1_r, Z.mod_1_r.
    change (2 * 0 ?= 1) with Lt. cbv iota. f_equal.
    assert (Hp : 0 < 2 ^ (- (Z.log2 n - 52))) by (apply Z.pow_pos_nonneg; lia).
    destruct (2 ^ (- (Z.log2 n - 52))) as [|p|p] eqn:Ep; try lia.
    simpl Z.to_pos. apply Qred_integer.
Qed.

(** *** The rounding is to nearest, ties to even *)

Lemma round_half_even_spec (n d : Z) :
  0 < d ->
  let r := round_half_even n d in
  2 * Z.abs (r * d - n) <= d /\
  (2 * Z.abs (r * d - n) = d -> Z.even r = true).
Proof.
  intros Hd. unfold round_half_even.
  pose proof (Z.div_mod n d ltac:(lia)) as E.
  pose proof (Z.mod_pos_bound n d Hd) as B.
  set (q := n / d) in *. set (m := n mod d) in *.
  destruct (Z.compare_spec (2 * m) d) as [H|H|H]; cbv zeta.
  - destruct (Z.even q) eqn:Eq.
    + split; [lia | auto].
    + split; [lia|]. intros _. rewrite Z.even_add, Eq. reflexivity.
  - split; lia.
  - split; lia.
Qed.

Lemma pow2_pos (k : Z) : 0 <= k -> 0 < 2 ^ k.
Proof. intros. apply Z.pow_pos_nonneg; lia. Qed.

Lemma floor_log2_spec (n d : Z) :
  0 < n -> 0 < d ->
  ge_pow2 n d (floor_log2 n d) = true /\
  ge_pow2 n d (floor_log2 n d + 1) = false.
Proof.
  intros Hn Hd.
  pose proof (Z.log2_spec n Hn) as [Hn1 Hn2].
  pose proof (Z.log2_spec d Hd) as [Hd1 Hd2].
  pose proof (Z.log2_nonneg n) as Ln. pose proof (Z.log2_nonneg d) as Ld.
  set (ln := Z.log2 n) in *. set (ld := Z.log2 d) in *.
  unfold floor_log2. fold ln ld.
  rewrite <- Z.add_1_r in Hn2, Hd2.
  destruct (ge_pow2 n d (ln - ld)) eqn:G0.
  - split; [exact G0|].
    unfold ge_pow2.
    destruct (Z.leb_spec 0 (ln - ld + 1)) as [Hs|Hs].
    + apply Z.leb_gt.
      replace (ln + 1) with (ld + (ln - ld + 1)) in Hn2 by lia.
      rewrite Z.pow_add_r in Hn2 by lia.
      pose proof (pow2_pos (ln - ld + 1) Hs). nia.
    + apply Z.leb_gt.
      replace ld with ((ln + 1) + (- (ln - ld + 1))) in Hd1 by lia.
      rewrite Z.pow_add_r in Hd1 by lia.
      pose proof (pow2_pos (- (ln - ld + 1)) ltac:(lia)). nia.
  - split; [|replace (ln - ld - 1 + 1) with (ln - ld) by lia; exact G0].
    unfold ge_pow2.
    destruct (Z.leb_spec 0 (ln - ld - 1)) as [Hs|Hs].
    + apply Z.leb_le.
      replace ln with ((ld + 1) + (ln - ld - 1)) in Hn1 by lia.
      rewrite Z.pow_add_r in Hn1 by lia.
      pose proof (pow2_pos (ln - ld - 1) Hs). nia.
    + apply Z.leb_le.
      replace (ld + 1) with (ln + (- (ln - ld - 1))) in Hd2 by lia.
      rewrite Z.pow_add_r in Hd2 by lia.
      pose proof (pow2_pos (- (ln - ld - 1)) ltac:(lia)). nia.
Qed.

Lemma round_half_even_bounds (n d k : Z) :
  0 <= n -> 0 < d -> n < d * k ->
  0 <= round_half_even n d <= k.
Proof.
  intros Hn Hd Hk. unfold round_half_even.
  pose proof (Z.div_pos n d Hn Hd) as Hq.
  pose proof (Z.div_lt_upper_bound n d k Hd Hk) as Hu.
  destruct (2 * (n mod d) ?= d); [destruct (Z.even (n / d))| |]; lia.
Qed.

Lemma pow2_le (a b : Z) : 0 <= a <= b -> 2 ^ a <= 2 ^ b.
Proof. intros. apply Z.pow_le_mono_r; lia. Qed.

(** [nearest64] rounds to the nearest multiple of the unit in the last place
    of the binade of n/d, with at most 53 bits. *)
Lemma nearest64_spec (n d : Z) (v : float64) :
  0 < n -> 0 < d -> nearest64 n d = Some v ->
  exists m q,
    q = Z.max (floor_log2 n d - 52) (-1074) /\
    0 <= m <= 2 ^ 53 /\
    if 0 <=? q
    then v = inject_Z (m * 2 ^ q) /\
         2 * Z.abs (m * (d * 2 ^ q) - n) <= d * 2 ^ q
    else v = Qred (Qmake m (Z.to_pos (2 ^ (- q)))) /\
         2 * Z.abs (m * d - n * 2 ^ (- q)) <= d.
Proof.
  intros Hn Hd H. unfold nearest64 in H.
  destruct (Z.eqb_spec n 0) as [|_]; [lia|].
  destruct (floor_log2_spec n d Hn Hd) as [_ Hup].
  set (e := floor_log2 n d) in *.
  set (q := Z.max (e - 52) (-1074)) in *.
  assert (Hq : e - 52 <= q) by (unfold q; lia).
  unfold ge_pow2 in Hup.
  destruct (Z.leb_spec 0 q) as [Hq0|Hq0].
  - set (m := round_half_even n (d * 2 ^ q)) in *.
    exists m, q. split; [reflexivity|].
    pose proof (pow2_pos q Hq0) as Hp.
    assert (Hden : 0 < d * 2 ^ q) by nia.
    assert (Hlt : n < d * 2 ^ q * 2 ^ 53).
    { rewrite <- Z.mul_assoc, <- Z.pow_add_r by lia.
      destruct (Z.leb_spec 0 (e + 1)) as [He|He].
      - apply Z.leb_gt in Hup.
        pose proof (pow2_le (e + 1) (q + 53) ltac:(lia)). nia.
      - apply Z.leb_gt in Hup.
        pose proof (pow2_pos (- (e + 1)) ltac:(lia)).
        pose proof (pow2_pos (q + 53) ltac:(lia)). nia. }
    split; [apply round_half_even_bounds; lia|].
    destruct (2 ^ 1024 <=? m * 2 ^ q); [discriminate|].
    rewrite (proj2 (Z.leb_le 0 q) Hq0).
    split; [congruence|].
    apply (round_half_even_spec n (d * 2 ^ q) Hden).
  - set (m := round_half_even (n * 2 ^ (- q)) d) in *.
    exists m, q. split; [reflexivity|].
    pose proof (pow2_pos (- q) ltac:(lia)) as Hp.
    assert (Hlt : n * 2 ^ (- q) < d * 2 ^ 53).
    { destruct (Z.leb_spec 0 (e + 1)) as [He|He].
      - apply Z.leb_gt in Hup.
        pose proof (pow2_le (e + 1 + - q) 53 ltac:(lia)) as Hle.
        rewrite Z.pow_add_r in Hle by lia.
        pose proof (pow2_pos (e + 1) He). nia.
      - apply Z.leb_gt in Hup.
        pose proof (pow2_le (- q) (- (e + 1) + 53) ltac:(lia)) as Hle.
        rewrite Z.pow_add_r in Hle by lia.
        pose proof (pow2_pos (- (e + 1)) ltac:(lia)). nia. }
    split; [apply round_half_even_bounds; nia|].
    rewrite (proj2 (Z.leb_gt 0 q) Hq0).
    split; [congruence|].
    apply (round_half_even_spec (n * 2 ^ (- q)) d Hd).
Qed.

(** [ParseFloat] on a number below 2^53 is the number. *)
Lemma ParseFloat_number (s : string) :
  number s = true -> digits_value s < 2 ^ 53 ->
  ParseFloat s = Some (inl (inject_Z (digits_value s))).
Proof.
  unfold number, digits_value. intros H Hv.
  apply andb_prop in H. destruct H as [Hne Hd].
  unfold ParseFloat. rewrite (digits_are_plain s Hd).
  rewrite (readFloat_digits s Hd), Hne. simpl orb. cbv iota.
  change (10 ^ 0) with 1.
  rewrite nearest64_integer; [reflexivity|].
  split; [|assumption]. apply digits_acc_nonneg; [assumption | lia].
Qed.

(** [ParseFloat] covers every run of digits and points. *)
Lemma ParseFloat_covers (s : string) :
  plain s = true -> ParseFloat s <> None.
Proof.
  unfold plain, ParseFloat. intros ->.
  destruct (readFloat s false false 0 0) as [[m k]|]; [|discriminate].
  destruct (nearest64 m (10 ^ k)); discriminate.
Qed.

End Conversion.

(** The conversion on a few decimal numbers whose binary64 is known. *)
Example nearest64_tenth :
  nearest64 1 10 = Some (Qmake 3602879701896397 (2 ^ 55)).
Proof. vm_compute. reflexivity. Qed.

Example nearest64_ties_to_even :
  nearest64 (2 ^ 53 + 1) 1 = Some (inject_Z (2 ^ 53)) /\
  nearest64 (2 ^ 53 + 3) 1 = Some (inject_Z (2 ^ 53 + 4)).
Proof. vm_compute. split; reflexivity. Qed.

Example nearest64_largest :
  nearest64 (2 ^ 1024 - 2 ^ 970 - 1) 1 = Some (inject_Z (2 ^ 1024 - 2 ^ 971)) /\
  nearest64 (2 ^ 1024 - 2 ^ 970) 1 = None.
Proof. vm_compute. split; reflexivity. Qed.

Example nearest64_smallest :
  nearest64 25 (10 ^ 325) = Some (Qmake 1 (2 ^ 1074)) /\
  nearest64 24 (10 ^ 325) = Some (inject_Z 0).
Proof. vm_compute. split; reflexivity. Qed.

Example ParseFloat_examples :
  ParseFloat "1143.596" = Some (inl (Qmake 2514794198956245 (2 ^ 41))) /\
  ParseFloat "007" = Some (inl (inject_Z 7)) /\
  ParseFloat "1." = Some (inl (inject_Z 1)) /\
  ParseFloat ".5" = Some (inl (Qmake 1 2)) /\
  ParseFloat "." = Some (inr (syntaxError ".")) /\
  ParseFloat "1.2.3" = Some (inr (syntaxError "1.2.3")) /\
  ParseFloat "" = Some (inr (syntaxError "")) /\
  ParseFloat (copies 310 "9") = Some (inr (rangeError (copies 310 "9"))) /\
  ParseFloat "1e5" = None.
Proof. vm_compute. repeat split. Qed.

(** ** The steps of a pass *)

Section Steps.

Lemma Collect_steps (c : Collector) :
  Collect c =
  (pong <- dial c PING ;;
   ping_step c pong ;;
   stats <- dial c STATS ;;
   Debug ("Stats: " ++ stats) ;;
   threads_step c stats ;;
   queue_step c stats ;;
   memstats_step c stats ;;
   version <- dial c VERSION ;;
   version_step c version).
Proof. reflexivity. Qed.

Lemma trace_bind {A B} (m : M A) (f : A -> M B) :
  trace (bind m f)
  = (trace m ++ match result m with
                | Ret a => trace (f a)
                | _ => []
                end)%list.
Proof.
  destruct m as [t [a|e| |]]; simpl; try now rewrite app_nil_r.
  now destruct (f a).
Qed.

Lemma result_bind {A B} (m : M A) (f : A -> M B) :
  result (bind m f)
  = match result m with
    | Ret a => result (f a)
    | Fatal e => Fatal e
    | Panic => Panic
    | NotCovered => NotCovered
    end.
Proof.
  destruct m as [t [a|e| |]]; simpl; try reflexivity.
  now destruct (f a).
Qed.

Lemma sent_app (t1 t2 : list event) : sent (t1 ++ t2) = (sent t1 ++ sent t2)%list.
Proof.
  induction t1 as [|[c|m|l] t1 IH]; simpl; try assumption; [reflexivity|].
  now rewrite IH.
Qed.

Lemma dialled_app (t1 t2 : list event) :
  dialled (t1 ++ t2) = (dialled t1 ++ dialled t2)%list.
Proof.
  induction t1 as [|[c|m|l] t1 IH]; simpl; try assumption; [reflexivity|].
  now rewrite IH.
Qed.

Lemma observed_app (name : string) (t1 t2 : list event) :
  observed name (t1 ++ t2) = (observed name t1 ++ observed name t2)%list.
Proof. unfold observed. now rewrite sent_app, filter_app, map_app. Qed.

Lemma names_sent_app (t1 t2 : list event) :
  names_sent (t1 ++ t2) = (names_sent t1 ++ names_sent t2)%list.
Proof. unfold names_sent. now rewrite sent_app, map_app. Qed.

Lemma observed_only (name : string) (names : list string) (t : list event) :
  only names t -> ~ In name names -> observed name t = [].
Proof.
  unfold only, observed, names_sent. intros H Hn.
  induction (sent t) as [|m l IH]; [reflexivity|].
  simpl in *. destruct (String.eqb_spec (fqName (desc m)) name) as [E|E].
  - exfalso. apply Hn. apply H. left. exact E.
  - apply IH. intros x Hx. apply H. now right.
Qed.

Lemma only_nil (names : list string) : only names [].
Proof. intros x []. Qed.

Lemma only_app (names : list string) (t1 t2 : list event) :
  only names t1 -> only names t2 -> only names (t1 ++ t2).
Proof.
  unfold only. rewrite names_sent_app. intros H1 H2. now apply incl_app.
Qed.

Lemma only_bind {A B} (names : list string) (m : M A) (f : A -> M B) :
  only names (trace m) -> (forall a, only names (trace (f a))) ->
  only names (trace (bind m f)).
Proof.
  intros H1 H2. rewrite trace_bind. apply only_app; [assumption|].
  destruct (result m); auto using only_nil.
Qed.

Lemma only_when (names : list string) (b : bool) (body : M unit) :
  only names (trace body) -> only names (trace (when b body)).
Proof. destruct b; simpl; auto using only_nil. Qed.

Lemma only_at2 (names : list string) (ms : list (list string)) (i j : nat) :
  only names (trace (at2 ms i j)).
Proof.
  unfold at2. destruct (nth_error ms i) as [m|]; [|apply only_nil].
  destruct (nth_error m j); apply only_nil.
Qed.

Lemma only_float (names : list string) (s : string) :
  only names (trace (float s)).
Proof. unfold float. destruct (ParseFloat s) as [[f|e]|]; apply only_nil. Qed.

Lemma only_metric (names : list string) (d : Desc) (t : ValueType)
      (v : float64) (labels : list string) :
  In (fqName d) names ->
  only names (trace (m <- MustNewConstMetric d t v labels ;; send m)).
Proof.
  intros H. unfold MustNewConstMetric, NewConstMetric.
  destruct (Nat.eqb _ _); [|apply only_nil].
  intros x [<-|[]]. exact H.
Qed.

Lemma only_gauge_of (names : list string) (d : Desc) (s : string) :
  In (fqName d) names -> only names (trace (gauge_of d s)).
Proof.
  intros H. apply only_bind; [apply only_float|].
  intros f. now apply only_metric.
Qed.

Lemma only_send_gauge (names : list string) (d : Desc)
      (ms : list (list string)) (i j : nat) :
  In (fqName d) names -> only names (trace (send_gauge d ms i j)).
Proof.
  intros H. apply only_bind; [apply only_at2|].
  intros s. now apply only_gauge_of.
Qed.

End Steps.

Ltac solve_only :=
  repeat first
         [ apply only_nil
         | apply only_when
         | apply only_send_gauge; simpl; tauto
         | apply only_metric; simpl; tauto
         | apply only_at2
         | apply only_bind; [|intros ?] ].

Section StepNames.
Variable cl : Client.

Lemma ping_step_only (pong : string) :
  only ["clamav_up"] (trace (ping_step (New cl) pong)).
Proof. unfold ping_step. solve_only. Qed.

Lemma threads_step_only (stats : string) :
  only ["clamav_threads_live"; "clamav_threads_idle"; "clamav_threads_max"]
       (trace (threads_step (New cl) stats)).
Proof. unfold threads_step. solve_only. Qed.

Lemma queue_step_only (stats : string) :
  only ["clamav_queue"] (trace (queue_step (New cl) stats)).
Proof. unfold queue_step. solve_only. Qed.

Lemma memstats_step_only (stats : string) :
  only ["clamav_mem_heap"; "clamav_mem_mmap"; "clamav_mem_used";
        "clamav_pools_used_mb"; "clamav_pools_total_mb"]
       (trace (memstats_step (New cl) stats)).
Proof. unfold memstats_step. solve_only. Qed.

Lemma version_step_only (version : string) :
  only ["clamav_build_info"] (trace (version_step (New cl) version)).
Proof. unfold version_step. solve_only. Qed.

Lemma ping_step_returns (pong : string) :
  result (ping_step (New cl) pong) = Ret tt.
Proof. unfold ping_step. now destruct (String.eqb pong PONG). Qed.

End StepNames.

(** ** A pass as the sequence of its steps *)

Section Pass.
Variable cl : Client.

Let c := New cl.
Let pong := Dial cl PING.
Let stats := Dial cl STATS.
Let version := Dial cl VERSION.

Lemma bind_assoc {A B C} (m : M A) (f : A -> M B) (g : B -> M C) :
  bind (bind m f) g = bind m (fun a => bind (f a) g).
Proof.
  destruct m as [t [a|e| |]]; simpl; try reflexivity.
  destruct (f a) as [t' [b|e| |]]; simpl; try reflexivity.
  destruct (g b) as [t'' o]. now rewrite app_assoc.
Qed.

Lemma Collect_parts :
  Collect c =
  (_ <- dial c PING ;;
   ping_step c pong ;;
   _ <- dial c STATS ;;
   Debug ("Stats: " ++ stats) ;;
   stats_steps c stats ;;
   _ <- dial c VERSION ;;
   version_step c version).
Proof.
  rewrite Collect_steps. unfold stats_steps.
  rewrite !bind_assoc. reflexivity.
Qed.

Lemma Collect_trace :
  trace (Collect c)
  = ([EvDial PING] ++ trace (ping_step c pong)
     ++ [EvDial STATS; EvDebug ("Stats: " ++ stats)]
     ++ trace (stats_steps c stats)
     ++ if returns (stats_steps c stats)
        then EvDial VERSION :: trace (version_step c version)
        else [])%list.
Proof.
  rewrite Collect_parts.
  rewrite trace_bind. cbn [dial trace result fst snd]. f_equal.
  rewrite trace_bind. unfold c at 2. rewrite ping_step_returns. f_equal.
  rewrite trace_bind. cbn [dial trace result fst snd].
  rewrite trace_bind. cbn [Debug trace result fst snd].
  cbn [app]. f_equal. f_equal.
  rewrite trace_bind. f_equal. unfold returns.
  destruct (result (stats_steps c stats)); try reflexivity.
  rewrite trace_bind. reflexivity.
Qed.

Lemma Collect_result :
  result (Collect c)
  = match result (stats_steps c stats) with
    | Ret _ => result (version_step c version)
    | o => o
    end.
Proof.
  rewrite Collect_parts.
  rewrite result_bind. cbn [dial trace result fst snd].
  rewrite result_bind. unfold c at 1. rewrite ping_step_returns.
  rewrite result_bind. cbn [dial trace result fst snd].
  rewrite result_bind. cbn [Debug trace result fst snd].
  rewrite result_bind.
  destruct (result (stats_steps c stats)) as [[]|e| |]; try reflexivity.
  rewrite result_bind. reflexivity.
Qed.

Lemma stats_steps_trace :
  trace (stats_steps c stats)
  = (trace (threads_step c stats)
     ++ if returns (threads_step c stats)
        then trace (queue_step c stats)
             ++ (if returns (queue_step c stats)
                 then trace (memstats_step c stats)
                 else [])
        else [])%list.
Proof.
  unfold stats_steps, returns.
  rewrite trace_bind. f_equal.
  destruct (result (threads_step c stats)); try reflexivity.
  rewrite trace_bind. f_equal.
  destruct (result (queue_step c stats)); reflexivity.
Qed.

Lemma stats_steps_result :
  result (stats_steps c stats)
  = match result (threads_step c stats) with
    | Ret _ =>
        match result (queue_step c stats) with
        | Ret _ => result (memstats_step c stats)
        | o => o
        end
    | o => o
    end.
Proof.
  unfold stats_steps. rewrite result_bind.
  destruct (result (threads_step c stats)) as [[]|e| |]; try reflexivity.
  rewrite result_bind.
  destruct (result (queue_step c stats)) as [[]|e| |]; reflexivity.
Qed.

Lemma observed_Collect (name : string) :
  observed name (trace (Collect c))
  = (observed name (trace (ping_step c pong))
     ++ observed name (trace (threads_step c stats))
     ++ if returns (threads_step c stats)
        then observed name (trace (queue_step c stats))
             ++ (if returns (queue_step c stats)
                 then observed name (trace (memstats_step c stats))
                      ++ (if returns (memstats_step c stats)
                          then observed name (trace (version_step c version))
                          else [])
                 else [])
        else [])%list.
Proof.
  rewrite Collect_trace.
  unfold returns at 1. rewrite stats_steps_result, stats_steps_trace.
  change (observed name ([EvDial PING] ++ ?t)) with (observed name t).
  rewrite observed_app. f_equal.
  change (observed name ([EvDial STATS; EvDebug ?l] ++ ?t)) with (observed name t).
  rewrite !observed_app. rewrite <- app_assoc. f_equal.
  unfold returns.
  destruct (result (threads_step c stats)) as [[]|e| |]; try reflexivity.
  rewrite observed_app, <- app_assoc. f_equal.
  destruct (result (queue_step c stats)) as [[]|e| |]; try reflexivity.
  f_equal.
  destruct (result (memstats_step c stats)); reflexivity.
Qed.

Ltac other_name :=
  simpl; intuition discriminate.

Lemma observed_up :
  observed "clamav_up" (trace (Collect c))
  = observed "clamav_up" (trace (ping_step c pong)).
Proof.
  rewrite observed_Collect.
  rewrite (observed_only _ _ _ (threads_step_only cl stats)) by other_name.
  rewrite (observed_only _ _ _ (queue_step_only cl stats)) by other_name.
  rewrite (observed_only _ _ _ (memstats_step_only cl stats)) by other_name.
  rewrite (observed_only _ _ _ (version_step_only cl version)) by other_name.
  repeat match goal with |- context [if ?b then _ else _] => destruct b end;
    now rewrite ?app_nil_r.
Qed.

Lemma observed_threads (name : string) :
  In name ["clamav_threads_live"; "clamav_threads_idle"; "clamav_threads_max"] ->
  observed name (trace (Collect c))
  = observed name (trace (threads_step c stats)).
Proof.
  intros Hn. rewrite observed_Collect. subst c.
  rewrite (observed_only name _ _ (ping_step_only cl pong))
    by (simpl in Hn; simpl; intuition (subst; discriminate)).
  rewrite (observed_only name _ _ (queue_step_only cl stats))
    by (simpl in Hn; simpl; intuition (subst; discriminate)).
  rewrite (observed_only name _ _ (memstats_step_only cl stats))
    by (simpl in Hn; simpl; intuition (subst; discriminate)).
  rewrite (observed_only name _ _ (version_step_only cl version))
    by (simpl in Hn; simpl; intuition (subst; discriminate)).
  repeat match goal with |- context [if ?b then _ else _] => destruct b end;
    now rewrite ?app_nil_r.
Qed.

Lemma observed_queue :
  observed "clamav_queue" (trace (Collect c))
  = if returns (threads_step c stats)
    then observed "clamav_queue" (trace (queue_step c stats))
    else [].
Proof.
  rewrite observed_Collect.
  rewrite (observed_only _ _ _ (ping_step_only cl pong)) by other_name.
  rewrite (observed_only _ _ _ (threads_step_only cl stats)) by other_name.
  rewrite (observed_only _ _ _ (memstats_step_only cl stats)) by other_name.
  rewrite (observed_only _ _ _ (version_step_only cl version)) by other_name.
  repeat match goal with |- context [if ?b then _ else _] => destruct b end;
    now rewrite ?app_nil_r.
Qed.

Lemma observed_memstats (name : string) :
  In name ["clamav_mem_heap"; "clamav_mem_mmap"; "clamav_mem_used";
           "clamav_pools_used_mb"; "clamav_pools_total_mb"] ->
  observed name (trace (Collect c))
  = if returns (threads_step c stats) && returns (queue_step c stats)
    then observed name (trace (memstats_step c stats))
    else [].
Proof.
  intros Hn. rewrite observed_Collect. subst c.
  rewrite (observed_only name _ _ (ping_step_only cl pong))
    by (simpl in Hn; simpl; intuition (subst; discriminate)).
  rewrite (observed_only name _ _ (threads_step_only cl stats))
    by (simpl in Hn; simpl; intuition (subst; discriminate)).
  rewrite (observed_only name _ _ (queue_step_only cl stats))
    by (simpl in Hn; simpl; intuition (subst; discriminate)).
  rewrite (observed_only name _ _ (version_step_only cl version))
    by (simpl in Hn; simpl; intuition (subst; discriminate)).
  destruct (returns (threads_step _ _)); [|reflexivity].
  destruct (returns (queue_step _ _)); [|reflexivity].
  destruct (returns (memstats_step _ _)); simpl; now rewrite ?app_nil_r.
Qed.

Lemma observed_build_info :
  observed "clamav_build_info" (trace (Collect c))
  = if returns (stats_steps c stats)
    then observed "clamav_build_info" (trace (version_step c version))
    else [].
Proof.
  rewrite observed_Collect. unfold returns at 4. rewrite stats_steps_result.
  rewrite (observed_only _ _ _ (ping_step_only cl pong)) by other_name.
  rewrite (observed_only _ _ _ (threads_step_only cl stats)) by other_name.
  rewrite (observed_only _ _ _ (queue_step_only cl stats)) by other_name.
  rewrite (observed_only _ _ _ (memstats_step_only cl stats)) by other_name.
  unfold returns.
  destruct (result (threads_step c stats)) as [[]|e| |]; try reflexivity;
    destruct (result (queue_step c stats)) as [[]|e'| |]; try reflexivity;
    destruct (result (memstats_step c stats)) as [[]|e''| |]; reflexivity.
Qed.

End Pass.

(** ** What [FindAllStringSubmatch] finds in a reply *)

Section Found.

Lemma threads_found (stats pre a b c post : string) :
  first_threads_at stats pre a b c post ->
  exists later,
    FindAllStringSubmatch threads_regex stats
    = [threads_line a b c; a; b; c] :: later.
Proof.
  intros [(Ha & Hb & Hc & E) Hmin].
  apply (FindAll_first threads_regex stats pre
           (threads_line a b c,
            [Some (threads_line a b c); Some a; Some b; Some c], post)).
  apply search_first_occurrence; [exact E | now apply match_here_threads|].
  intros pre' c' caps' post' Ho E'.
  apply threads_occurrence in Ho.
  destruct Ho as (a' & b' & d' & Ha' & Hb' & Hd' & -> & _).
  apply (Hmin pre' a' b' d' post'). repeat split; assumption.
Qed.

Lemma threads_not_found (stats : string) :
  (forall pre a b c post, ~ threads_at stats pre a b c post) ->
  FindAllStringSubmatch threads_regex stats = [].
Proof.
  intros H. apply FindAll_none, search_no_occurrence.
  intros pre c caps post Ho E. apply threads_occurrence in Ho.
  destruct Ho as (a & b & d & Ha & Hb & Hd & -> & _).
  apply (H pre a b d post). repeat split; assumption.
Qed.

Lemma threads_found_inv (stats : string) (m : list string)
      (later : list (list string)) :
  FindAllStringSubmatch threads_regex stats = m :: later ->
  exists pre a b c post,
    threads_at stats pre a b c post /\ m = [threads_line a b c; a; b; c].
Proof.
  intros H. apply FindAll_occurrence in H.
  destruct H as (pre & c & caps & post & Ho & E & ->).
  apply threads_occurrence in Ho.
  destruct Ho as (a & b & d & Ha & Hb & Hd & -> & ->).
  exists pre, a, b, d, post. repeat split; assumption.
Qed.

Lemma queue_found (stats pre n post : string) :
  first_queue_at stats pre n post ->
  exists later,
    FindAllStringSubmatch queue_regex stats = [queue_line n; n] :: later.
Proof.
  intros [(Hn & E) Hmin].
  apply (FindAll_first queue_regex stats pre
           (queue_line n, [Some (queue_line n); Some n], post)).
  apply search_first_occurrence; [exact E | now apply match_here_queue|].
  intros pre' c' caps' post' Ho E'.
  apply queue_occurrence in Ho. destruct Ho as (n' & Hn' & -> & _).
  apply (Hmin pre' n' post'). split; assumption.
Qed.

Lemma queue_not_found (stats : string) :
  (forall pre n post, ~ queue_at stats pre n post) ->
  FindAllStringSubmatch queue_regex stats = [].
Proof.
  intros H. apply FindAll_none, search_no_occurrence.
  intros pre c caps post Ho E. apply queue_occurrence in Ho.
  destruct Ho as (n & Hn & -> & _).
  apply (H pre n post). split; assumption.
Qed.

Lemma queue_found_inv (stats : string) (m : list string)
      (later : list (list string)) :
  FindAllStringSubmatch queue_regex stats = m :: later ->
  exists pre n post, queue_at stats pre n post /\ m = [queue_line n; n].
Proof.
  intros H. apply FindAll_occurrence in H.
  destruct H as (pre & c & caps & post & Ho & E & ->).
  apply queue_occurrence in Ho. destruct Ho as (n & Hn & -> & ->).
  exists pre, n, post. repeat split; assumption.
Qed.

Lemma memstats_found (stats pre h m u f r p pu pt post : string) :
  first_memstats_at stats pre h m u f r p pu pt post ->
  exists later,
    FindAllStringSubmatch memstats_regex stats
    = [memstats_line h m u f r p pu pt; h; m; u; f; r; p; pu; pt] :: later.
Proof.
  intros [(Hh & Hm & Hu & Hf & Hr & Hp & Hpu & Hpt & E) Hmin].
  apply (FindAll_first memstats_regex stats pre
           (memstats_line h m u f r p pu pt,
            [Some (memstats_line h m u f r p pu pt); Some h; Some m; Some u;
             Some f; Some r; Some p; Some pu; Some pt], post)).
  apply search_first_occurrence; [exact E | now apply match_here_memstats|].
  intros pre' c' caps' post' Ho E'.
  apply memstats_occurrence in Ho.
  destruct Ho as (h' & m' & u' & f' & r' & p' & pu' & pt'
                  & ? & ? & ? & ? & ? & ? & ? & ? & -> & _).
  apply (Hmin pre' h' m' u' f' r' p' pu' pt' post').
  repeat split; assumption.
Qed.

Lemma memstats_not_found (stats : string) :
  (forall pre h m u f r p pu pt post,
      ~ memstats_at stats pre h m u f r p pu pt post) ->
  FindAllStringSubmatch memstats_regex stats = [].
Proof.
  intros H. apply FindAll_none, search_no_occurrence.
  intros pre c caps post Ho E. apply memstats_occurrence in Ho.
  destruct Ho as (h & m & u & f & r & p & pu & pt
                  & ? & ? & ? & ? & ? & ? & ? & ? & -> & _).
  apply (H pre h m u f r p pu pt post). repeat split; assumption.
Qed.

Lemma memstats_found_inv (stats : string) (x : list string)
      (later : list (list string)) :
  FindAllStringSubmatch memstats_regex stats = x :: later ->
  exists pre h m u f r p pu pt post,
    memstats_at stats pre h m u f r p pu pt post /\
    x = [memstats_line h m u f r p pu pt; h; m; u; f; r; p; pu; pt].
Proof.
  intros H. apply FindAll_occurrence in H.
  destruct H as (pre & c & caps & post & Ho & E & ->).
  apply memstats_occurrence in Ho.
  destruct Ho as (h & m & u & f & r & p & pu & pt
                  & ? & ? & ? & ? & ? & ? & ? & ? & -> & ->).
  exists pre, h, m, u, f, r, p, pu, pt, post. repeat split; assumption.
Qed.

Lemma version_found (version pre : string) (n : nat) (w : ascii)
      (e d post : string) :
  first_version_at version pre n w e d post ->
  exists later,
    FindAllStringSubmatch version_regex version
    = [version_text n w e d; version_text n w e d; "ClamAV"; e; d] :: later.
Proof.
  intros [(Hw & He & Hd & E) [Hp Hmin]].
  apply (FindAll_first version_regex version pre
           (version_text n w e d,
            [Some (version_text n w e d); Some (version_text n w e d);
             Some "ClamAV"; Some e; Some d], post)).
  apply search_first_occurrence; [exact E | now apply match_here_version|].
  intros pre' c' caps' post' Ho E'.
  apply version_occurrence in Ho.
  destruct Ho as (n' & w' & e' & d' & Hw' & He' & Hd' & -> & _).
  apply (Hmin pre' n' w' e' d' post'). repeat split; assumption.
Qed.

Lemma version_not_found (version : string) :
  (forall pre n w e d post, ~ version_at version pre n w e d post) ->
  FindAllStringSubmatch version_regex version = [].
Proof.
  intros H. apply FindAll_none, search_no_occurrence.
  intros pre c caps post Ho E. apply version_occurrence in Ho.
  destruct Ho as (n & w & e & d & Hw & He & Hd & -> & _).
  apply (H pre n w e d post). repeat split; assumption.
Qed.

Lemma version_found_inv (version : string) (x : list string)
      (later : list (list string)) :
  FindAllStringSubmatch version_regex version = x :: later ->
  exists pre n w e d post,
    version_at version pre n w e d post /\
    x = [version_text n w e d; version_text n w e d; "ClamAV"; e; d].
Proof.
  intros H. apply FindAll_occurrence in H.
  destruct H as (pre & c & caps & post & Ho & E & ->).
  apply version_occurrence in Ho.
  destruct Ho as (n & w & e & d & Hw & He & Hd & -> & ->).
  exists pre, n, w, e, d, post. repeat split; assumption.
Qed.

End Found.

(** ** What the steps do with the first match *)

Section StepEvaluation.

Lemma bind_ret_l {A B} (a : A) (f : A -> M B) : bind (ret a) f = f a.
Proof. unfold bind, ret. now destruct (f a). Qed.

Lemma at2_hit (m : list string) (later : list (list string)) (j : nat)
      (s : string) :
  nth_error m j = Some s -> at2 (m :: later) 0 j = ret s.
Proof. intros H. unfold at2. simpl. now rewrite H. Qed.

Lemma send_gauge_hit (d : Desc) (m : list string)
      (later : list (list string)) (j : nat) (s : string) :
  nth_error m j = Some s -> send_gauge d (m :: later) 0 j = gauge_of d s.
Proof.
  intros H. unfold send_gauge. rewrite (at2_hit _ _ _ _ H).
  now rewrite bind_ret_l.
Qed.

Lemma gauge_of_eval (d : Desc) (s : string) :
  variableLabels d = [] ->
  gauge_of d s
  = match ParseFloat s with
    | Some (inl v) => ([gauge d v], Ret tt)
    | Some (inr e) => ([], Fatal e)
    | None => ([], NotCovered)
    end.
Proof.
  intros Hd. unfold gauge_of, float, MustNewConstMetric, NewConstMetric.
  rewrite Hd. now destruct (ParseFloat s) as [[v|e]|].
Qed.

Lemma gauge_of_converts (d : Desc) (s : string) (v : float64) :
  variableLabels d = [] -> ParseFloat s = Some (inl v) ->
  gauge_of d s = ([gauge d v], Ret tt).
Proof. intros Hd Hs. now rewrite gauge_of_eval, Hs. Qed.

Variable cl : Client.
Let c := New cl.

Lemma threads_step_none (stats : string) :
  FindAllStringSubmatch threads_regex stats = [] ->
  threads_step c stats = ret tt.
Proof. intros H. unfold threads_step. now rewrite H. Qed.

Lemma threads_step_first (stats w a b d : string) (later : list (list string)) :
  FindAllStringSubmatch threads_regex stats = [w; a; b; d] :: later ->
  threads_step c stats
  = (gauge_of (threadsLive c) a ;;
     gauge_of (threadsIdle c) b ;;
     gauge_of (threadsMax c) d).
Proof.
  intros H. unfold threads_step. rewrite H. cbn [List.length Nat.ltb Nat.leb when].
  rewrite (send_gauge_hit _ [w; a; b; d] _ 1 a eq_refl).
  rewrite (send_gauge_hit _ [w; a; b; d] _ 2 b eq_refl).
  now rewrite (send_gauge_hit _ [w; a; b; d] _ 3 d eq_refl).
Qed.

Lemma queue_step_none (stats : string) :
  FindAllStringSubmatch queue_regex stats = [] ->
  queue_step c stats = ret tt.
Proof. intros H. unfold queue_step. now rewrite H. Qed.

Lemma queue_step_first (stats w n : string) (later : list (list string)) :
  FindAllStringSubmatch queue_regex stats = [w; n] :: later ->
  queue_step c stats = gauge_of (queue c) n.
Proof.
  intros H. unfold queue_step. rewrite H. cbn [List.length Nat.ltb Nat.leb when].
  now rewrite (send_gauge_hit _ [w; n] _ 1 n eq_refl).
Qed.

Lemma memstats_step_none (stats : string) :
  FindAllStringSubmatch memstats_regex stats = [] ->
  memstats_step c stats = ret tt.
Proof. intros H. unfold memstats_step. now rewrite H. Qed.

Lemma memstats_step_first (stats w h m u f r p pu pt : string)
      (later : list (list string)) :
  FindAllStringSubmatch memstats_regex stats
  = [w; h; m; u; f; r; p; pu; pt] :: later ->
  memstats_step c stats
  = (when (negb (String.eqb h "N/A")) (gauge_of (memHeap c) h) ;;
     when (negb (String.eqb m "N/A")) (gauge_of (memMmap c) m) ;;
     when (negb (String.eqb u "N/A")) (gauge_of (memUsed c) u) ;;
     gauge_of (poolsUsed c) pu ;;
     gauge_of (poolsTotal c) pt).
Proof.
  intros H. unfold memstats_step. rewrite H. cbn [List.length Nat.ltb Nat.leb when].
  rewrite (send_gauge_hit _ [w; h; m; u; f; r; p; pu; pt] _ 1 h eq_refl).
  rewrite (send_gauge_hit _ [w; h; m; u; f; r; p; pu; pt] _ 2 m eq_refl).
  rewrite (send_gauge_hit _ [w; h; m; u; f; r; p; pu; pt] _ 3 u eq_refl).
  rewrite (send_gauge_hit _ [w; h; m; u; f; r; p; pu; pt] _ 7 pu eq_refl).
  rewrite (send_gauge_hit _ [w; h; m; u; f; r; p; pu; pt] _ 8 pt eq_refl).
  rewrite (at2_hit [w; h; m; u; f; r; p; pu; pt] _ 1 h eq_refl), bind_ret_l.
  rewrite (at2_hit [w; h; m; u; f; r; p; pu; pt] _ 2 m eq_refl), bind_ret_l.
  rewrite (at2_hit [w; h; m; u; f; r; p; pu; pt] _ 3 u eq_refl), bind_ret_l.
  reflexivity.
Qed.

Lemma version_step_none (version : string) :
  FindAllStringSubmatch version_regex version = [] ->
  version_step c version = ret tt.
Proof. intros H. unfold version_step. now rewrite H. Qed.

Lemma version_step_first (version w w1 w2 e d : string)
      (later : list (list string)) :
  FindAllStringSubmatch version_regex version = [w; w1; w2; e; d] :: later ->
  version_step c version
  = ([EvSend {| desc := buildInfo c; valType := GaugeValue;
                value := inject_Z 1; labelValues := [e; d] |}], Ret tt).
Proof. intros H. unfold version_step. now rewrite H. Qed.

End StepEvaluation.

(** * The claims *)

(** C3.  An "up" observation with value 1 is sent exactly when the reply
    to the liveness probe is the five bytes P, O, N, G, line feed; on every
    other reply nothing is sent on that metric, so the value 0 never is. *)
Theorem C3_up_iff_pong (cl : Client) :
  length PONG = 5%nat /\
  (Dial cl PING = PONG ->
   observed "clamav_up" (trace (Collect (New cl))) = [(inject_Z 1, [])]) /\
  (Dial cl PING <> PONG ->
   observed "clamav_up" (trace (Collect (New cl))) = []).
Proof.
  split; [reflexivity|].
  rewrite observed_up. unfold ping_step.
  split; intros H.
  - rewrite H. reflexivity.
  - apply String.eqb_neq in H. rewrite H. reflexivity.
Qed.

Lemma C3_up_iff_pong_witness :
  Dial (replies PONG "" "") PING = PONG /\
  observed "clamav_up" (trace (Collect (New (replies PONG "" ""))))
  = [(inject_Z 1, [])] /\
  Dial (replies "PONG" "" "") PING <> PONG /\
  observed "clamav_up" (trace (Collect (New (replies "PONG" "" "")))) = [].
Proof.
  split; [reflexivity|]. split.
  - apply (C3_up_iff_pong (replies PONG "" "")). reflexivity.
  - split; [discriminate|].
    apply (C3_up_iff_pong (replies "PONG" "" "")). discriminate.
Defined.

(** ** Leftmost occurrences, decided by running the search *)

Section Leftmost.

Lemma append_split_lt (a b c d : string) :
  a ++ b = c ++ d -> (length c < length a)%nat ->
  exists p, p <> "" /\ a = c ++ p /\ d = p ++ b.
Proof.
  revert a. induction c as [|x c IH]; intros a E Hl.
  - exists a. simpl in *. repeat split; [|now symmetry].
    destruct a; [inversion Hl | discriminate].
  - destruct a as [|y a]; [inversion Hl|].
    simpl in E. injection E as -> E.
    destruct (IH a E ltac:(simpl in Hl; lia)) as (p & Hp & -> & ->).
    now exists p.
Qed.

Lemma search_leftmost (re : Compiled) (s skipped : string) (m : Res) :
  search re s = Some (skipped, m) ->
  forall pre c caps post,
    Occurrence re c caps -> s = pre ++ c ++ post ->
    (length skipped <= length pre)%nat.
Proof.
  intros H pre c caps post Ho E.
  apply search_inv in H. destruct H as (s' & Es & _ & Hno).
  destruct (Nat.le_gt_cases (length skipped) (length pre)) as [|Hlt];
    [assumption|].
  exfalso. rewrite Es in E.
  destruct (append_split_lt _ _ _ _ E Hlt) as (p & Hp & E1 & E2).
  apply (match_here_none re (p ++ s') (Hno pre p E1 Hp) c caps post Ho).
  now symmetry.
Qed.

Lemma first_threads_by_search (stats pre a b c post : string) (m : Res) :
  threads_at stats pre a b c post ->
  search threads_regex stats = Some (pre, m) ->
  first_threads_at stats pre a b c post.
Proof.
  intros H Hs. split; [exact H|].
  intros pre' a' b' c' post' (Ha & Hb & Hc & E).
  apply (search_leftmost _ _ _ _ Hs pre' (threads_line a' b' c')
           [Some (threads_line a' b' c'); Some a'; Some b'; Some c'] post');
    [|exact E].
  apply threads_occurrence. exists a', b', c'. repeat split; assumption.
Qed.

Lemma first_queue_by_search (stats pre n post : string) (m : Res) :
  queue_at stats pre n post ->
  search queue_regex stats = Some (pre, m) ->
  first_queue_at stats pre n post.
Proof.
  intros H Hs. split; [exact H|].
  intros pre' n' post' (Hn & E).
  apply (search_leftmost _ _ _ _ Hs pre' (queue_line n')
           [Some (queue_line n'); Some n'] post'); [|exact E].
  apply queue_occurrence. exists n'. repeat split; assumption.
Qed.

Lemma first_memstats_by_search (stats pre h m u f r p pu pt post : string)
      (x : Res) :
  memstats_at stats pre h m u f r p pu pt post ->
  search memstats_regex stats = Some (pre, x) ->
  first_memstats_at stats pre h m u f r p pu pt post.
Proof.
  intros H Hs. split; [exact H|].
  intros pre' h' m' u' f' r' p' pu' pt' post'
         (? & ? & ? & ? & ? & ? & ? & ? & E).
  apply (search_leftmost _ _ _ _ Hs pre' (memstats_line h' m' u' f' r' p' pu' pt')
           [Some (memstats_line h' m' u' f' r' p' pu' pt'); Some h'; Some m';
            Some u'; Some f'; Some r'; Some p'; Some pu'; Some pt'] post');
    [|exact E].
  apply memstats_occurrence. exists h', m', u', f', r', p', pu', pt'.
  repeat split; assumption.
Qed.

Lemma first_version_by_search (version pre : string) (n : nat) (w : ascii)
      (e d post : string) (x : Res) :
  version_at version pre n w e d post -> ends_run post = true ->
  search version_regex version = Some (pre, x) ->
  first_version_at version pre n w e d post.
Proof.
  intros H Hp Hs. split; [exact H|]. split; [exact Hp|].
  intros pre' n' w' e' d' post' (Hw & He & Hd & E).
  apply (search_leftmost _ _ _ _ Hs pre' (version_text n' w' e' d')
           [Some (version_text n' w' e' d'); Some (version_text n' w' e' d');
            Some "ClamAV"; Some e'; Some d'] post'); [|exact E].
  apply version_occurrence. exists n', w', e', d'. repeat split; assumption.
Qed.

Lemma search_none_no_occurrence (re : Compiled) (s : string) :
  search re s = None ->
  forall pre c caps post, Occurrence re c caps -> s <> pre ++ c ++ post.
Proof.
  intros H pre c caps post Ho E.
  apply (match_here_none re (c ++ post) (search_none_inv re s H pre _ E)
                         c caps post Ho eq_refl).
Qed.

Lemma no_threads_by_search (stats : string) :
  search threads_regex stats = None ->
  forall pre a b c post, ~ threads_at stats pre a b c post.
Proof.
  intros H pre a b c post (Ha & Hb & Hc & E).
  apply (search_none_no_occurrence _ _ H pre (threads_line a b c)
           [Some (threads_line a b c); Some a; Some b; Some c] post); [|exact E].
  apply threads_occurrence. exists a, b, c. repeat split; assumption.
Qed.

Lemma no_memstats_by_search (stats : string) :
  search memstats_regex stats = None ->
  forall pre h m u f r p pu pt post,
    ~ memstats_at stats pre h m u f r p pu pt post.
Proof.
  intros H pre h m u f r p pu pt post (? & ? & ? & ? & ? & ? & ? & ? & E).
  apply (search_none_no_occurrence _ _ H pre (memstats_line h m u f r p pu pt)
           [Some (memstats_line h m u f r p pu pt); Some h; Some m; Some u;
            Some f; Some r; Some p; Some pu; Some pt] post); [|exact E].
  apply memstats_occurrence. exists h, m, u, f, r, p, pu, pt.
  repeat split; assumption.
Qed.

Lemma no_version_by_search (version : string) :
  search version_regex version = None ->
  forall pre n w e d post, ~ version_at version pre n w e d post.
Proof.
  intros H pre n w e d post (Hw & He & Hd & E).
  apply (search_none_no_occurrence _ _ H pre (version_text n w e d)
           [Some (version_text n w e d); Some (version_text n w e d);
            Some "ClamAV"; Some e; Some d] post); [|exact E].
  apply version_occurrence. exists n, w, e, d. repeat split; assumption.
Qed.

End Leftmost.

(** C4, as the code has it.  When the leftmost THREADS line of the STATS
    reply is "THREADS: live a  idle b max c " -- two blanks before idle, and
    a blank behind c, which the pattern asks for -- and a, b, c are below
    2^53, the three thread gauges are sent with exactly a, b and c.  When the
    reply has no such line, nothing is sent on the three metrics. *)
Theorem C4_threads_fields (cl : Client) :
  (forall pre a b c post,
      first_threads_at (Dial cl STATS) pre a b c post ->
      below_2_53 a -> below_2_53 b -> below_2_53 c ->
      observed "clamav_threads_live" (trace (Collect (New cl)))
      = [(inject_Z (digits_value a), [])] /\
      observed "clamav_threads_idle" (trace (Collect (New cl)))
      = [(inject_Z (digits_value b), [])] /\
      observed "clamav_threads_max" (trace (Collect (New cl)))
      = [(inject_Z (digits_value c), [])]) /\
  ((forall pre a b c post, ~ threads_at (Dial cl STATS) pre a b c post) ->
   observed "clamav_threads_live" (trace (Collect (New cl))) = [] /\
   observed "clamav_threads_idle" (trace (Collect (New cl))) = [] /\
   observed "clamav_threads_max" (trace (Collect (New cl))) = []).
Proof.
  split.
  - intros pre a b c post Hfirst Ha Hb Hc.
    destruct (threads_found _ _ _ _ _ _ Hfirst) as [later Hf].
    destruct Hfirst as [(Na & Nb & Nc & _) _].
    rewrite !observed_threads by (simpl; tauto).
    rewrite (threads_step_first cl _ _ _ _ _ _ Hf).
    rewrite (gauge_of_converts (threadsLive (New cl)) a _ eq_refl
               (ParseFloat_number a Na Ha)).
    rewrite (gauge_of_converts (threadsIdle (New cl)) b _ eq_refl
               (ParseFloat_number b Nb Hb)).
    rewrite (gauge_of_converts (threadsMax (New cl)) c _ eq_refl
               (ParseFloat_number c Nc Hc)).
    repeat split.
  - intros Hnone. apply threads_not_found in Hnone.
    rewrite !observed_threads by (simpl; tauto).
    rewrite (threads_step_none cl _ Hnone). repeat split.
Qed.

Lemma C4_threads_fields_witness :
  let post := "idle-timeout 30" ++ LF ++ example_queue ++ example_memstats in
  let t := trace (Collect (New (replies PONG example_stats ""))) in
  first_threads_at example_stats example_head "10" "2" "10" post /\
  below_2_53 "10" /\ below_2_53 "2" /\
  observed "clamav_threads_live" t = [(inject_Z 10, [])] /\
  observed "clamav_threads_idle" t = [(inject_Z 2, [])] /\
  observed "clamav_threads_max" t = [(inject_Z 10, [])].
Proof.
  intros post t.
  assert (Hfirst : first_threads_at example_stats example_head "10" "2" "10" post).
  { eapply first_threads_by_search.
    - repeat split; reflexivity.
    - vm_compute. reflexivity. }
  assert (H10 : below_2_53 "10") by (vm_compute; reflexivity).
  assert (H2 : below_2_53 "2") by (vm_compute; reflexivity).
  split; [exact Hfirst|]. split; [exact H10|]. split; [exact H2|].
  exact (proj1 (C4_threads_fields (replies PONG example_stats ""))
               example_head "10" "2" "10" post Hfirst H10 H2 H10).
Defined.

(** C4 as stated does not hold: a THREADS line that ends with the third
    number, as the claim writes it, is not matched. *)
Lemma C4_counterexample :
  let stats := "THREADS: live 1  idle 2 max 3" ++ LF in
  stats = "" ++ ("THREADS: live " ++ "1" ++ "  idle " ++ "2" ++ " max " ++ "3") ++ LF /\
  observed "clamav_threads_live" (trace (Collect (New (replies PONG stats ""))))
  = [] /\
  observed "clamav_threads_idle" (trace (Collect (New (replies PONG stats ""))))
  = [] /\
  observed "clamav_threads_max" (trace (Collect (New (replies PONG stats ""))))
  = [].
Proof. vm_compute. repeat split. Qed.

(** ** Sequences of gauges *)

Section Gauges.

Lemma bind_ret_r (m : M unit) : (m ;; ret tt) = m.
Proof.
  destruct m as [t [[]|e| |]]; simpl; try reflexivity.
  now rewrite app_nil_r.
Qed.

Lemma run_gauges_observed (name : string) (l : list (Desc * string)) :
  unlabelled l ->
  forall v labels,
    In (v, labels) (observed name (trace (run_gauges l))) ->
    exists d s,
      In (d, s) l /\ fqName d = name /\ ParseFloat s = Some (inl v) /\
      labels = [].
Proof.
  intros Hl. induction Hl as [|[d s] l Hd Hl IH]; intros v labels H.
  - contradiction.
  - cbn [run_gauges] in H. simpl in Hd.
    rewrite trace_bind, observed_app, (gauge_of_eval d s Hd) in H.
    destruct (ParseFloat s) as [[f|e]|] eqn:Es; cbn [trace result fst snd] in H.
    + apply in_app_or in H. destruct H as [H|H].
      * unfold observed, gauge in H. simpl in H.
        destruct (String.eqb_spec (fqName d) name) as [En|]; [|contradiction].
        destruct H as [H|[]]. injection H as <- <-.
        exists d, s. repeat split; auto. now left.
      * destruct (IH v labels H) as (d' & s' & Hin & Hrest).
        exists d', s'. split; [now right | exact Hrest].
    + contradiction.
    + contradiction.
Qed.

Lemma run_gauges_returns (l : list (Desc * string)) :
  unlabelled l -> result (run_gauges l) = Ret tt ->
  Forall (fun ds => exists v, ParseFloat (snd ds) = Some (inl v)) l.
Proof.
  intros Hl. induction Hl as [|[d s] l Hd Hl IH]; intros H; [constructor|].
  cbn [run_gauges] in H. simpl in Hd.
  rewrite result_bind, (gauge_of_eval d s Hd) in H.
  destruct (ParseFloat s) as [[f|e]|] eqn:Es; cbn [result snd] in H;
    try discriminate.
  constructor; [now exists f | now apply IH].
Qed.

Lemma run_gauges_values (name : string) (l : list (Desc * string)) :
  unlabelled l -> result (run_gauges l) = Ret tt ->
  observed name (trace (run_gauges l)) = values_of name l.
Proof.
  intros Hl. induction Hl as [|[d s] l Hd Hl IH]; intros H; [reflexivity|].
  cbn [run_gauges] in *. simpl in Hd.
  rewrite result_bind, (gauge_of_eval d s Hd) in H.
  rewrite trace_bind, observed_app, (gauge_of_eval d s Hd).
  destruct (ParseFloat s) as [[f|e]|] eqn:Es; cbn [trace result fst snd] in *;
    try discriminate.
  rewrite (IH H). unfold values_of. cbn [flat_map fst snd]. rewrite Es.
  unfold observed, gauge. simpl.
  now destruct (String.eqb (fqName d) name).
Qed.

(** A sequence of gauges over runs of digits and points returns, or ends in
    [log.Fatalf]. *)
Lemma run_gauges_result (l : list (Desc * string)) :
  unlabelled l -> Forall (fun ds => plain (snd ds) = true) l ->
  result (run_gauges l) = Ret tt \/ exists e, result (run_gauges l) = Fatal e.
Proof.
  intros Hl Hp. induction Hl as [|[d s] l Hd Hl IH]; [now left|].
  inversion Hp as [|? ? Hs Hp']; subst. simpl in Hd, Hs.
  cbn [run_gauges]. rewrite result_bind, (gauge_of_eval d s Hd).
  pose proof (ParseFloat_covers s Hs) as Hc.
  destruct (ParseFloat s) as [[f|e]|]; cbn [result snd].
  - now apply IH.
  - right. now exists e.
  - congruence.
Qed.

Variable cl : Client.

Lemma threads_step_gauges (stats w a b c : string) (later : list (list string)) :
  FindAllStringSubmatch threads_regex stats = [w; a; b; c] :: later ->
  threads_step (New cl) stats = run_gauges (threads_gauges cl a b c).
Proof.
  intros H. rewrite (threads_step_first cl _ _ _ _ _ _ H).
  cbn [run_gauges threads_gauges]. now rewrite bind_ret_r.
Qed.

Lemma queue_step_gauges (stats w n : string) (later : list (list string)) :
  FindAllStringSubmatch queue_regex stats = [w; n] :: later ->
  queue_step (New cl) stats = run_gauges [(queue (New cl), n)].
Proof.
  intros H. rewrite (queue_step_first cl _ _ _ _ H).
  cbn [run_gauges]. now rewrite bind_ret_r.
Qed.

Lemma memstats_step_gauges (stats w h m u f r p pu pt : string)
      (later : list (list string)) :
  FindAllStringSubmatch memstats_regex stats
  = [w; h; m; u; f; r; p; pu; pt] :: later ->
  memstats_step (New cl) stats = run_gauges (memstats_gauges cl h m u pu pt).
Proof.
  intros H. rewrite (memstats_step_first cl _ _ _ _ _ _ _ _ _ _ _ H).
  unfold memstats_gauges, unless_na.
  destruct (String.eqb h "N/A"), (String.eqb m "N/A"), (String.eqb u "N/A");
    cbn [negb when run_gauges app]; rewrite ?bind_ret_l, bind_ret_r;
    reflexivity.
Qed.

Lemma threads_gauges_unlabelled (a b c : string) :
  unlabelled (threads_gauges cl a b c).
Proof. repeat constructor. Qed.

Lemma memstats_gauges_unlabelled (h m u pu pt : string) :
  unlabelled (memstats_gauges cl h m u pu pt).
Proof.
  unfold memstats_gauges, unless_na.
  destruct (String.eqb h "N/A"), (String.eqb m "N/A"), (String.eqb u "N/A");
    repeat constructor.
Qed.

End Gauges.

(** ** The exchanges of a pass *)

Section Exchanges.

Lemma no_dial_bind {A B} (m : M A) (f : A -> M B) :
  dialled (trace m) = [] -> (forall a, dialled (trace (f a)) = []) ->
  dialled (trace (bind m f)) = [].
Proof.
  intros H1 H2. rewrite trace_bind, dialled_app, H1.
  destruct (result m); simpl; auto.
Qed.

Lemma no_dial_when (b : bool) (body : M unit) :
  dialled (trace body) = [] -> dialled (trace (when b body)) = [].
Proof. now destruct b. Qed.

Lemma no_dial_at2 (ms : list (list string)) (i j : nat) :
  dialled (trace (at2 ms i j)) = [].
Proof.
  unfold at2. destruct (nth_error ms i) as [m|]; [|reflexivity].
  now destruct (nth_error m j).
Qed.

Lemma no_dial_metric (d : Desc) (t : ValueType) (v : float64)
      (labels : list string) :
  dialled (trace (m <- MustNewConstMetric d t v labels ;; send m)) = [].
Proof.
  unfold MustNewConstMetric, NewConstMetric. now destruct (Nat.eqb _ _).
Qed.

Lemma no_dial_send_gauge (d : Desc) (ms : list (list string)) (i j : nat) :
  dialled (trace (send_gauge d ms i j)) = [].
Proof.
  apply no_dial_bind; [apply no_dial_at2|]. intros s.
  apply no_dial_bind; [|intros f; apply no_dial_metric].
  unfold float. now destruct (ParseFloat s) as [[f|e]|].
Qed.

End Exchanges.

Ltac solve_no_dial :=
  repeat first
         [ reflexivity
         | apply no_dial_when
         | apply no_dial_send_gauge
         | apply no_dial_metric
         | apply no_dial_at2
         | apply no_dial_bind; [|intros ?] ].

Section ExchangesOfAPass.
Variable cl : Client.

Lemma ping_step_no_dial (pong : string) :
  dialled (trace (ping_step (New cl) pong)) = [].
Proof. unfold ping_step. solve_no_dial. Qed.

Lemma stats_steps_no_dial (stats : string) :
  dialled (trace (stats_steps (New cl) stats)) = [].
Proof.
  unfold stats_steps, threads_step, queue_step, memstats_step. solve_no_dial.
Qed.

Lemma version_step_no_dial (version : string) :
  dialled (trace (version_step (New cl) version)) = [].
Proof. unfold version_step. solve_no_dial. Qed.

(** The exchanges of a pass, in order: the VERSION exchange takes place
    when the steps on the STATS reply return. *)
Lemma Collect_dialled :
  dialled (trace (Collect (New cl)))
  = (PING :: STATS ::
     if returns (stats_steps (New cl) (Dial cl STATS)) then [VERSION] else []).
Proof.
  rewrite Collect_trace. cbn [app dialled]. f_equal.
  rewrite dialled_app, ping_step_no_dial. cbn [app dialled]. f_equal.
  rewrite dialled_app, stats_steps_no_dial. cbn [app].
  destruct (returns _); [|reflexivity].
  cbn [dialled]. now rewrite version_step_no_dial.
Qed.

(** The VERSION step never fails. *)
Lemma version_step_returns (version : string) :
  result (version_step (New cl) version) = Ret tt.
Proof.
  destruct (FindAllStringSubmatch version_regex version) as [|x later] eqn:E.
  - now rewrite (version_step_none cl _ E).
  - destruct (version_found_inv _ _ _ E) as (pre & n & w & e & d & post & _ & ->).
    now rewrite (version_step_first cl _ _ _ _ _ _ _ E).
Qed.

(** A pass ends normally exactly when it gets to the VERSION exchange. *)
Lemma Collect_returns_iff :
  result (Collect (New cl)) = Ret tt <->
  In VERSION (dialled (trace (Collect (New cl)))).
Proof.
  rewrite Collect_result, Collect_dialled, version_step_returns.
  unfold returns.
  destruct (result (stats_steps (New cl) (Dial cl STATS))) as [[]|e| |];
    simpl; split; intros H; auto; try discriminate;
    destruct H as [H|[H|H]]; try discriminate; contradiction.
Qed.

Lemma Collect_returns_stats :
  result (Collect (New cl)) = Ret tt ->
  result (threads_step (New cl) (Dial cl STATS)) = Ret tt /\
  result (queue_step (New cl) (Dial cl STATS)) = Ret tt /\
  result (memstats_step (New cl) (Dial cl STATS)) = Ret tt.
Proof.
  rewrite Collect_result, stats_steps_result.
  destruct (result (threads_step _ _)) as [[]|e| |]; try discriminate.
  destruct (result (queue_step _ _)) as [[]|e| |]; try discriminate.
  destruct (result (memstats_step _ _)) as [[]|e| |]; try discriminate.
  auto.
Qed.

End ExchangesOfAPass.

(** C1.  Here the code departs from the claim: on a submatch that does not
    convert, [float] calls [log.Fatalf] and the process ends.  On the reply
    [two_points_stats] the submatch 1.2.3 is a syntax error for
    [ParseFloat]; the pass ends there, the well-formed pools_total that
    follows is not sent, and the VERSION exchange does not take place. *)
Theorem C1_conversion_failure_ends_process :
  memstats_at two_points_stats "" "N/A" "N/A" "N/A" "N/A" "N/A" "1" "1.2.3"
              "1143.632" LF /\
  let pass := Collect (New (replies PONG two_points_stats "ClamAV 0.102.4/26168")) in
  result pass = Fatal (syntaxError "1.2.3") /\
  observed "clamav_pools_used_mb" (trace pass) = [] /\
  observed "clamav_pools_total_mb" (trace pass) = [] /\
  observed "clamav_build_info" (trace pass) = [].
Proof. vm_compute. repeat split. Qed.

(** C2.  Here the code departs from the claim: its QUEUE pattern has two
    colons, the daemon writes one.  On the example reply given in the source
    itself, which has the line "QUEUE: 0 items", the pass ends normally and
    sends nothing on the queue metric. *)
Theorem C2_single_colon_queue_not_sent :
  (exists pre post, example_stats = pre ++ "QUEUE: 0 items" ++ LF ++ post) /\
  let pass := Collect (New (replies PONG example_stats "ClamAV 0.102.4/26168")) in
  result pass = Ret tt /\
  observed "clamav_queue" (trace pass) = [] /\
  observed "clamav_threads_live" (trace pass) = [(inject_Z 10, [])].
Proof.
  split.
  - exists (example_head ++ example_threads).
    eexists. vm_compute. reflexivity.
  - vm_compute. repeat split.
Qed.

(** The same for every queue length: a reply made of the daemon's line
    with one colon never gets a queue observation. *)
Lemma count_char_app (c : ascii) (s1 s2 : string) :
  count_char c (s1 ++ s2) = (count_char c s1 + count_char c s2)%nat.
Proof.
  induction s1 as [|x s1 IH]; simpl; [reflexivity|]. rewrite IH. lia.
Qed.

Lemma number_no_colon (n : string) : number n = true -> count_char ":" n = 0%nat.
Proof.
  unfold number. intros H. apply andb_prop in H. destruct H as [_ H].
  induction n as [|x n IH]; [reflexivity|].
  simpl in H. apply andb_prop in H. destruct H as [Hx Hn].
  simpl. rewrite (IH Hn).
  destruct (Ascii.eqb_spec x ":") as [->|]; [discriminate | reflexivity].
Qed.

Lemma single_colon_queue_never_sent (cl : Client) (n : string) :
  number n = true ->
  Dial cl STATS = "QUEUE: " ++ n ++ " items" ++ LF ->
  observed "clamav_queue" (trace (Collect (New cl))) = [].
Proof.
  intros Hn Hs. rewrite observed_queue. destruct (returns _); [|reflexivity].
  rewrite (queue_step_none cl); [reflexivity|].
  apply FindAll_none, search_no_occurrence.
  intros pre c caps post Ho E. apply queue_occurrence in Ho.
  destruct Ho as (n' & Hn' & -> & _). rewrite Hs in E.
  apply (f_equal (count_char ":")) in E. unfold queue_line in E.
  repeat rewrite count_char_app in E.
  rewrite (number_no_colon n Hn), (number_no_colon n' Hn') in E.
  simpl in E. lia.
Qed.

(** C7.  Here the code departs from the claim, by the defect of C1: a pass
    that [log.Fatalf] ends while it works on the STATS reply never gets to
    the VERSION exchange.  On [two_points_stats] the exchanges of the pass
    are LIVENESS and STATS only. *)
Theorem C7_fatal_pass_skips_version :
  let pass := Collect (New (replies PONG two_points_stats "ClamAV 0.102.4/26168")) in
  dialled (trace pass) = [PING; STATS] /\
  result pass = Fatal (syntaxError "1.2.3").
Proof. vm_compute. split; reflexivity. Qed.

(** What does hold of the order of the exchanges: LIVENESS, then STATS,
    then VERSION, each at most once; all three in every pass that
    [log.Fatalf] does not end; and a reply that matches no pattern stops
    nothing. *)
Lemma exchanges_in_order (cl : Client) :
  (dialled (trace (Collect (New cl))) = [PING; STATS; VERSION] /\
   result (Collect (New cl)) = Ret tt) \/
  (dialled (trace (Collect (New cl))) = [PING; STATS] /\
   result (Collect (New cl)) <> Ret tt).
Proof.
  rewrite Collect_dialled, Collect_result, version_step_returns.
  unfold returns.
  destruct (result (stats_steps (New cl) (Dial cl STATS))) as [[]|e| |];
    [left | right | right | right]; split; try reflexivity; discriminate.
Qed.

Lemma unmatched_replies_stop_nothing (cl : Client) :
  FindAllStringSubmatch threads_regex (Dial cl STATS) = [] ->
  FindAllStringSubmatch queue_regex (Dial cl STATS) = [] ->
  FindAllStringSubmatch memstats_regex (Dial cl STATS) = [] ->
  dialled (trace (Collect (New cl))) = [PING; STATS; VERSION] /\
  result (Collect (New cl)) = Ret tt /\
  sent (trace (stats_steps (New cl) (Dial cl STATS))) = [].
Proof.
  intros Ht Hq Hm.
  assert (E : stats_steps (New cl) (Dial cl STATS) = ret tt).
  { unfold stats_steps.
    rewrite (threads_step_none cl _ Ht), (queue_step_none cl _ Hq),
      (memstats_step_none cl _ Hm). reflexivity. }
  rewrite Collect_dialled, Collect_result, version_step_returns, E.
  repeat split.
Qed.

(** ** The VERSION step *)

Section VersionStep.
Variable cl : Client.

Lemma version_reached :
  In VERSION (dialled (trace (Collect (New cl)))) ->
  returns (stats_steps (New cl) (Dial cl STATS)) = true.
Proof.
  rewrite Collect_dialled. destruct (returns _); [reflexivity|].
  intros [H|[H|[]]]; discriminate.
Qed.

(** The labels of build_info are the two version submatches of the leftmost
    occurrence. *)
Lemma build_info_labels (pre : string) (n : nat) (w : ascii) (e d post : string) :
  first_version_at (Dial cl VERSION) pre n w e d post ->
  In VERSION (dialled (trace (Collect (New cl)))) ->
  observed "clamav_build_info" (trace (Collect (New cl)))
  = [(inject_Z 1, [e; d])].
Proof.
  intros Hfirst Hreach.
  destruct (version_found _ _ _ _ _ _ _ Hfirst) as [later Hf].
  rewrite observed_build_info, (version_reached Hreach).
  now rewrite (version_step_first cl _ _ _ _ _ _ _ Hf).
Qed.

Lemma build_info_absent :
  (forall pre n w e d post, ~ version_at (Dial cl VERSION) pre n w e d post) ->
  observed "clamav_build_info" (trace (Collect (New cl))) = [].
Proof.
  intros Hnone. apply version_not_found in Hnone.
  rewrite observed_build_info, (version_step_none cl _ Hnone).
  now destruct (returns _).
Qed.

(** Every label sent is a run of digits and points: plain ASCII, so valid
    UTF-8, and [NewConstMetric] has no reason to refuse it. *)
Lemma version_labels_plain (v : float64) (labels : list string) :
  In (v, labels) (observed "clamav_build_info" (trace (Collect (New cl)))) ->
  exists e d, labels = [e; d] /\ plain e = true /\ plain d = true.
Proof.
  rewrite observed_build_info. destruct (returns _); [|contradiction].
  destruct (FindAllStringSubmatch version_regex (Dial cl VERSION))
    as [|x later] eqn:E.
  - rewrite (version_step_none cl _ E). contradiction.
  - destruct (version_found_inv _ _ _ E)
      as (pre & n & w & e & d & post & (Hw & He & Hd & _) & ->).
    rewrite (version_step_first cl _ _ _ _ _ _ _ E).
    intros [H|[]]. injection H as <- <-. now exists e, d.
Qed.

End VersionStep.

(** C6.  When the VERSION exchange takes place and its reply is
    "ClamAV 0.102.4/26168", one build_info observation with value 1 is sent,
    with the labels "0.102.4" and "26168".  When the reply has nowhere the
    shape product name, white space, engine version, slash, database version,
    no build_info observation is sent, and the pass, once at the VERSION
    exchange, ends normally. *)
Theorem C6_build_info (cl : Client) :
  (Dial cl VERSION = "ClamAV 0.102.4/26168" ->
   In VERSION (dialled (trace (Collect (New cl)))) ->
   observed "clamav_build_info" (trace (Collect (New cl)))
   = [(inject_Z 1, ["0.102.4"; "26168"])]) /\
  ((forall pre n w e d post, ~ version_at (Dial cl VERSION) pre n w e d post) ->
   observed "clamav_build_info" (trace (Collect (New cl))) = [] /\
   (In VERSION (dialled (trace (Collect (New cl)))) ->
    result (Collect (New cl)) = Ret tt)).
Proof.
  split.
  - intros Hv Hreach.
    rewrite observed_build_info, (version_reached cl Hreach), Hv.
    vm_compute. reflexivity.
  - intros Hnone. split; [now apply build_info_absent|].
    apply Collect_returns_iff.
Qed.

Lemma C6_build_info_witness :
  let cl := replies PONG example_stats "ClamAV 0.102.4/26168" in
  let cl' := replies PONG example_stats "ClamAV 0.102.4" in
  In VERSION (dialled (trace (Collect (New cl)))) /\
  observed "clamav_build_info" (trace (Collect (New cl)))
  = [(inject_Z 1, ["0.102.4"; "26168"])] /\
  (forall pre n w e d post, ~ version_at "ClamAV 0.102.4" pre n w e d post) /\
  observed "clamav_build_info" (trace (Collect (New cl'))) = [] /\
  result (Collect (New cl')) = Ret tt.
Proof.
  intros cl cl'.
  assert (Hreach : In VERSION (dialled (trace (Collect (New cl)))))
    by (vm_compute; auto).
  assert (Hnone : forall pre n w e d post,
             ~ version_at "ClamAV 0.102.4" pre n w e d post)
    by exact (no_version_by_search "ClamAV 0.102.4" eq_refl).
  split; [exact Hreach|].
  split; [exact (proj1 (C6_build_info cl) eq_refl Hreach)|].
  split; [exact Hnone|].
  destruct (proj2 (C6_build_info cl') Hnone) as [Habsent Hends].
  split; [exact Habsent|]. apply Hends. vm_compute. auto.
Defined.

(** C10, as the code has it.  There are VERSION replies for which a
    build_info observation is sent with both labels empty: those whose
    leftmost occurrence of the pattern is the product name, a white-space
    byte and a slash, the slash not followed by a digit or a point.  An
    empty submatch is a match. *)
Theorem C10_empty_version_labels (cl : Client) (pre : string) (n : nat)
        (w : ascii) (post : string) :
  first_version_at (Dial cl VERSION) pre n w "" "" post ->
  In VERSION (dialled (trace (Collect (New cl)))) ->
  observed "clamav_build_info" (trace (Collect (New cl)))
  = [(inject_Z 1, [""; ""])].
Proof. apply build_info_labels. Qed.

Lemma C10_empty_version_labels_witness :
  let version := "version: ClamAV /" ++ LF in
  let cl := replies PONG example_stats version in
  first_version_at version "version: " 0 " " "" "" LF /\
  In VERSION (dialled (trace (Collect (New cl)))) /\
  observed "clamav_build_info" (trace (Collect (New cl)))
  = [(inject_Z 1, [""; ""])].
Proof.
  intros version cl.
  assert (Hfirst : first_version_at version "version: " 0 " " "" "" LF).
  { eapply first_version_by_search.
    - repeat split; reflexivity.
    - reflexivity.
    - vm_compute. reflexivity. }
  assert (Hreach : In VERSION (dialled (trace (Collect (New cl)))))
    by (vm_compute; auto).
  split; [exact Hfirst|]. split; [exact Hreach|].
  exact (C10_empty_version_labels cl "version: " 0 " " LF Hfirst Hreach).
Defined.

(** C10 as stated does not hold: the reply "ClamAV /7" contains "ClamAV /"
    and its second label is not empty. *)
Lemma C10_counterexample :
  (exists pre post, "ClamAV /7" = pre ++ "ClamAV /" ++ post) /\
  observed "clamav_build_info"
           (trace (Collect (New (replies PONG example_stats "ClamAV /7"))))
  = [(inject_Z 1, [""; "7"])].
Proof.
  split; [now exists "", "7" | vm_compute; reflexivity].
Qed.

(** Nor are the labels empty when the pattern occurs earlier in the reply. *)
Lemma earlier_version_wins :
  (exists pre post, "ClamAV 0.102.4/26168 ClamAV /" = pre ++ "ClamAV /" ++ post) /\
  observed "clamav_build_info"
           (trace (Collect (New (replies PONG example_stats
                                         "ClamAV 0.102.4/26168 ClamAV /"))))
  = [(inject_Z 1, ["0.102.4"; "26168"])].
Proof.
  split; [now exists "ClamAV 0.102.4/26168 ", "" | vm_compute; reflexivity].
Qed.

(** ** The MEMSTATS step *)

Section MemstatsStep.
Variable cl : Client.

Lemma memstats_sent_inv (name : string) :
  In name memstats_names ->
  observed name (trace (Collect (New cl))) <> [] ->
  exists pre h m u f r p pu pt post,
    memstats_at (Dial cl STATS) pre h m u f r p pu pt post.
Proof.
  intros Hn H. rewrite (observed_memstats cl name Hn) in H.
  destruct (_ && _); [|congruence].
  destruct (FindAllStringSubmatch memstats_regex (Dial cl STATS))
    as [|x later] eqn:E.
  - rewrite (memstats_step_none cl _ E) in H. now contradiction H.
  - destruct (memstats_found_inv _ _ _ E)
      as (pre & h & m & u & f & r & p & pu & pt & post & Hat & _).
    now exists pre, h, m, u, f, r, p, pu, pt, post.
Qed.

End MemstatsStep.

(** C9.  The MEMSTATS step is all or nothing.  Whenever the pass sends an
    observation on one of the five memory and pools metrics, the STATS reply
    contains a whole MEMSTATS line, with its free, releasable and pools
    values; on a reply that contains no whole line, nothing is sent on any of
    the five, the pools metrics included. *)
Theorem C9_memstats_all_or_nothing (cl : Client) :
  (forall name,
      In name memstats_names ->
      observed name (trace (Collect (New cl))) <> [] ->
      exists pre h m u f r p pu pt post,
        memstats_at (Dial cl STATS) pre h m u f r p pu pt post) /\
  ((forall pre h m u f r p pu pt post,
       ~ memstats_at (Dial cl STATS) pre h m u f r p pu pt post) ->
   forall name,
     In name memstats_names -> observed name (trace (Collect (New cl))) = []).
Proof.
  split; [apply memstats_sent_inv|].
  intros Hnone name Hn.
  destruct (observed name (trace (Collect (New cl)))) as [|x l] eqn:E;
    [reflexivity|].
  destruct (memstats_sent_inv cl name Hn)
    as (pre & h & m & u & f & r & p & pu & pt & post & Hat).
  - rewrite E. discriminate.
  - now destruct (Hnone pre h m u f r p pu pt post).
Qed.

Lemma C9_memstats_all_or_nothing_witness :
  observed "clamav_pools_used_mb"
           (trace (Collect (New (replies PONG example_stats "")))) <> [] /\
  (exists pre h m u f r p pu pt post,
      memstats_at example_stats pre h m u f r p pu pt post) /\
  (forall pre h m u f r p pu pt post,
      ~ memstats_at bad_free_stats pre h m u f r p pu pt post) /\
  observed "clamav_pools_used_mb"
           (trace (Collect (New (replies PONG bad_free_stats ""))))
  = [] /\
  observed "clamav_mem_heap"
           (trace (Collect (New (replies PONG bad_free_stats ""))))
  = [].
Proof.
  assert (Hsent : observed "clamav_pools_used_mb"
                    (trace (Collect (New (replies PONG example_stats "")))) <> [])
    by (vm_compute; discriminate).
  assert (Hnone : forall pre h m u f r p pu pt post,
             ~ memstats_at bad_free_stats pre h m u f r p pu pt post)
    by exact (no_memstats_by_search bad_free_stats eq_refl).
  split; [exact Hsent|].
  split.
  { apply (proj1 (C9_memstats_all_or_nothing (replies PONG example_stats ""))
                 "clamav_pools_used_mb"); [simpl; tauto | exact Hsent]. }
  split; [exact Hnone|].
  split;
    apply (proj2 (C9_memstats_all_or_nothing (replies PONG bad_free_stats ""))
                 Hnone);
    simpl; tauto.
Defined.

(** ** What the MEMSTATS step sends *)

Section MemstatsValues.
Variable cl : Client.

Lemma memstats_values (name : string) (pre h m u f r p pu pt post : string) :
  In name memstats_names ->
  first_memstats_at (Dial cl STATS) pre h m u f r p pu pt post ->
  result (Collect (New cl)) = Ret tt ->
  observed name (trace (Collect (New cl)))
  = values_of name (memstats_gauges cl h m u pu pt) /\
  Forall (fun ds => exists v, ParseFloat (snd ds) = Some (inl v))
         (memstats_gauges cl h m u pu pt).
Proof.
  intros Hn Hfirst Hret.
  destruct (memstats_found _ _ _ _ _ _ _ _ _ _ _ Hfirst) as [later Hf].
  destruct (Collect_returns_stats cl Hret) as (Ht & Hq & Hm).
  rewrite (observed_memstats cl name Hn). unfold returns. rewrite Ht, Hq.
  cbn [andb].
  rewrite (memstats_step_gauges cl _ _ _ _ _ _ _ _ _ _ _ Hf) in *.
  split.
  - apply run_gauges_values; [apply memstats_gauges_unlabelled | exact Hm].
  - apply run_gauges_returns; [apply memstats_gauges_unlabelled | exact Hm].
Qed.

End MemstatsValues.

Ltac use_conversions :=
  repeat match goal with
         | H : Forall _ (_ :: _) |- _ => inversion H; clear H; subst
         | H : Forall _ [] |- _ => clear H
         | H : exists v, ParseFloat _ = Some (inl v) |- _ =>
             let v := fresh "v" in
             let E := fresh "E" in
             destruct H as [v E]; cbn [fst snd] in E
         end.

(** C5, as the code has it.  In a pass that runs to its end, on a STATS
    reply whose leftmost MEMSTATS line is well formed: each of heap, mmap and
    used is sent exactly when its value is not the placeholder N/A, and
    pools_used and pools_total are sent; each value sent is what [ParseFloat]
    makes of the submatch, the unit M left out: the binary64 nearest to the
    decimal number (the number itself for an integer below 2^53; for
    1143.596 the binary64 2514794198956245 / 2^41). *)
Theorem C5_memstats_fields (cl : Client)
        (pre h m u f r p pu pt post : string) :
  first_memstats_at (Dial cl STATS) pre h m u f r p pu pt post ->
  result (Collect (New cl)) = Ret tt ->
  sent_unless_na "clamav_mem_heap" h (trace (Collect (New cl))) /\
  sent_unless_na "clamav_mem_mmap" m (trace (Collect (New cl))) /\
  sent_unless_na "clamav_mem_used" u (trace (Collect (New cl))) /\
  sent_converted "clamav_pools_used_mb" pu (trace (Collect (New cl))) /\
  sent_converted "clamav_pools_total_mb" pt (trace (Collect (New cl))) /\
  (forall s, number s = true -> below_2_53 s ->
             ParseFloat s = Some (inl (inject_Z (digits_value s)))) /\
  ParseFloat "1143.596" = Some (inl (Qmake 2514794198956245 (2 ^ 41))) /\
  ParseFloat "1143.632" = Some (inl (Qmake 2514873363793445 (2 ^ 41))).
Proof.
  intros Hfirst Hret.
  assert (Hv := fun name Hn =>
                  memstats_values cl name pre h m u f r p pu pt post Hn Hfirst Hret).
  unfold sent_unless_na, sent_converted.
  repeat split.
  - destruct (Hv "clamav_mem_heap" ltac:(simpl; tauto)) as [-> Hc].
    unfold memstats_gauges, unless_na in *.
    destruct (String.eqb h "N/A"), (String.eqb m "N/A"), (String.eqb u "N/A");
      cbn [app] in Hc; use_conversions; unfold values_of; simpl;
      rewrite ?E, ?E0, ?E1, ?E2, ?E3; eauto.
  - destruct (Hv "clamav_mem_mmap" ltac:(simpl; tauto)) as [-> Hc].
    unfold memstats_gauges, unless_na in *.
    destruct (String.eqb h "N/A"), (String.eqb m "N/A"), (String.eqb u "N/A");
      cbn [app] in Hc; use_conversions; unfold values_of; simpl;
      rewrite ?E, ?E0, ?E1, ?E2, ?E3; eauto.
  - destruct (Hv "clamav_mem_used" ltac:(simpl; tauto)) as [-> Hc].
    unfold memstats_gauges, unless_na in *.
    destruct (String.eqb h "N/A"), (String.eqb m "N/A"), (String.eqb u "N/A");
      cbn [app] in Hc; use_conversions; unfold values_of; simpl;
      rewrite ?E, ?E0, ?E1, ?E2, ?E3; eauto.
  - destruct (Hv "clamav_pools_used_mb" ltac:(simpl; tauto)) as [-> Hc].
    unfold memstats_gauges, unless_na in *.
    destruct (String.eqb h "N/A"), (String.eqb m "N/A"), (String.eqb u "N/A");
      cbn [app] in Hc; use_conversions; unfold values_of; simpl;
      rewrite ?E, ?E0, ?E1, ?E2, ?E3; eauto.
  - destruct (Hv "clamav_pools_total_mb" ltac:(simpl; tauto)) as [-> Hc].
    unfold memstats_gauges, unless_na in *.
    destruct (String.eqb h "N/A"), (String.eqb m "N/A"), (String.eqb u "N/A");
      cbn [app] in Hc; use_conversions; unfold values_of; simpl;
      rewrite ?E, ?E0, ?E1, ?E2, ?E3; eauto.
  - intros s. apply ParseFloat_number.
Qed.

Lemma C5_memstats_fields_witness :
  let cl := replies PONG example_stats "ClamAV 0.102.4/26168" in
  let t := trace (Collect (New cl)) in
  first_memstats_at example_stats
                    (example_head ++ example_threads ++ example_queue)
                    "N/A" "N/A" "N/A" "N/A" "N/A" "1" "1143.596" "1143.632"
                    (LF ++ "END" ++ LF) /\
  result (Collect (New cl)) = Ret tt /\
  observed "clamav_mem_heap" t = [] /\
  observed "clamav_mem_mmap" t = [] /\
  observed "clamav_mem_used" t = [] /\
  observed "clamav_pools_used_mb" t = [(Qmake 2514794198956245 (2 ^ 41), [])] /\
  observed "clamav_pools_total_mb" t = [(Qmake 2514873363793445 (2 ^ 41), [])].
Proof.
  intros cl t.
  assert (Hfirst : first_memstats_at
                     example_stats (example_head ++ example_threads ++ example_queue)
                     "N/A" "N/A" "N/A" "N/A" "N/A" "1" "1143.596" "1143.632"
                     (LF ++ "END" ++ LF)).
  { eapply first_memstats_by_search.
    - repeat split; reflexivity.
    - vm_compute. reflexivity. }
  assert (Hret : result (Collect (New cl)) = Ret tt) by (vm_compute; reflexivity).
  destruct (C5_memstats_fields cl _ _ _ _ _ _ _ _ _ _ Hfirst Hret)
    as (Hh & Hm & Hu & (vu & Eu & Hpu) & (vt & Et & Hpt) & _).
  split; [exact Hfirst|]. split; [exact Hret|].
  split; [exact Hh|]. split; [exact Hm|]. split; [exact Hu|].
  vm_compute in Eu. injection Eu as <-.
  vm_compute in Et. injection Et as <-.
  split; [exact Hpu | exact Hpt].
Defined.

(** C5 as stated does not hold: a heap value of 2^53 + 1 is sent as
    2^53, the nearest binary64. *)
Lemma C5_counterexample :
  let stats :=
    "MEMSTATS: heap 9007199254740993 mmap N/A used N/A free N/A releasable N/A pools 1 pools_used 1143.596M pools_total 1143.632M"
    ++ LF in
  memstats_at stats "" "9007199254740993" "N/A" "N/A" "N/A" "N/A" "1"
              "1143.596" "1143.632" LF /\
  digits_value "9007199254740993" = 9007199254740993%Z /\
  result (Collect (New (replies PONG stats ""))) = Ret tt /\
  observed "clamav_mem_heap" (trace (Collect (New (replies PONG stats ""))))
  = [(inject_Z 9007199254740992, [])].
Proof. vm_compute. repeat split. Qed.

(** ** Later occurrences *)

Ltac pick_gauge H :=
  simpl in H;
  repeat match type of H with
         | _ \/ _ => destruct H as [H|H]
         | False => contradiction
         end;
  injection H as <- <-; simpl in *; try discriminate.

Section FirstOccurrence.
Variable cl : Client.

Lemma threads_only_first (name : string) (pre a b c post : string) :
  first_threads_at (Dial cl STATS) pre a b c post ->
  forall v labels,
    In (v, labels) (observed name (trace (Collect (New cl)))) ->
    In name ["clamav_threads_live"; "clamav_threads_idle"; "clamav_threads_max"] ->
    exists d s,
      In (d, s) (threads_gauges cl a b c) /\ fqName d = name /\
      ParseFloat s = Some (inl v) /\ labels = [].
Proof.
  intros Hfirst v labels H Hn.
  destruct (threads_found _ _ _ _ _ _ Hfirst) as [later Hf].
  rewrite (observed_threads cl name Hn) in H.
  rewrite (threads_step_gauges cl _ _ _ _ _ _ Hf) in H.
  apply run_gauges_observed in H; [exact H | apply threads_gauges_unlabelled].
Qed.

Lemma queue_only_first (pre n post : string) :
  first_queue_at (Dial cl STATS) pre n post ->
  only_converted "clamav_queue" n (trace (Collect (New cl))).
Proof.
  intros Hfirst v labels H.
  destruct (queue_found _ _ _ _ Hfirst) as [later Hf].
  rewrite observed_queue in H. destruct (returns _); [|contradiction].
  rewrite (queue_step_gauges cl _ _ _ _ Hf) in H.
  apply run_gauges_observed in H; [|repeat constructor].
  destruct H as (d & s & Hin & _ & Hs & Hl).
  destruct Hin as [Hin|[]]. injection Hin as <- <-. now split.
Qed.

Lemma memstats_only_first (name : string) (pre h m u f r p pu pt post : string) :
  first_memstats_at (Dial cl STATS) pre h m u f r p pu pt post ->
  forall v labels,
    In (v, labels) (observed name (trace (Collect (New cl)))) ->
    In name memstats_names ->
    exists d s,
      In (d, s) (memstats_gauges cl h m u pu pt) /\ fqName d = name /\
      ParseFloat s = Some (inl v) /\ labels = [].
Proof.
  intros Hfirst v labels H Hn.
  destruct (memstats_found _ _ _ _ _ _ _ _ _ _ _ Hfirst) as [later Hf].
  rewrite (observed_memstats cl name Hn) in H.
  destruct (_ && _); [|contradiction].
  rewrite (memstats_step_gauges cl _ _ _ _ _ _ _ _ _ _ _ Hf) in H.
  apply run_gauges_observed in H; [exact H | apply memstats_gauges_unlabelled].
Qed.

(** In a pass that returns, each gauge of the leftmost occurrence is sent. *)
Lemma threads_sent_first (pre a b c post : string) :
  first_threads_at (Dial cl STATS) pre a b c post ->
  result (Collect (New cl)) = Ret tt ->
  sent_converted "clamav_threads_live" a (trace (Collect (New cl))) /\
  sent_converted "clamav_threads_idle" b (trace (Collect (New cl))) /\
  sent_converted "clamav_threads_max" c (trace (Collect (New cl))).
Proof.
  intros Hfirst Hret.
  destruct (threads_found _ _ _ _ _ _ Hfirst) as [later Hf].
  destruct (Collect_returns_stats cl Hret) as (Rt & _ & _).
  unfold sent_converted.
  rewrite !(observed_threads cl) by (simpl; tauto).
  rewrite (threads_step_gauges cl _ _ _ _ _ _ Hf) in *.
  pose proof (run_gauges_returns _ (threads_gauges_unlabelled cl a b c) Rt)
    as Hc.
  rewrite !(run_gauges_values _ _ (threads_gauges_unlabelled cl a b c) Rt).
  unfold threads_gauges in Hc. use_conversions.
  unfold values_of, threads_gauges. simpl.
  repeat match goal with
         | H : ParseFloat _ = Some (inl _) |- _ => rewrite H
         end.
  split; [|split]; eexists; split; reflexivity.
Qed.

Lemma queue_sent_first (pre n post : string) :
  first_queue_at (Dial cl STATS) pre n post ->
  result (Collect (New cl)) = Ret tt ->
  sent_converted "clamav_queue" n (trace (Collect (New cl))).
Proof.
  intros Hfirst Hret.
  destruct (queue_found _ _ _ _ Hfirst) as [later Hf].
  destruct (Collect_returns_stats cl Hret) as (Rt & Rq & _).
  assert (Hu : unlabelled [(queue (New cl), n)]) by repeat constructor.
  unfold sent_converted.
  rewrite observed_queue. unfold returns. rewrite Rt.
  rewrite (queue_step_gauges cl _ _ _ _ Hf) in *.
  pose proof (run_gauges_returns _ Hu Rq) as Hc.
  rewrite (run_gauges_values _ _ Hu Rq).
  use_conversions. unfold values_of. simpl.
  repeat match goal with
         | H : ParseFloat _ = Some (inl _) |- _ => rewrite H
         end.
  eexists; split; reflexivity.
Qed.

Lemma memstats_sent_first (pre h m u f r p pu pt post : string) :
  first_memstats_at (Dial cl STATS) pre h m u f r p pu pt post ->
  result (Collect (New cl)) = Ret tt ->
  sent_unless_na "clamav_mem_heap" h (trace (Collect (New cl))) /\
  sent_unless_na "clamav_mem_mmap" m (trace (Collect (New cl))) /\
  sent_unless_na "clamav_mem_used" u (trace (Collect (New cl))) /\
  sent_converted "clamav_pools_used_mb" pu (trace (Collect (New cl))) /\
  sent_converted "clamav_pools_total_mb" pt (trace (Collect (New cl))).
Proof.
  intros Hfirst Hret.
  assert (Hv := fun name Hn =>
                  memstats_values cl name pre h m u f r p pu pt post Hn
                                  Hfirst Hret).
  unfold sent_unless_na, sent_converted.
  destruct (Hv "clamav_mem_heap" ltac:(simpl; tauto)) as [-> Hc].
  destruct (Hv "clamav_mem_mmap" ltac:(simpl; tauto)) as [-> _].
  destruct (Hv "clamav_mem_used" ltac:(simpl; tauto)) as [-> _].
  destruct (Hv "clamav_pools_used_mb" ltac:(simpl; tauto)) as [-> _].
  destruct (Hv "clamav_pools_total_mb" ltac:(simpl; tauto)) as [-> _].
  clear Hv. unfold memstats_gauges, unless_na in *.
  destruct (String.eqb h "N/A"), (String.eqb m "N/A"), (String.eqb u "N/A");
    cbn [app] in Hc; use_conversions; unfold values_of; simpl;
    repeat match goal with
           | H : ParseFloat _ = Some (inl _) |- _ => rewrite H
           end;
    repeat match goal with
           | |- _ /\ _ => split
           | |- exists _, _ => eexists
           | |- _ = _ => reflexivity
           end.
Qed.

End FirstOccurrence.

(** A step does the same on two replies that agree on the leftmost
    occurrence of its pattern. *)
Section SameFirstOccurrence.
Variables cl1 cl2 : Client.

Lemma threads_step_same (s1 s2 : string) :
  same_first_threads s1 s2 ->
  threads_step (New cl1) s1 = threads_step (New cl2) s2.
Proof.
  intros [(a & b & c & pre1 & post1 & pre2 & post2 & H1 & H2)|[N1 N2]].
  - destruct (threads_found _ _ _ _ _ _ H1) as [l1 F1].
    destruct (threads_found _ _ _ _ _ _ H2) as [l2 F2].
    now rewrite (threads_step_gauges cl1 _ _ _ _ _ _ F1),
      (threads_step_gauges cl2 _ _ _ _ _ _ F2).
  - now rewrite (threads_step_none cl1 _ (threads_not_found _ N1)),
      (threads_step_none cl2 _ (threads_not_found _ N2)).
Qed.

Lemma queue_step_same (s1 s2 : string) :
  same_first_queue s1 s2 ->
  queue_step (New cl1) s1 = queue_step (New cl2) s2.
Proof.
  intros [(n & pre1 & post1 & pre2 & post2 & H1 & H2)|[N1 N2]].
  - destruct (queue_found _ _ _ _ H1) as [l1 F1].
    destruct (queue_found _ _ _ _ H2) as [l2 F2].
    now rewrite (queue_step_gauges cl1 _ _ _ _ F1),
      (queue_step_gauges cl2 _ _ _ _ F2).
  - now rewrite (queue_step_none cl1 _ (queue_not_found _ N1)),
      (queue_step_none cl2 _ (queue_not_found _ N2)).
Qed.

Lemma memstats_step_same (s1 s2 : string) :
  same_first_memstats s1 s2 ->
  memstats_step (New cl1) s1 = memstats_step (New cl2) s2.
Proof.
  intros [(h & m & u & pu & pt & f1 & r1 & p1 & pre1 & post1
           & f2 & r2 & p2 & pre2 & post2 & H1 & H2)|[N1 N2]].
  - destruct (memstats_found _ _ _ _ _ _ _ _ _ _ _ H1) as [l1 F1].
    destruct (memstats_found _ _ _ _ _ _ _ _ _ _ _ H2) as [l2 F2].
    now rewrite (memstats_step_gauges cl1 _ _ _ _ _ _ _ _ _ _ _ F1),
      (memstats_step_gauges cl2 _ _ _ _ _ _ _ _ _ _ _ F2).
  - now rewrite (memstats_step_none cl1 _ (memstats_not_found _ N1)),
      (memstats_step_none cl2 _ (memstats_not_found _ N2)).
Qed.

Lemma stats_steps_same (s1 s2 : string) :
  same_first_threads s1 s2 -> same_first_queue s1 s2 ->
  same_first_memstats s1 s2 ->
  stats_steps (New cl1) s1 = stats_steps (New cl2) s2.
Proof.
  intros Ht Hq Hm. unfold stats_steps.
  now rewrite (threads_step_same _ _ Ht), (queue_step_same _ _ Hq),
    (memstats_step_same _ _ Hm).
Qed.

End SameFirstOccurrence.

(** C8.  Of a sub-pattern that occurs in the STATS reply, the leftmost
    occurrence alone counts, whatever follows it in the reply.

    In a pass that returns, each thread, queue, pools_used and pools_total
    metric has exactly one observation, the conversion of the corresponding
    submatch of the leftmost occurrence, and so has each of heap, mmap and
    used unless that submatch is the placeholder N/A; then it has none.

    However the pass ends, whatever is sent on one of these metrics is the
    conversion of the corresponding submatch of the leftmost occurrence.

    Two passes whose STATS replies agree on the leftmost occurrence of each
    of the three sub-patterns (the same submatches, or no occurrence on
    either side) end the same way, make the same exchanges and send the same
    observations on these metrics: later occurrences, and all else in the
    reply, change neither the values sent nor the way the pass ends. *)
Theorem C8_first_occurrence_only (cl : Client) :
  (result (Collect (New cl)) = Ret tt ->
   (forall pre a b c post,
       first_threads_at (Dial cl STATS) pre a b c post ->
       sent_converted "clamav_threads_live" a (trace (Collect (New cl))) /\
       sent_converted "clamav_threads_idle" b (trace (Collect (New cl))) /\
       sent_converted "clamav_threads_max" c (trace (Collect (New cl)))) /\
   (forall pre n post,
       first_queue_at (Dial cl STATS) pre n post ->
       sent_converted "clamav_queue" n (trace (Collect (New cl)))) /\
   (forall pre h m u f r p pu pt post,
       first_memstats_at (Dial cl STATS) pre h m u f r p pu pt post ->
       sent_unless_na "clamav_mem_heap" h (trace (Collect (New cl))) /\
       sent_unless_na "clamav_mem_mmap" m (trace (Collect (New cl))) /\
       sent_unless_na "clamav_mem_used" u (trace (Collect (New cl))) /\
       sent_converted "clamav_pools_used_mb" pu (trace (Collect (New cl))) /\
       sent_converted "clamav_pools_total_mb" pt
                      (trace (Collect (New cl))))) /\
  ((forall pre a b c post,
       first_threads_at (Dial cl STATS) pre a b c post ->
       only_converted "clamav_threads_live" a (trace (Collect (New cl))) /\
       only_converted "clamav_threads_idle" b (trace (Collect (New cl))) /\
       only_converted "clamav_threads_max" c (trace (Collect (New cl)))) /\
   (forall pre n post,
       first_queue_at (Dial cl STATS) pre n post ->
       only_converted "clamav_queue" n (trace (Collect (New cl)))) /\
   (forall pre h m u f r p pu pt post,
       first_memstats_at (Dial cl STATS) pre h m u f r p pu pt post ->
       only_converted "clamav_mem_heap" h (trace (Collect (New cl))) /\
       only_converted "clamav_mem_mmap" m (trace (Collect (New cl))) /\
       only_converted "clamav_mem_used" u (trace (Collect (New cl))) /\
       only_converted "clamav_pools_used_mb" pu (trace (Collect (New cl))) /\
       only_converted "clamav_pools_total_mb" pt
                      (trace (Collect (New cl))))) /\
  (forall cl2,
      same_first_threads (Dial cl STATS) (Dial cl2 STATS) ->
      same_first_queue (Dial cl STATS) (Dial cl2 STATS) ->
      same_first_memstats (Dial cl STATS) (Dial cl2 STATS) ->
      result (Collect (New cl)) = result (Collect (New cl2)) /\
      dialled (trace (Collect (New cl))) = dialled (trace (Collect (New cl2))) /\
      forall name,
        name <> "clamav_up" -> name <> "clamav_build_info" ->
        observed name (trace (Collect (New cl)))
        = observed name (trace (Collect (New cl2)))).
Proof.
  split; [|split].
  - intros Hret. split; [|split].
    + intros pre a b c post Hfirst.
      exact (threads_sent_first cl pre a b c post Hfirst Hret).
    + intros pre n post Hfirst.
      exact (queue_sent_first cl pre n post Hfirst Hret).
    + intros pre h m u f r p pu pt post Hfirst.
      exact (memstats_sent_first cl pre h m u f r p pu pt post Hfirst Hret).
  - split; [|split].
    + intros pre a b c post Hfirst.
      repeat split;
        destruct (threads_only_first cl _ pre a b c post Hfirst v labels H
                                     ltac:(simpl; tauto))
          as (d & s & Hin & Hname & Hs & Hl);
        try assumption; pick_gauge Hin; assumption.
    + intros pre n post. apply queue_only_first.
    + intros pre h m u f r p pu pt post Hfirst.
      repeat split;
        destruct (memstats_only_first cl _ pre h m u f r p pu pt post Hfirst
                                      v labels H ltac:(simpl; tauto))
          as (d & s & Hin & Hname & Hs & Hl);
        try assumption;
        unfold memstats_gauges, unless_na in Hin;
        destruct (String.eqb h "N/A"), (String.eqb m "N/A"),
          (String.eqb u "N/A");
        pick_gauge Hin; assumption.
  - intros cl2 Ht Hq Hm.
    pose proof (stats_steps_same cl cl2 _ _ Ht Hq Hm) as Hs.
    split; [|split].
    + now rewrite !Collect_result, !version_step_returns, Hs.
    + now rewrite !Collect_dialled, Hs.
    + intros name Hu Hb. rewrite !observed_Collect.
      rewrite (observed_only name _ _ (ping_step_only cl (Dial cl PING)))
        by (simpl; intuition congruence).
      rewrite (observed_only name _ _ (ping_step_only cl2 (Dial cl2 PING)))
        by (simpl; intuition congruence).
      rewrite (observed_only name _ _ (version_step_only cl (Dial cl VERSION)))
        by (simpl; intuition congruence).
      rewrite (observed_only name _ _
                 (version_step_only cl2 (Dial cl2 VERSION)))
        by (simpl; intuition congruence).
      now rewrite (threads_step_same cl cl2 _ _ Ht),
        (queue_step_same cl cl2 _ _ Hq), (memstats_step_same cl cl2 _ _ Hm).
Qed.

Lemma C8_first_occurrence_only_witness :
  let threads1 := threads_line "1" "2" "3" ++ LF in
  let queue1 := queue_line "4" ++ LF in
  let memstats1 :=
    memstats_line "5" "N/A" "6" "7" "8" "1" "9.5" "10.25" ++ LF in
  let later :=
    threads_line "7" "8" "9" ++ LF ++ queue_line "11" ++ LF
    ++ memstats_line "12" "13" "14" "N/A" "N/A" "2" "1.2.3" "16" ++ LF in
  let stats := threads1 ++ queue1 ++ memstats1 ++ later in
  let stats2 := "POOLS: 1" ++ LF ++ threads1 ++ queue1 ++ memstats1 in
  let cl := replies PONG stats "" in
  let cl2 := replies "" stats2 "ClamAV 0.102.4/26168" in
  let t := trace (Collect (New cl)) in
  result (Collect (New cl)) = Ret tt /\
  first_threads_at stats "" "1" "2" "3"
                   (LF ++ queue1 ++ memstats1 ++ later) /\
  first_queue_at stats threads1 "4" (LF ++ memstats1 ++ later) /\
  first_memstats_at stats (threads1 ++ queue1)
                    "5" "N/A" "6" "7" "8" "1" "9.5" "10.25" (LF ++ later) /\
  observed "clamav_threads_live" t = [(inject_Z 1, [])] /\
  observed "clamav_threads_idle" t = [(inject_Z 2, [])] /\
  observed "clamav_threads_max" t = [(inject_Z 3, [])] /\
  observed "clamav_queue" t = [(inject_Z 4, [])] /\
  observed "clamav_mem_heap" t = [(inject_Z 5, [])] /\
  observed "clamav_mem_mmap" t = [] /\
  observed "clamav_mem_used" t = [(inject_Z 6, [])] /\
  observed "clamav_pools_used_mb" t = [(Qmake 19 2, [])] /\
  observed "clamav_pools_total_mb" t = [(Qmake 41 4, [])] /\
  only_converted "clamav_queue" "4" t /\
  same_first_threads stats stats2 /\
  same_first_queue stats stats2 /\
  same_first_memstats stats stats2 /\
  result (Collect (New cl)) = result (Collect (New cl2)) /\
  observed "clamav_pools_used_mb" t
  = observed "clamav_pools_used_mb" (trace (Collect (New cl2))).
Proof.
  intros threads1 queue1 memstats1 later stats stats2 cl cl2 t.
  assert (Hret : result (Collect (New cl)) = Ret tt)
    by (vm_compute; reflexivity).
  assert (Ht : first_threads_at stats "" "1" "2" "3"
                                (LF ++ queue1 ++ memstats1 ++ later)).
  { eapply first_threads_by_search.
    - repeat split; reflexivity.
    - vm_compute. reflexivity. }
  assert (Hq : first_queue_at stats threads1 "4" (LF ++ memstats1 ++ later)).
  { eapply first_queue_by_search.
    - split; reflexivity.
    - vm_compute. reflexivity. }
  assert (Hm : first_memstats_at stats (threads1 ++ queue1)
                 "5" "N/A" "6" "7" "8" "1" "9.5" "10.25" (LF ++ later)).
  { eapply first_memstats_by_search.
    - repeat split; reflexivity.
    - vm_compute. reflexivity. }
  assert (Ht2 : first_threads_at stats2 ("POOLS: 1" ++ LF) "1" "2" "3"
                                 (LF ++ queue1 ++ memstats1)).
  { eapply first_threads_by_search.
    - repeat split; reflexivity.
    - vm_compute. reflexivity. }
  assert (Hq2 : first_queue_at stats2 ("POOLS: 1" ++ LF ++ threads1) "4"
                               (LF ++ memstats1)).
  { eapply first_queue_by_search.
    - split; reflexivity.
    - vm_compute. reflexivity. }
  assert (Hm2 : first_memstats_at stats2
                  ("POOLS: 1" ++ LF ++ threads1 ++ queue1)
                  "5" "N/A" "6" "7" "8" "1" "9.5" "10.25" LF).
  { eapply first_memstats_by_search.
    - repeat split; reflexivity.
    - vm_compute. reflexivity. }
  assert (St : same_first_threads stats stats2).
  { left. exists "1", "2", "3". eexists _, _, _, _. split; eassumption. }
  assert (Sq : same_first_queue stats stats2).
  { left. exists "4". eexists _, _, _, _. split; eassumption. }
  assert (Sm : same_first_memstats stats stats2).
  { left. exists "5", "N/A", "6", "9.5", "10.25".
    eexists _, _, _, _, _, _, _, _, _, _. split; eassumption. }
  destruct (C8_first_occurrence_only cl) as (Hsent & Honly & Hsame).
  destruct (Hsent Hret) as (Hst & Hsq & Hsm).
  destruct (Hst _ _ _ _ _ Ht) as ((v1 & E1 & O1) & (v2 & E2 & O2) & (v3 & E3 & O3)).
  destruct (Hsq _ _ _ Hq) as (v4 & E4 & O4).
  destruct (Hsm _ _ _ _ _ _ _ _ _ _ Hm)
    as (O5 & O6 & O7 & (v8 & E8 & O8) & (v9 & E9 & O9)).
  cbv beta iota delta [sent_unless_na] in O5, O6, O7.
  change (String.eqb "5" "N/A") with false in O5.
  change (String.eqb "N/A" "N/A") with true in O6.
  change (String.eqb "6" "N/A") with false in O7.
  cbv beta iota in O5, O6, O7.
  destruct O5 as (v5 & E5 & O5). destruct O7 as (v7 & E7 & O7).
  vm_compute in E1. injection E1 as <-.
  vm_compute in E2. injection E2 as <-.
  vm_compute in E3. injection E3 as <-.
  vm_compute in E4. injection E4 as <-.
  vm_compute in E5. injection E5 as <-.
  vm_compute in E7. injection E7 as <-.
  vm_compute in E8. injection E8 as <-.
  vm_compute in E9. injection E9 as <-.
  destruct (Hsame cl2 St Sq Sm) as (Hr & _ & Ho).
  split; [exact Hret|]. split; [exact Ht|]. split; [exact Hq|].
  split; [exact Hm|].
  split; [exact O1|]. split; [exact O2|]. split; [exact O3|].
  split; [exact O4|]. split; [exact O5|]. split; [exact O6|].
  split; [exact O7|]. split; [exact O8|]. split; [exact O9|].
  split; [exact (proj1 (proj2 Honly) _ _ _ Hq)|].
  split; [exact St|]. split; [exact Sq|]. split; [exact Sm|].
  split; [exact Hr|].
  apply Ho; discriminate.
Defined.

(** ** The pass stays within what the model covers *)

Section Covered.
Variable cl : Client.

Lemma number_plain (s : string) : number s = true -> plain s = true.
Proof.
  unfold number, plain. intros H. apply andb_prop in H.
  now apply digits_are_plain.
Qed.

Lemma dotted_plain (s : string) : dotted s = true -> plain s = true.
Proof. unfold dotted, plain. intros H. now apply andb_prop in H. Qed.

Lemma threads_step_result (stats : string) :
  returns_or_fatal (threads_step (New cl) stats).
Proof.
  unfold returns_or_fatal.
  destruct (FindAllStringSubmatch threads_regex stats) as [|x later] eqn:E.
  - rewrite (threads_step_none cl _ E). now left.
  - destruct (threads_found_inv _ _ _ E)
      as (pre & a & b & c & post & (Ha & Hb & Hc & _) & ->).
    rewrite (threads_step_gauges cl _ _ _ _ _ _ E).
    apply run_gauges_result; [apply threads_gauges_unlabelled|].
    repeat constructor; now apply number_plain.
Qed.

Lemma queue_step_result (stats : string) :
  returns_or_fatal (queue_step (New cl) stats).
Proof.
  unfold returns_or_fatal.
  destruct (FindAllStringSubmatch queue_regex stats) as [|x later] eqn:E.
  - rewrite (queue_step_none cl _ E). now left.
  - destruct (queue_found_inv _ _ _ E) as (pre & n & post & (Hn & _) & ->).
    rewrite (queue_step_gauges cl _ _ _ _ E).
    apply run_gauges_result; repeat constructor. now apply number_plain.
Qed.

Lemma unless_na_plain (d : Desc) (s : string) :
  na_or_number s = true ->
  Forall (fun ds => plain (snd ds) = true) (unless_na d s).
Proof.
  unfold unless_na, na_or_number. intros H.
  destruct (String.eqb s "N/A"); [constructor|].
  repeat constructor. now apply number_plain.
Qed.

Lemma memstats_step_result (stats : string) :
  returns_or_fatal (memstats_step (New cl) stats).
Proof.
  unfold returns_or_fatal.
  destruct (FindAllStringSubmatch memstats_regex stats) as [|x later] eqn:E.
  - rewrite (memstats_step_none cl _ E). now left.
  - destruct (memstats_found_inv _ _ _ E)
      as (pre & h & m & u & f & r & p & pu & pt & post
          & (Hh & Hm & Hu & _ & _ & _ & Hpu & Hpt & _) & ->).
    rewrite (memstats_step_gauges cl _ _ _ _ _ _ _ _ _ _ _ E).
    apply run_gauges_result; [apply memstats_gauges_unlabelled|].
    unfold memstats_gauges.
    repeat (apply Forall_app; split); try now apply unless_na_plain.
    repeat constructor; now apply dotted_plain.
Qed.

(** No pass panics, and no pass hands [ParseFloat] a string outside the
    digits and points this development covers: a pass returns, or
    [log.Fatalf] ends the process. *)
Theorem Collect_stays_covered :
  result (Collect (New cl)) = Ret tt \/
  exists e, result (Collect (New cl)) = Fatal e.
Proof.
  rewrite Collect_result, stats_steps_result, version_step_returns.
  destruct (threads_step_result (Dial cl STATS)) as [->|[e ->]];
    [|right; now exists e].
  destruct (queue_step_result (Dial cl STATS)) as [->|[e ->]];
    [|right; now exists e].
  destruct (memstats_step_result (Dial cl STATS)) as [->|[e ->]];
    [now left | right; now exists e].
Qed.

End Covered.

(** ** The pass on the example of the source *)

Example example_pass :
  let pass := Collect (New (replies PONG example_stats "ClamAV 0.102.4/26168")) in
  result pass = Ret tt /\
  dialled (trace pass) = [PING; STATS; VERSION] /\
  map (fun m => (fqName (desc m), value m, labelValues m)) (sent (trace pass))
  = [("clamav_up", inject_Z 1, []);
     ("clamav_threads_live", inject_Z 10, []);
     ("clamav_threads_idle", inject_Z 2, []);
     ("clamav_threads_max", inject_Z 10, []);
     ("clamav_pools_used_mb", Qmake 2514794198956245 (2 ^ 41), []);
     ("clamav_pools_total_mb", Qmake 2514873363793445 (2 ^ 41), []);
     ("clamav_build_info", inject_Z 1, ["0.102.4"; "26168"])].
Proof. vm_compute. repeat split. Qed.

(** * Further properties of the collector *)

(** ** Steps that send and do nothing else *)

Section SendsOnly.
Variable P : Metric -> Prop.

Lemma sends_only_nil : sends_only P [].
Proof. constructor. Qed.

Lemma sends_only_app (t1 t2 : list event) :
  sends_only P t1 -> sends_only P t2 -> sends_only P (t1 ++ t2).
Proof. unfold sends_only. intros H1 H2. apply Forall_app. now split. Qed.

Lemma sends_only_bind {A B} (m : M A) (f : A -> M B) :
  sends_only P (trace m) -> (forall a, sends_only P (trace (f a))) ->
  sends_only P (trace (bind m f)).
Proof.
  intros H1 H2. rewrite trace_bind. apply sends_only_app; [assumption|].
  destruct (result m); auto using sends_only_nil.
Qed.

Lemma sends_only_when (b : bool) (body : M unit) :
  sends_only P (trace body) -> sends_only P (trace (when b body)).
Proof. destruct b; simpl; auto using sends_only_nil. Qed.

Lemma sends_only_at2 (ms : list (list string)) (i j : nat) :
  sends_only P (trace (at2 ms i j)).
Proof.
  unfold at2. destruct (nth_error ms i) as [m|]; [|apply sends_only_nil].
  destruct (nth_error m j); apply sends_only_nil.
Qed.

Lemma sends_only_metric (d : Desc) (t : ValueType) (v : float64)
      (labels : list string) :
  (forall m, NewConstMetric d t v labels = Some m -> P m) ->
  sends_only P (trace (m <- MustNewConstMetric d t v labels ;; send m)).
Proof.
  intros H. unfold MustNewConstMetric.
  destruct (NewConstMetric d t v labels) as [m|]; [|apply sends_only_nil].
  constructor; [now apply H | constructor].
Qed.

Lemma sends_only_gauge_of (d : Desc) (s : string) :
  (forall v m, ParseFloat s = Some (inl v) ->
               NewConstMetric d GaugeValue v [] = Some m -> P m) ->
  sends_only P (trace (gauge_of d s)).
Proof.
  intros H. unfold gauge_of, float.
  destruct (ParseFloat s) as [[v|e]|]; try apply sends_only_nil.
  rewrite bind_ret_l. apply sends_only_metric. intros m. now apply H.
Qed.

Lemma sends_only_send_gauge (d : Desc) (ms : list (list string)) (i j : nat) :
  (forall s v m, ParseFloat s = Some (inl v) ->
                 NewConstMetric d GaugeValue v [] = Some m -> P m) ->
  sends_only P (trace (send_gauge d ms i j)).
Proof.
  intros H. apply sends_only_bind; [apply sends_only_at2|].
  intros s. apply sends_only_gauge_of. apply H.
Qed.

Lemma sends_only_sent (t : list event) :
  sends_only P t -> Forall P (sent t).
Proof.
  induction 1 as [|[c|m|l] t Hx Ht IH]; simpl; try contradiction;
    constructor; assumption.
Qed.

Lemma sends_only_dialled (t : list event) : sends_only P t -> dialled t = [].
Proof.
  induction 1 as [|[c|m|l] t Hx Ht IH]; simpl; try contradiction;
    auto.
Qed.

Lemma sends_only_debugged (t : list event) : sends_only P t -> debugged t = [].
Proof.
  induction 1 as [|[c|m|l] t Hx Ht IH]; simpl; try contradiction;
    auto.
Qed.

End SendsOnly.

(** ** The values [ParseFloat] gives *)

Section Values.
Local Open Scope Z_scope.

Lemma readFloat_nonneg (s : string) :
  forall sawdot sawdigits m f m' k,
    readFloat s sawdot sawdigits m f = Some (m', k) ->
    0 <= m -> 0 <= f -> 0 <= m' /\ f <= k.
Proof.
  induction s as [|c s IH]; cbn [readFloat]; intros sawdot sawdigits m f m' k H Hm Hf.
  - destruct sawdigits; [|discriminate]. injection H as <- <-. lia.
  - destruct (Ascii.eqb c ".").
    + destruct sawdot; [discriminate|]. now apply (IH _ _ _ _ _ _ H).
    + destruct (is_digit c) eqn:Hc; [|discriminate].
      pose proof (digit_val_nonneg c Hc).
      apply IH in H; [|lia|destruct sawdot; lia].
      destruct sawdot; lia.
Qed.

Lemma round_half_even_nonneg (n d : Z) :
  0 <= n -> 0 < d -> 0 <= round_half_even n d.
Proof.
  intros Hn Hd. unfold round_half_even.
  pose proof (Z.div_pos n d Hn Hd).
  destruct (2 * (n mod d) ?= d); [destruct (Z.even (n / d))| |]; lia.
Qed.

Lemma nearest64_nonneg (n d : Z) (v : float64) :
  0 <= n -> 0 < d -> nearest64 n d = Some v -> Qle (inject_Z 0) v.
Proof.
  intros Hn Hd. unfold nearest64.
  destruct (Z.eqb_spec n 0) as [->|Hn0].
  - intros H. injection H as <-. apply Qle_refl.
  - set (q := Z.max (floor_log2 n d - 52) (-1074)).
    destruct (Z.leb_spec 0 q) as [Hq|Hq].
    + pose proof (pow2_pos q Hq) as Hp.
      destruct (2 ^ 1024 <=? _); [discriminate|].
      intros H. injection H as <-.
      pose proof (round_half_even_nonneg n (d * 2 ^ q) Hn ltac:(nia)).
      unfold Qle, inject_Z. simpl. nia.
    + intros H. injection H as <-.
      pose proof (pow2_pos (- q) ltac:(lia)) as Hp.
      pose proof (round_half_even_nonneg (n * 2 ^ (- q)) d ltac:(nia) Hd) as Hr.
      apply Qle_trans
        with (y := Qmake (round_half_even (n * 2 ^ (- q)) d) (Z.to_pos (2 ^ (- q)))).
      * unfold Qle, inject_Z. simpl. lia.
      * apply Qle_lteq. right.
        exact (Qeq_sym _ _
                 (Qred_correct (Qmake (round_half_even (n * 2 ^ (- q)) d)
                                      (Z.to_pos (2 ^ (- q)))))).
Qed.

(** No sign is ever converted: what [ParseFloat] gives is not negative. *)
Lemma ParseFloat_nonneg (s : string) (v : float64) :
  ParseFloat s = Some (inl v) -> Qle (inject_Z 0) v.
Proof.
  unfold ParseFloat. destruct (all_chars is_digit_or_dot s); [|discriminate].
  destruct (readFloat s false false 0 0) as [[m k]|] eqn:E; [|discriminate].
  apply readFloat_nonneg in E; [|lia|lia]. destruct E as [Hm Hk].
  destruct (nearest64 m (10 ^ k)) as [v'|] eqn:En; [|discriminate].
  intros H. injection H as <-.
  apply (nearest64_nonneg m (10 ^ k)); [assumption| |assumption].
  apply Z.pow_pos_nonneg; lia.
Qed.

(** An error of [ParseFloat] names the function and the text it was given. *)
Lemma ParseFloat_error (s : string) (e : NumError) :
  ParseFloat s = Some (inr e) ->
  Func e = "ParseFloat"%string /\ Num e = s /\ plain s = true.
Proof.
  unfold ParseFloat, plain. destruct (all_chars is_digit_or_dot s); [|discriminate].
  destruct (readFloat s false false 0 0) as [[m k]|].
  - destruct (nearest64 m (10 ^ k)); [discriminate|].
    intros H. injection H as <-. auto.
  - intros H. injection H as <-. auto.
Qed.

End Values.

(** ** Every metric of a pass is well formed *)

Section WellFormed.
Variable cl : Client.

Lemma gauge_well_formed (d : Desc) :
  In d (Describe (New cl)) -> variableLabels d = [] ->
  String.eqb (fqName d) "clamav_up" = false ->
  forall s v m,
    ParseFloat s = Some (inl v) ->
    NewConstMetric d GaugeValue v [] = Some m -> well_formed cl m.
Proof.
  intros Hd Hl Hn s v m Hs Hm. unfold NewConstMetric in Hm. rewrite Hl in Hm.
  injection Hm as <-. unfold well_formed, described, typed. cbn [desc labelValues valType value].
  rewrite Hl, Hn. repeat split; try assumption.
  now apply (ParseFloat_nonneg s).
Qed.

Ltac solve_sends :=
  repeat first
         [ apply sends_only_nil
         | apply sends_only_when
         | apply sends_only_send_gauge; apply gauge_well_formed;
           [simpl; tauto | reflexivity | reflexivity]
         | apply sends_only_at2
         | apply sends_only_bind; [|intros ?] ].

Lemma ping_step_sends (pong : string) :
  sends_only (well_formed cl) (trace (ping_step (New cl) pong)).
Proof.
  unfold ping_step. apply sends_only_when, sends_only_metric.
  intros m H. injection H as <-.
  repeat split; simpl; auto. discriminate.
Qed.

Lemma threads_step_sends (stats : string) :
  sends_only (well_formed cl) (trace (threads_step (New cl) stats)).
Proof. unfold threads_step. solve_sends. Qed.

Lemma queue_step_sends (stats : string) :
  sends_only (well_formed cl) (trace (queue_step (New cl) stats)).
Proof. unfold queue_step. solve_sends. Qed.

Lemma memstats_step_sends (stats : string) :
  sends_only (well_formed cl) (trace (memstats_step (New cl) stats)).
Proof. unfold memstats_step. solve_sends. Qed.

Lemma stats_steps_sends (stats : string) :
  sends_only (well_formed cl) (trace (stats_steps (New cl) stats)).
Proof.
  unfold stats_steps.
  apply sends_only_bind; [apply threads_step_sends|]. intros _.
  apply sends_only_bind; [apply queue_step_sends|]. intros _.
  apply memstats_step_sends.
Qed.

Lemma version_step_sends (version : string) :
  sends_only (well_formed cl) (trace (version_step (New cl) version)).
Proof.
  destruct (FindAllStringSubmatch version_regex version) as [|x later] eqn:E.
  - rewrite (version_step_none cl _ E). apply sends_only_nil.
  - destruct (version_found_inv _ _ _ E) as (pre & n & w & e & d & post & _ & ->).
    rewrite (version_step_first cl _ _ _ _ _ _ _ E).
    constructor; [|constructor].
    repeat split; simpl; auto 12. discriminate.
Qed.

(** A pass, event by event: the exchanges, the debug line, and between
    them steps that only send well-formed metrics. *)
Lemma Collect_shape :
  exists t1 t2 t3,
    trace (Collect (New cl))
    = ([EvDial PING] ++ t1
       ++ [EvDial STATS; EvDebug ("Stats: " ++ Dial cl STATS)]
       ++ t2 ++ t3)%list /\
    sends_only (well_formed cl) t1 /\
    sends_only (well_formed cl) t2 /\
    (t3 = [] \/
     exists t4, t3 = EvDial VERSION :: t4 /\ sends_only (well_formed cl) t4).
Proof.
  exists (trace (ping_step (New cl) (Dial cl PING))),
         (trace (stats_steps (New cl) (Dial cl STATS))).
  eexists. split; [apply Collect_trace|].
  split; [apply ping_step_sends|]. split; [apply stats_steps_sends|].
  destruct (returns _); [right | now left].
  eexists. split; [reflexivity | apply version_step_sends].
Qed.

Lemma Collect_sent_well_formed :
  Forall (well_formed cl) (sent (trace (Collect (New cl)))).
Proof.
  destruct Collect_shape as (t1 & t2 & t3 & -> & H1 & H2 & H3).
  cbn [app sent]. rewrite sent_app. cbn [app sent]. rewrite sent_app.
  apply Forall_app. split; [now apply sends_only_sent|].
  apply Forall_app. split; [now apply sends_only_sent|].
  destruct H3 as [->|(t4 & -> & H4)]; [constructor|].
  cbn [sent]. now apply sends_only_sent.
Qed.

End WellFormed.

(** X1.  [Describe] and [Collect] agree.  The eleven descriptors that [Describe]
    announces have eleven different names, and every metric a pass sends
    carries one of these descriptors, with as many label values as the
    descriptor has variable labels: what a registry checks of a collector. *)
Theorem X1_Collect_sends_what_Describe_announces (cl : Client) :
  List.length (Describe (New cl)) = 11%nat /\
  NoDup (map fqName (Describe (New cl))) /\
  forall m,
    In m (sent (trace (Collect (New cl)))) ->
    In (desc m) (Describe (New cl)) /\
    List.length (labelValues m) = List.length (variableLabels (desc m)).
Proof.
  split; [reflexivity|]. split.
  - simpl. repeat constructor; simpl; intuition discriminate.
  - intros m Hm.
    pose proof (Collect_sent_well_formed cl) as H.
    rewrite Forall_forall in H. exact (proj1 (H m Hm)).
Qed.

Lemma X1_Collect_sends_what_Describe_announces_witness :
  let cl := replies PONG example_stats "ClamAV 0.102.4/26168" in
  let m := {| desc := buildInfo (New cl); valType := GaugeValue;
              value := inject_Z 1; labelValues := ["0.102.4"; "26168"] |} in
  In m (sent (trace (Collect (New cl)))) /\
  In (desc m) (Describe (New cl)) /\
  List.length (labelValues m) = List.length (variableLabels (desc m)).
Proof.
  intros cl m.
  assert (Hm : In m (sent (trace (Collect (New cl)))))
    by (vm_compute; tauto).
  split; [exact Hm|].
  exact (proj2 (proj2 (X1_Collect_sends_what_Describe_announces cl)) m Hm).
Defined.

(** X2.  The liveness metric is the one counter of a pass, every other metric
    is a gauge, and no value sent is negative: the patterns capture no
    sign. *)
Theorem X2_Collect_types_and_signs (cl : Client) (m : Metric) :
  In m (sent (trace (Collect (New cl)))) ->
  (fqName (desc m) = "clamav_up" -> valType m = CounterValue) /\
  (fqName (desc m) <> "clamav_up" -> valType m = GaugeValue) /\
  Qle (inject_Z 0) (value m).
Proof.
  intros Hm.
  pose proof (Collect_sent_well_formed cl) as H.
  rewrite Forall_forall in H. destruct (H m Hm) as [_ [Ht Hv]].
  repeat split; [| |exact Hv].
  - intros E. rewrite Ht, E. reflexivity.
  - intros E. apply String.eqb_neq in E. rewrite Ht, E. reflexivity.
Qed.

Lemma X2_Collect_types_and_signs_witness :
  let cl := replies PONG example_stats "ClamAV 0.102.4/26168" in
  let m := {| desc := up (New cl); valType := CounterValue;
              value := inject_Z 1; labelValues := [] |} in
  In m (sent (trace (Collect (New cl)))) /\
  valType m = CounterValue /\ Qle (inject_Z 0) (value m).
Proof.
  intros cl m.
  assert (Hm : In m (sent (trace (Collect (New cl)))))
    by (vm_compute; tauto).
  destruct (X2_Collect_types_and_signs cl m Hm) as (H1 & _ & H3).
  split; [exact Hm|]. split; [exact (H1 eq_refl) | exact H3].
Defined.

(** ** The log of a pass *)

Lemma debugged_app (t1 t2 : list event) :
  debugged (t1 ++ t2) = (debugged t1 ++ debugged t2)%list.
Proof.
  induction t1 as [|[c|m|l] t1 IH]; simpl; try assumption; [reflexivity|].
  now rewrite IH.
Qed.

Lemma Collect_debugged (cl : Client) :
  debugged (trace (Collect (New cl))) = ["Stats: " ++ Dial cl STATS].
Proof.
  destruct (Collect_shape cl) as (t1 & t2 & t3 & E & H1 & H2 & H3).
  rewrite E. cbn [app debugged]. rewrite debugged_app.
  rewrite (sends_only_debugged _ _ H1). cbn [app debugged].
  rewrite debugged_app, (sends_only_debugged _ _ H2).
  destruct H3 as [->|(t4 & -> & H4)]; [reflexivity|].
  cbn [app debugged]. now rewrite (sends_only_debugged _ _ H4).
Qed.

(** X3.  Every pass calls [log.Debug] once, with the STATS reply as it came
    behind "Stats: ".  The call comes right after the STATS exchange, before
    the pass looks at the reply, so it is made also in a pass that a
    conversion ends.  Nothing of the other replies is logged. *)
Theorem X3_Collect_logs_the_stats_reply (cl : Client) :
  debugged (trace (Collect (New cl))) = ["Stats: " ++ Dial cl STATS] /\
  exists before after,
    trace (Collect (New cl))
    = (before ++ [EvDial STATS; EvDebug ("Stats: " ++ Dial cl STATS)] ++ after)%list /\
    sent before = sent (trace (ping_step (New cl) (Dial cl PING))) /\
    dialled before = [PING].
Proof.
  split; [apply Collect_debugged|].
  exists ([EvDial PING] ++ trace (ping_step (New cl) (Dial cl PING)))%list.
  eexists. split.
  - rewrite Collect_trace. rewrite <- app_assoc. reflexivity.
  - split; [reflexivity|]. cbn [app dialled].
    now rewrite ping_step_no_dial.
Qed.

(** ** The order of the sends *)

Section Subsequences.
Context {A : Type}.

Lemma Subseq_nil (l : list A) : Subseq [] l.
Proof. induction l; constructor; assumption. Qed.

Lemma Subseq_refl (l : list A) : Subseq l l.
Proof. induction l; constructor; assumption. Qed.

Lemma Subseq_app (l1 l2 k1 k2 : list A) :
  Subseq l1 k1 -> Subseq l2 k2 -> Subseq (l1 ++ l2) (k1 ++ k2).
Proof. induction 1; simpl; intros H2; try constructor; auto. Qed.

Lemma Subseq_trans (l1 l2 l3 : list A) :
  Subseq l1 l2 -> Subseq l2 l3 -> Subseq l1 l3.
Proof.
  intros H12 H23. revert l1 H12.
  induction H23 as [|x l2 l3 H IH|x l2 l3 H IH]; intros l1 H12.
  - exact H12.
  - inversion H12; subst; constructor; auto.
  - constructor. auto.
Qed.

Lemma Subseq_In (l1 l2 : list A) (x : A) : Subseq l1 l2 -> In x l1 -> In x l2.
Proof.
  induction 1 as [|y l1 l2 H IH|y l1 l2 H IH]; simpl; intros Hx; auto.
  destruct Hx; auto.
Qed.

Lemma Subseq_NoDup (l1 l2 : list A) : Subseq l1 l2 -> NoDup l2 -> NoDup l1.
Proof.
  induction 1 as [|y l1 l2 H IH|y l1 l2 H IH]; intros Hn; [assumption| |].
  - inversion Hn; subst. constructor; [|auto].
    intros Hy. eauto using Subseq_In.
  - inversion Hn; subst. auto.
Qed.

End Subsequences.

Section Order.
Variable cl : Client.

(** A sequence of gauges sends on the names of the sequence, in order, up
    to the first conversion that fails. *)
Lemma run_gauges_names (l : list (Desc * string)) :
  unlabelled l ->
  Subseq (names_sent (trace (run_gauges l)))
         (map (fun ds => fqName (fst ds)) l).
Proof.
  intros Hl. induction Hl as [|[d s] l Hd Hl IH]; [constructor|].
  cbn [run_gauges map fst]. simpl in Hd.
  rewrite trace_bind, names_sent_app, (gauge_of_eval d s Hd).
  destruct (ParseFloat s) as [[v|e]|]; cbn [trace result fst snd names_sent].
  - unfold names_sent at 1. cbn [sent gauge map desc app]. now constructor.
  - apply Subseq_nil.
  - apply Subseq_nil.
Qed.

Lemma ping_step_names (pong : string) :
  Subseq (names_sent (trace (ping_step (New cl) pong))) ["clamav_up"].
Proof.
  unfold ping_step. destruct (String.eqb pong PONG); cbn; repeat constructor.
Qed.

Lemma threads_step_names (stats : string) :
  Subseq (names_sent (trace (threads_step (New cl) stats)))
         ["clamav_threads_live"; "clamav_threads_idle"; "clamav_threads_max"].
Proof.
  destruct (FindAllStringSubmatch threads_regex stats) as [|x later] eqn:E.
  - rewrite (threads_step_none cl _ E). apply Subseq_nil.
  - destruct (threads_found_inv _ _ _ E) as (pre & a & b & c & post & _ & ->).
    rewrite (threads_step_gauges cl _ _ _ _ _ _ E).
    apply (run_gauges_names _ (threads_gauges_unlabelled cl a b c)).
Qed.

Lemma queue_step_names (stats : string) :
  Subseq (names_sent (trace (queue_step (New cl) stats))) ["clamav_queue"].
Proof.
  destruct (FindAllStringSubmatch queue_regex stats) as [|x later] eqn:E.
  - rewrite (queue_step_none cl _ E). apply Subseq_nil.
  - destruct (queue_found_inv _ _ _ E) as (pre & n & post & _ & ->).
    rewrite (queue_step_gauges cl _ _ _ _ E).
    apply (run_gauges_names [(queue (New cl), n)]). repeat constructor.
Qed.

Lemma memstats_step_names (stats : string) :
  Subseq (names_sent (trace (memstats_step (New cl) stats)))
         ["clamav_mem_heap"; "clamav_mem_mmap"; "clamav_mem_used";
          "clamav_pools_used_mb"; "clamav_pools_total_mb"].
Proof.
  destruct (FindAllStringSubmatch memstats_regex stats) as [|x later] eqn:E.
  - rewrite (memstats_step_none cl _ E). apply Subseq_nil.
  - destruct (memstats_found_inv _ _ _ E)
      as (pre & h & m & u & f & r & p & pu & pt & post & _ & ->).
    rewrite (memstats_step_gauges cl _ _ _ _ _ _ _ _ _ _ _ E).
    eapply Subseq_trans;
      [apply (run_gauges_names _ (memstats_gauges_unlabelled cl h m u pu pt))|].
    unfold memstats_gauges, unless_na.
    destruct (String.eqb h "N/A"), (String.eqb m "N/A"), (String.eqb u "N/A");
      cbn; repeat first [apply SubseqNil | apply SubseqTake | apply SubseqSkip].
Qed.

Lemma version_step_names (version : string) :
  Subseq (names_sent (trace (version_step (New cl) version)))
         ["clamav_build_info"].
Proof.
  destruct (FindAllStringSubmatch version_regex version) as [|x later] eqn:E.
  - rewrite (version_step_none cl _ E). apply Subseq_nil.
  - destruct (version_found_inv _ _ _ E) as (pre & n & w & e & d & post & _ & ->).
    rewrite (version_step_first cl _ _ _ _ _ _ _ E). cbn. repeat constructor.
Qed.

Lemma Collect_names :
  Subseq (names_sent (trace (Collect (New cl)))) collect_order.
Proof.
  rewrite Collect_trace, stats_steps_trace.
  change (names_sent ([EvDial PING] ++ ?t)) with (names_sent t).
  rewrite names_sent_app.
  change (names_sent ([EvDial STATS; EvDebug ?l] ++ ?t)) with (names_sent t).
  rewrite !names_sent_app.
  change collect_order
    with (["clamav_up"]
          ++ (["clamav_threads_live"; "clamav_threads_idle"; "clamav_threads_max"]
              ++ ["clamav_queue"]
              ++ ["clamav_mem_heap"; "clamav_mem_mmap"; "clamav_mem_used";
                  "clamav_pools_used_mb"; "clamav_pools_total_mb"])
          ++ ["clamav_build_info"])%list.
  apply Subseq_app; [apply ping_step_names|].
  apply Subseq_app.
  - apply Subseq_app; [apply threads_step_names|].
    destruct (returns (threads_step _ _)); [|apply Subseq_nil].
    rewrite names_sent_app.
    apply Subseq_app; [apply queue_step_names|].
    destruct (returns (queue_step _ _)); [|apply Subseq_nil].
    apply memstats_step_names.
  - destruct (returns (stats_steps _ _)); [|apply Subseq_nil].
    apply version_step_names.
Qed.

End Order.

Lemma observed_length (name : string) (t : list event) :
  NoDup (names_sent t) -> (List.length (observed name t) <= 1)%nat.
Proof.
  unfold names_sent, observed. rewrite length_map.
  induction (sent t) as [|m l IH]; simpl; intros Hn; [lia|].
  inversion Hn as [|? ? Hm Hl]; subst.
  destruct (String.eqb_spec (fqName (desc m)) name) as [E|E]; [|auto].
  simpl. assert (H : filter (fun m0 => String.eqb (fqName (desc m0)) name) l = []).
  { clear IH Hl Hn. induction l as [|m' l IH]; [reflexivity|]. simpl.
    destruct (String.eqb_spec (fqName (desc m')) name) as [E'|E'].
    - exfalso. apply Hm. left. congruence.
    - apply IH. intros Hin. apply Hm. now right. }
  rewrite H. simpl. lia.
Qed.

(** X4.  The sends of a pass follow one fixed order -- up, the three thread
    gauges, queue, heap, mmap, used, pools_used, pools_total, build_info --
    with some of them left out; so no pass sends twice on a metric, and a
    metric has at most one observation. *)
Theorem X4_Collect_sends_in_order_at_most_once (cl : Client) :
  Subseq (names_sent (trace (Collect (New cl)))) collect_order /\
  NoDup (names_sent (trace (Collect (New cl)))) /\
  forall name,
    (List.length (observed name (trace (Collect (New cl)))) <= 1)%nat.
Proof.
  assert (H : NoDup (names_sent (trace (Collect (New cl))))).
  { apply (Subseq_NoDup _ _ (Collect_names cl)).
    unfold collect_order. repeat constructor; simpl; intuition discriminate. }
  split; [apply Collect_names|]. split; [exact H|].
  intros name. now apply observed_length.
Qed.

(** ** How a pass can end *)

Section Substrings.

Lemma substring_here (s t : string) : substring s (s ++ t).
Proof. now exists "", t. Qed.

Lemma substring_skip (p s t : string) : substring s t -> substring s (p ++ t).
Proof.
  intros (pre & post & ->). exists (p ++ pre), post. now rewrite append_assoc.
Qed.

End Substrings.

Ltac solve_substring :=
  solve [ repeat first [ apply substring_here | apply substring_skip ] ].

Section Ends.
Variable cl : Client.

Lemma threads_substrings (stats pre a b c post : string) :
  threads_at stats pre a b c post ->
  substring a stats /\ substring b stats /\ substring c stats.
Proof.
  intros (_ & _ & _ & ->). unfold threads_line. rewrite !append_assoc.
  repeat split; solve_substring.
Qed.

Lemma queue_substring (stats pre n post : string) :
  queue_at stats pre n post -> substring n stats.
Proof.
  intros (_ & ->). unfold queue_line. rewrite !append_assoc. solve_substring.
Qed.

Lemma memstats_substrings (stats pre h m u f r p pu pt post : string) :
  memstats_at stats pre h m u f r p pu pt post ->
  substring h stats /\ substring m stats /\ substring u stats /\
  substring pu stats /\ substring pt stats.
Proof.
  intros (_ & _ & _ & _ & _ & _ & _ & _ & ->).
  unfold memstats_line. rewrite !append_assoc.
  repeat split; solve_substring.
Qed.

(** A sequence of gauges that [log.Fatalf] ends: the error is that of the
    conversion of one of its texts. *)
Lemma run_gauges_fatal (l : list (Desc * string)) (e : NumError) :
  unlabelled l -> result (run_gauges l) = Fatal e ->
  exists d s, In (d, s) l /\ ParseFloat s = Some (inr e).
Proof.
  intros Hl. induction Hl as [|[d s] l Hd Hl IH]; intros H; [discriminate|].
  cbn [run_gauges] in H. simpl in Hd.
  rewrite result_bind, (gauge_of_eval d s Hd) in H.
  destruct (ParseFloat s) as [[v|e']|] eqn:Es; cbn [result snd] in H;
    try discriminate.
  - destruct (IH H) as (d' & s' & Hin & Hs'). exists d', s'. split; [now right | exact Hs'].
  - injection H as ->. exists d, s. split; [now left | exact Es].
Qed.

(** What a step of the STATS reply converts, when [log.Fatalf] ends it. *)
Lemma threads_step_fatal (stats : string) (e : NumError) :
  result (threads_step (New cl) stats) = Fatal e ->
  exists s, ParseFloat s = Some (inr e) /\ substring s stats /\ number s = true.
Proof.
  destruct (FindAllStringSubmatch threads_regex stats) as [|x later] eqn:E.
  - rewrite (threads_step_none cl _ E). discriminate.
  - destruct (threads_found_inv _ _ _ E)
      as (pre & a & b & c & post & Hat & ->).
    rewrite (threads_step_gauges cl _ _ _ _ _ _ E). intros H.
    apply run_gauges_fatal in H; [|apply threads_gauges_unlabelled].
    destruct H as (d & s & Hin & Hs).
    destruct (threads_substrings _ _ _ _ _ _ Hat) as (Sa & Sb & Sc).
    destruct Hat as (Na & Nb & Nc & _).
    exists s. split; [exact Hs|].
    simpl in Hin. destruct Hin as [Hin|[Hin|[Hin|[]]]];
      injection Hin as _ <-; auto.
Qed.

Lemma queue_step_fatal (stats : string) (e : NumError) :
  result (queue_step (New cl) stats) = Fatal e ->
  exists s, ParseFloat s = Some (inr e) /\ substring s stats /\ number s = true.
Proof.
  destruct (FindAllStringSubmatch queue_regex stats) as [|x later] eqn:E.
  - rewrite (queue_step_none cl _ E). discriminate.
  - destruct (queue_found_inv _ _ _ E) as (pre & n & post & Hat & ->).
    rewrite (queue_step_gauges cl _ _ _ _ E). intros H.
    apply run_gauges_fatal in H; [|repeat constructor].
    destruct H as (d & s & Hin & Hs).
    pose proof (queue_substring _ _ _ _ Hat) as Sn. destruct Hat as (Nn & _).
    exists s. split; [exact Hs|].
    destruct Hin as [Hin|[]]. injection Hin as _ <-. auto.
Qed.

Lemma unless_na_number (d d' : Desc) (h s : string) :
  na_or_number h = true -> In (d', s) (unless_na d h) ->
  s = h /\ number h = true.
Proof.
  unfold unless_na, na_or_number. intros Hh Hin.
  destruct (String.eqb h "N/A"); [contradiction|].
  destruct Hin as [Hin|[]]. injection Hin as _ <-. auto.
Qed.

Lemma memstats_step_fatal (stats : string) (e : NumError) :
  result (memstats_step (New cl) stats) = Fatal e ->
  exists s,
    ParseFloat s = Some (inr e) /\ substring s stats /\
    (number s = true \/
     exists pre h m u f r p pu pt post,
       memstats_at stats pre h m u f r p pu pt post /\ (s = pu \/ s = pt)).
Proof.
  destruct (FindAllStringSubmatch memstats_regex stats) as [|x later] eqn:E.
  - rewrite (memstats_step_none cl _ E). discriminate.
  - destruct (memstats_found_inv _ _ _ E)
      as (pre & h & m & u & f & r & p & pu & pt & post & Hat & ->).
    rewrite (memstats_step_gauges cl _ _ _ _ _ _ _ _ _ _ _ E). intros H.
    apply run_gauges_fatal in H; [|apply memstats_gauges_unlabelled].
    destruct H as (d & s & Hin & Hs).
    destruct (memstats_substrings _ _ _ _ _ _ _ _ _ _ _ Hat)
      as (Sh & Sm & Su & Spu & Spt).
    pose proof Hat as (Nh & Nm & Nu & _).
    exists s. split; [exact Hs|].
    unfold memstats_gauges in Hin.
    repeat (apply in_app_or in Hin; destruct Hin as [Hin|Hin]).
    + destruct (unless_na_number _ _ _ _ Nh Hin) as [-> ?]. auto.
    + destruct (unless_na_number _ _ _ _ Nm Hin) as [-> ?]. auto.
    + destruct (unless_na_number _ _ _ _ Nu Hin) as [-> ?]. auto.
    + split; [|right; exists pre, h, m, u, f, r, p, pu, pt, post].
      * destruct Hin as [Hin|[Hin|[]]]; injection Hin as _ <-; assumption.
      * split; [exact Hat|].
        destruct Hin as [Hin|[Hin|[]]]; injection Hin as _ <-; auto.
Qed.

Lemma Collect_fatal (e : NumError) :
  result (Collect (New cl)) = Fatal e ->
  exists s,
    ParseFloat s = Some (inr e) /\ substring s (Dial cl STATS) /\
    (number s = true \/
     exists pre h m u f r p pu pt post,
       memstats_at (Dial cl STATS) pre h m u f r p pu pt post /\
       (s = pu \/ s = pt)).
Proof.
  rewrite Collect_result, stats_steps_result, version_step_returns.
  destruct (result (threads_step (New cl) (Dial cl STATS))) as [[]|e'| |] eqn:Et;
    try discriminate.
  - destruct (result (queue_step (New cl) (Dial cl STATS))) as [[]|e'| |] eqn:Eq;
      try discriminate.
    + destruct (result (memstats_step (New cl) (Dial cl STATS))) as [[]|e'| |] eqn:Em;
        try discriminate.
      intros H. injection H as ->. now apply memstats_step_fatal.
    + intros H. injection H as ->.
      destruct (queue_step_fatal _ _ Eq) as (s & ? & ? & ?). exists s. auto.
  - intros H. injection H as ->.
    destruct (threads_step_fatal _ _ Et) as (s & ? & ? & ?). exists s. auto.
Qed.

End Ends.

(** X5.  A pass never panics -- no index out of range, no refused metric -- and
    the liveness and version replies cannot end it.  The one way it ends
    other than by returning is [log.Fatalf] in the closure [float]; the
    error is then a [ParseFloat] error, and the text it names is a run of
    digits and points taken from the STATS reply. *)
Theorem X5_Collect_ends_by_returning_or_in_float (cl : Client) :
  result (Collect (New cl)) = Ret tt \/
  exists s cause,
    result (Collect (New cl))
    = Fatal {| Func := "ParseFloat"; Num := s; Cause := cause |} /\
    substring s (Dial cl STATS) /\ plain s = true /\
    dialled (trace (Collect (New cl))) = [PING; STATS].
Proof.
  destruct (Collect_stays_covered cl) as [H|[e H]]; [now left | right].
  destruct (Collect_fatal cl e H) as (s & Hs & Hsub & _).
  destruct (ParseFloat_error s e Hs) as (Hf & Hn & Hp).
  exists s, (Cause e). split; [|split; [exact Hsub|split; [exact Hp|]]].
  - rewrite H. f_equal. destruct e as [f n c]. simpl in *. now subst.
  - destruct (exchanges_in_order cl) as [[_ Hr]|[Hd _]]; [congruence | exact Hd].
Qed.

(** ** The conversions that fail *)

Section Failures.
Local Open Scope Z_scope.

(** A run of digits is never a syntax error: it can only be out of
    range. *)
Lemma ParseFloat_number_error (s : string) (e : NumError) :
  number s = true -> ParseFloat s = Some (inr e) -> Cause e = ErrRange.
Proof.
  unfold number. intros H. apply andb_prop in H. destruct H as [Hne Hd].
  unfold ParseFloat. rewrite (digits_are_plain s Hd).
  rewrite (readFloat_digits s Hd), Hne. cbn [orb].
  destruct (nearest64 _ _); [discriminate|].
  intros H. now injection H as <-.
Qed.

(** The scanning loop gives up on a second point, and on a text without
    a digit. *)
Lemma readFloat_none (s : string) :
  forall sawdot sawdigits m f,
    all_chars is_digit_or_dot s = true ->
    readFloat s sawdot sawdigits m f = None ->
    (2 <= (if sawdot then 1 else 0) + count_char "." s)%nat \/
    (sawdigits = false /\ no_digit s = true).
Proof.
  induction s as [|c s IH]; cbn [readFloat all_chars];
    intros sawdot sawdigits m f Hp H.
  - destruct sawdigits; [discriminate|]. now right.
  - apply andb_prop in Hp. destruct Hp as [Hc Hs].
    destruct (Ascii.eqb_spec c ".") as [->|Hne].
    + change (count_char "." (String "." s)) with (S (count_char "." s)).
      destruct sawdot; [left; lia|].
      destruct (IH _ _ _ _ Hs H) as [H2|[H2 H3]]; [left; lia | right].
      split; [exact H2|]. exact H3.
    + assert (Hd : is_digit c = true).
      { unfold is_digit_or_dot in Hc. apply orb_prop in Hc.
        destruct Hc as [Hc|Hc]; [exact Hc|].
        apply Ascii.eqb_eq in Hc. contradiction. }
      rewrite Hd in H.
      destruct (IH _ _ _ _ Hs H) as [H2|[H2 _]]; [left | discriminate].
      cbn [count_char]. apply Ascii.eqb_neq in Hne. rewrite Hne. exact H2.
Qed.

Lemma ParseFloat_syntax_error (s : string) (e : NumError) :
  ParseFloat s = Some (inr e) -> Cause e = ErrSyntax ->
  (2 <= count_char "." s)%nat \/ no_digit s = true.
Proof.
  unfold ParseFloat. destruct (all_chars is_digit_or_dot s) eqn:Hp; [|discriminate].
  destruct (readFloat s false false 0 0) as [[m k]|] eqn:E.
  - destruct (nearest64 _ _); [discriminate|].
    intros H. injection H as <-. discriminate.
  - intros _ _. destruct (readFloat_none s _ _ _ _ Hp E) as [H|[_ H]]; auto.
Qed.

End Failures.

(** X6.  A syntax error can come from the two pools values only.  When a pass
    ends on a syntax error, the STATS reply has a whole MEMSTATS line and
    the text that did not convert is its pools_used or its pools_total
    value, with two points or more, or with no digit.  The numbers of the
    THREADS and QUEUE lines and the heap, mmap and used values can fail by
    their size alone. *)
Theorem X6_syntax_errors_come_from_pools_values (cl : Client) (e : NumError) :
  result (Collect (New cl)) = Fatal e -> Cause e = ErrSyntax ->
  (exists pre h m u f r p pu pt post,
      memstats_at (Dial cl STATS) pre h m u f r p pu pt post /\
      (Num e = pu \/ Num e = pt)) /\
  ((2 <= count_char "." (Num e))%nat \/ no_digit (Num e) = true).
Proof.
  intros H Hc.
  destruct (Collect_fatal cl e H) as (s & Hs & _ & Hkind).
  destruct (ParseFloat_error s e Hs) as (_ & Hn & _). rewrite Hn.
  split; [|exact (ParseFloat_syntax_error s e Hs Hc)].
  destruct Hkind as [Hnum|Hpools]; [|exact Hpools].
  rewrite (ParseFloat_number_error s e Hnum Hs) in Hc. discriminate.
Qed.

Lemma X6_syntax_errors_come_from_pools_values_witness :
  let cl := replies PONG two_points_stats "" in
  result (Collect (New cl)) = Fatal (syntaxError "1.2.3") /\
  (exists pre h m u f r p pu pt post,
      memstats_at two_points_stats pre h m u f r p pu pt post /\
      ("1.2.3" = pu \/ "1.2.3" = pt)) /\
  ((2 <= count_char "." "1.2.3")%nat \/ no_digit "1.2.3" = true).
Proof.
  intros cl.
  assert (H : result (Collect (New cl)) = Fatal (syntaxError "1.2.3"))
    by (vm_compute; reflexivity).
  split; [exact H|].
  exact (X6_syntax_errors_come_from_pools_values cl (syntaxError "1.2.3") H eq_refl).
Defined.

(** ** Replies that no conversion can end *)

Section Total.
Local Open Scope Z_scope.

Lemma digit_val_le (c : ascii) : is_digit c = true -> digit_val c <= 9.
Proof. unfold is_digit, digit_val. lia. Qed.

Lemma readFloat_bound (s : string) :
  forall sawdot sawdigits m f m' k,
    readFloat s sawdot sawdigits m f = Some (m', k) ->
    0 <= m -> m' < (m + 1) * 10 ^ Z.of_nat (length s).
Proof.
  induction s as [|c s IH]; intros sawdot sawdigits m f m' k H Hm.
  - cbn [readFloat] in H. destruct sawdigits; [|discriminate].
    injection H as <- <-. simpl. lia.
  - cbn [readFloat] in H.
    replace (Z.of_nat (length (String c s))) with (Z.of_nat (length s) + 1)
      by (cbn [length]; lia).
    rewrite Z.pow_add_r by lia. change (10 ^ 1) with 10.
    assert (Hp : 0 < 10 ^ Z.of_nat (length s)) by (apply Z.pow_pos_nonneg; lia).
    destruct (Ascii.eqb c ".").
    + destruct sawdot; [discriminate|].
      specialize (IH _ _ _ _ _ _ H Hm). nia.
    + destruct (is_digit c) eqn:Hc; [|discriminate].
      pose proof (digit_val_nonneg c Hc). pose proof (digit_val_le c Hc).
      specialize (IH _ _ _ _ _ _ H ltac:(lia)). nia.
Qed.

(** Below 10^308 every quotient rounds to a finite binary64. *)
Lemma nearest64_total (n d : Z) :
  0 <= n -> 0 < d -> n < 10 ^ 308 * d -> nearest64 n d <> None.
Proof.
  intros Hn Hd Hlt. unfold nearest64.
  destruct (Z.eqb_spec n 0) as [|Hn0]; [discriminate|].
  destruct (floor_log2_spec n d ltac:(lia) Hd) as [Hlo _].
  set (e := floor_log2 n d) in *.
  set (q := Z.max (e - 52) (-1074)) in *.
  destruct (Z.leb_spec 0 q) as [Hq|Hq]; [|discriminate].
  assert (Eq : e = q + 52) by (unfold q in *; lia).
  pose proof (pow2_pos q Hq) as Hp.
  set (D := d * 2 ^ q) in *.
  assert (HD : 0 < D) by (unfold D; nia).
  destruct (round_half_even_spec n D HD) as [Hr _].
  set (m := round_half_even n D) in *. cbv zeta in Hr.
  destruct (Z.leb_spec (2 ^ 1024) (m * 2 ^ q)) as [Hbig|]; [|discriminate].
  exfalso.
  unfold ge_pow2 in Hlo. rewrite Eq in Hlo.
  destruct (Z.leb_spec 0 (q + 52)); [|lia].
  apply Z.leb_le in Hlo. rewrite Z.pow_add_r in Hlo by lia.
  assert (HK : 10 ^ 308 * (2 * 2 ^ 52 + 1) < 2 * 2 ^ 1024 * 2 ^ 52)
    by (vm_compute; reflexivity).
  assert (H1 : d * 2 ^ 1024 <= m * D) by (unfold D; nia).
  assert (H2 : 2 * (m * D) <= 2 * n + D) by lia.
  assert (H3 : D * 2 ^ 52 <= n) by (unfold D; lia).
  assert (Hb : 0 < 2 ^ 52) by (apply pow2_pos; lia).
  generalize dependent (10 ^ 308). generalize dependent (2 ^ 1024).
  generalize dependent (2 ^ 52). intros b Hlo H3 Hb a Hbig H1 K Hlt HK.
  assert (H4 : 2 * (d * a) * b <= (2 * n + D) * b) by nia.
  assert (H5 : (2 * n + D) * b <= n * (2 * b + 1)) by nia.
  assert (H6 : n * (2 * b + 1) < K * d * (2 * b + 1)) by nia.
  assert (H7 : K * d * (2 * b + 1) < 2 * a * b * d) by nia.
  nia.
Qed.

Lemma decimal_parts (s : string) :
  decimal s = true ->
  plain s = true /\ no_digit s = false /\ (count_char "." s <= 1)%nat /\
  (length s <= 308)%nat.
Proof.
  unfold decimal. intros H.
  apply andb_prop in H. destruct H as [H H4].
  apply andb_prop in H. destruct H as [H H3].
  apply andb_prop in H. destruct H as [H1 H2].
  apply Nat.leb_le in H3, H4. apply negb_true_iff in H2. auto.
Qed.

(** [ParseFloat] converts every decimal numeral. *)
Lemma ParseFloat_decimal (s : string) :
  decimal s = true -> exists v, ParseFloat s = Some (inl v).
Proof.
  intros H. destruct (decimal_parts s H) as (Hp & Hd & Hc & Hl).
  unfold ParseFloat. unfold plain in Hp. rewrite Hp.
  destruct (readFloat s false false 0 0) as [[m k]|] eqn:E.
  - pose proof (readFloat_nonneg s _ _ _ _ _ _ E ltac:(lia) ltac:(lia)) as [Hm Hk].
    pose proof (readFloat_bound s _ _ _ _ _ _ E ltac:(lia)) as Hb.
    assert (Hk' : 0 < 10 ^ k) by (apply Z.pow_pos_nonneg; lia).
    assert (Hle : 10 ^ Z.of_nat (length s) <= 10 ^ 308)
      by (apply Z.pow_le_mono_r; lia).
    destruct (nearest64 m (10 ^ k)) as [v|] eqn:En; [now exists v|].
    exfalso. apply (nearest64_total m (10 ^ k)); [lia | lia | | exact En].
    assert (0 < 10 ^ 308) by (apply Z.pow_pos_nonneg; lia). nia.
  - exfalso. destruct (readFloat_none s _ _ _ _ Hp E) as [H2|[_ H2]].
    + simpl in H2. lia.
    + congruence.
Qed.

Lemma digits_no_point (s : string) :
  all_chars is_digit s = true -> count_char "." s = 0%nat.
Proof.
  induction s as [|c s IH]; [reflexivity|]. cbn [all_chars count_char].
  intros H. apply andb_prop in H. destruct H as [Hc Hs].
  now rewrite (digit_not_dot c Hc), (IH Hs).
Qed.

Lemma number_decimal (s : string) :
  number s = true -> (length s <= 308)%nat -> decimal s = true.
Proof.
  unfold number, decimal. intros H Hl.
  apply andb_prop in H. destruct H as [Hne Hd].
  rewrite (proj2 (Nat.leb_le _ _) Hl), andb_true_r.
  unfold plain. rewrite (digits_are_plain s Hd), (digits_no_point s Hd).
  cbn [andb Nat.leb]. rewrite andb_true_r.
  destruct s as [|c s]; [discriminate|].
  simpl in Hd. apply andb_prop in Hd. destruct Hd as [Hc _].
  unfold no_digit. cbn [all_chars]. now rewrite Hc.
Qed.

End Total.

Section Normal.
Variable cl : Client.

Lemma run_gauges_converts (l : list (Desc * string)) :
  unlabelled l ->
  Forall (fun ds => exists v, ParseFloat (snd ds) = Some (inl v)) l ->
  result (run_gauges l) = Ret tt.
Proof.
  intros Hl Hc. induction Hl as [|[d s] l Hd Hl IH]; [reflexivity|].
  inversion Hc as [|? ? [v Hv] Hc']; subst. simpl in Hd, Hv.
  cbn [run_gauges]. rewrite result_bind, (gauge_of_eval d s Hd), Hv.
  now apply IH.
Qed.

(** The match [FindAllStringSubmatch] puts first is the leftmost
    occurrence. *)
Lemma threads_found_first (stats : string) (x : list string)
      (later : list (list string)) :
  FindAllStringSubmatch threads_regex stats = x :: later ->
  exists pre a b c post,
    first_threads_at stats pre a b c post /\ x = [threads_line a b c; a; b; c].
Proof.
  intros H. assert (E := FindAll_head threads_regex stats). rewrite H in E.
  destruct (search threads_regex stats) as [[pre [[c caps] post]]|] eqn:Es;
    [|discriminate].
  injection E as ->. destruct (search_occurrence _ _ _ _ _ _ Es) as [Ho Est].
  apply threads_occurrence in Ho.
  destruct Ho as (a & b & d & Ha & Hb & Hd & -> & ->).
  exists pre, a, b, d, post. split; [|reflexivity].
  eapply first_threads_by_search; [|exact Es]. repeat split; assumption.
Qed.

Lemma queue_found_first (stats : string) (x : list string)
      (later : list (list string)) :
  FindAllStringSubmatch queue_regex stats = x :: later ->
  exists pre n post,
    first_queue_at stats pre n post /\ x = [queue_line n; n].
Proof.
  intros H. assert (E := FindAll_head queue_regex stats). rewrite H in E.
  destruct (search queue_regex stats) as [[pre [[c caps] post]]|] eqn:Es;
    [|discriminate].
  injection E as ->. destruct (search_occurrence _ _ _ _ _ _ Es) as [Ho Est].
  apply queue_occurrence in Ho. destruct Ho as (n & Hn & -> & ->).
  exists pre, n, post. split; [|reflexivity].
  eapply first_queue_by_search; [|exact Es]. split; assumption.
Qed.

Lemma memstats_found_first (stats : string) (x : list string)
      (later : list (list string)) :
  FindAllStringSubmatch memstats_regex stats = x :: later ->
  exists pre h m u f r p pu pt post,
    first_memstats_at stats pre h m u f r p pu pt post /\
    x = [memstats_line h m u f r p pu pt; h; m; u; f; r; p; pu; pt].
Proof.
  intros H. assert (E := FindAll_head memstats_regex stats). rewrite H in E.
  destruct (search memstats_regex stats) as [[pre [[c caps] post]]|] eqn:Es;
    [|discriminate].
  injection E as ->. destruct (search_occurrence _ _ _ _ _ _ Es) as [Ho Est].
  apply memstats_occurrence in Ho.
  destruct Ho as (h & m & u & f & r & p & pu & pt
                  & ? & ? & ? & ? & ? & ? & ? & ? & -> & ->).
  exists pre, h, m, u, f, r, p, pu, pt, post. split; [|reflexivity].
  eapply first_memstats_by_search; [|exact Es]. repeat split; assumption.
Qed.

Lemma unless_na_converts (d : Desc) (h : string) :
  na_or_number h = true -> (length h <= 308)%nat ->
  Forall (fun ds => exists v, ParseFloat (snd ds) = Some (inl v))
         (unless_na d h).
Proof.
  unfold unless_na, na_or_number. intros H Hl.
  destruct (String.eqb h "N/A"); [constructor|].
  repeat constructor. apply ParseFloat_decimal. now apply number_decimal.
Qed.

End Normal.

(** X7.  A pass returns, after its three exchanges, on every STATS reply whose
    numbers are of ordinary size and shape: when the numbers of the
    leftmost THREADS, QUEUE and MEMSTATS lines that [Collect] converts have
    at most 308 digits, and the two pools values are decimal numerals --
    at most one point, at least one digit, at most 308 bytes. *)
Theorem X7_Collect_returns_on_ordinary_numbers (cl : Client) :
  (forall pre a b c post,
      first_threads_at (Dial cl STATS) pre a b c post ->
      (length a <= 308 /\ length b <= 308 /\ length c <= 308)%nat) ->
  (forall pre n post,
      first_queue_at (Dial cl STATS) pre n post -> (length n <= 308)%nat) ->
  (forall pre h m u f r p pu pt post,
      first_memstats_at (Dial cl STATS) pre h m u f r p pu pt post ->
      (length h <= 308 /\ length m <= 308 /\ length u <= 308)%nat /\
      decimal pu = true /\ decimal pt = true) ->
  result (Collect (New cl)) = Ret tt /\
  dialled (trace (Collect (New cl))) = [PING; STATS; VERSION].
Proof.
  intros Ht Hq Hm.
  assert (R : result (Collect (New cl)) = Ret tt).
  { rewrite Collect_result, stats_steps_result, version_step_returns.
    assert (Rt : result (threads_step (New cl) (Dial cl STATS)) = Ret tt).
    { destruct (FindAllStringSubmatch threads_regex (Dial cl STATS))
        as [|x later] eqn:E.
      - now rewrite (threads_step_none cl _ E).
      - destruct (threads_found_first _ _ _ E)
          as (pre & a & b & c & post & Hfirst & ->).
        destruct (Ht _ _ _ _ _ Hfirst) as (La & Lb & Lc).
        destruct Hfirst as [(Na & Nb & Nc & _) _].
        rewrite (threads_step_gauges cl _ _ _ _ _ _ E).
        apply run_gauges_converts; [apply threads_gauges_unlabelled|].
        repeat constructor; apply ParseFloat_decimal, number_decimal; assumption. }
    assert (Rq : result (queue_step (New cl) (Dial cl STATS)) = Ret tt).
    { destruct (FindAllStringSubmatch queue_regex (Dial cl STATS))
        as [|x later] eqn:E.
      - now rewrite (queue_step_none cl _ E).
      - destruct (queue_found_first _ _ _ E) as (pre & n & post & Hfirst & ->).
        pose proof (Hq _ _ _ Hfirst) as Ln.
        destruct Hfirst as [(Nn & _) _].
        rewrite (queue_step_gauges cl _ _ _ _ E).
        apply run_gauges_converts; repeat constructor.
        apply ParseFloat_decimal, number_decimal; assumption. }
    assert (Rm : result (memstats_step (New cl) (Dial cl STATS)) = Ret tt).
    { destruct (FindAllStringSubmatch memstats_regex (Dial cl STATS))
        as [|x later] eqn:E.
      - now rewrite (memstats_step_none cl _ E).
      - destruct (memstats_found_first _ _ _ E)
          as (pre & h & m & u & f & r & p & pu & pt & post & Hfirst & ->).
        destruct (Hm _ _ _ _ _ _ _ _ _ _ Hfirst) as ((Lh & Lm & Lu) & Dpu & Dpt).
        destruct Hfirst as [(Nh & Nm & Nu & _) _].
        rewrite (memstats_step_gauges cl _ _ _ _ _ _ _ _ _ _ _ E).
        apply run_gauges_converts; [apply memstats_gauges_unlabelled|].
        unfold memstats_gauges.
        repeat (apply Forall_app; split);
          try (apply unless_na_converts; assumption).
        repeat constructor; apply ParseFloat_decimal; assumption. }
    now rewrite Rt, Rq, Rm. }
  split; [exact R|].
  destruct (exchanges_in_order cl) as [[Hd _]|[_ Hr]]; [exact Hd | contradiction].
Qed.

Lemma X7_Collect_returns_on_ordinary_numbers_witness :
  let cl := replies PONG example_stats "ClamAV 0.102.4/26168" in
  (forall pre a b c post,
      first_threads_at example_stats pre a b c post ->
      (length a <= 308 /\ length b <= 308 /\ length c <= 308)%nat) /\
  (forall pre n post,
      first_queue_at example_stats pre n post -> (length n <= 308)%nat) /\
  (forall pre h m u f r p pu pt post,
      first_memstats_at example_stats pre h m u f r p pu pt post ->
      (length h <= 308 /\ length m <= 308 /\ length u <= 308)%nat /\
      decimal pu = true /\ decimal pt = true) /\
  result (Collect (New cl)) = Ret tt /\
  dialled (trace (Collect (New cl))) = [PING; STATS; VERSION].
Proof.
  intros cl.
  assert (Ht : forall pre a b c post,
             first_threads_at example_stats pre a b c post ->
             (length a <= 308 /\ length b <= 308 /\ length c <= 308)%nat).
  { intros pre a b c post H. destruct (threads_found _ _ _ _ _ _ H) as [later E].
    vm_compute in E. injection E as _ <- <- <- _. simpl. lia. }
  assert (Hq : forall pre n post,
             first_queue_at example_stats pre n post -> (length n <= 308)%nat).
  { intros pre n post H. destruct (queue_found _ _ _ _ H) as [later E].
    vm_compute in E. discriminate. }
  assert (Hm : forall pre h m u f r p pu pt post,
             first_memstats_at example_stats pre h m u f r p pu pt post ->
             (length h <= 308 /\ length m <= 308 /\ length u <= 308)%nat /\
             decimal pu = true /\ decimal pt = true).
  { intros pre h m u f r p pu pt post H.
    destruct (memstats_found _ _ _ _ _ _ _ _ _ _ _ H) as [later E].
    vm_compute in E. injection E as _ <- <- <- _ _ _ <- <- _.
    split; [simpl; lia | split; reflexivity]. }
  split; [exact Ht|]. split; [exact Hq|]. split; [exact Hm|].
  exact (X7_Collect_returns_on_ordinary_numbers cl Ht Hq Hm).
Defined.

(** ** Short replies *)

Section Short.

Lemma number_length (s : string) : number s = true -> (1 <= length s)%nat.
Proof. destruct s; [discriminate | simpl; lia]. Qed.

Lemma threads_at_length (stats pre a b c post : string) :
  threads_at stats pre a b c post -> (least_stats_length <= length stats)%nat.
Proof.
  intros (Ha & Hb & Hc & ->). unfold threads_line, least_stats_length.
  rewrite !length_append. cbn [length queue_line append]. lia.
Qed.

Lemma queue_at_length (stats pre n post : string) :
  queue_at stats pre n post -> (least_stats_length <= length stats)%nat.
Proof.
  intros (Hn & ->). apply number_length in Hn.
  unfold least_stats_length, queue_line.
  rewrite !length_append. cbn [length append]. lia.
Qed.

Lemma memstats_at_length (stats pre h m u f r p pu pt post : string) :
  memstats_at stats pre h m u f r p pu pt post ->
  (least_stats_length <= length stats)%nat.
Proof.
  intros (_ & _ & _ & _ & _ & _ & _ & _ & ->).
  unfold memstats_line, least_stats_length.
  rewrite !length_append. cbn [length queue_line append]. lia.
Qed.

Lemma version_at_length (version pre : string) (n : nat) (w : ascii)
      (e d post : string) :
  version_at version pre n w e d post ->
  (least_version_length <= length version)%nat.
Proof.
  intros (_ & _ & _ & ->). unfold least_version_length, version_text.
  cbn [copies]. rewrite !length_append. cbn [length append]. lia.
Qed.

End Short.

(** X8.  Replies too short to hold a line are harmless.  On a STATS reply of
    fewer than 15 bytes and a VERSION reply of fewer than 8 bytes -- the
    empty replies of a failed exchange among them -- the pass makes its
    three exchanges and returns, and sends nothing but, on PONG, the
    liveness metric.  The two bounds are the least: a reply of 15 bytes gets
    a queue observation, one of 8 bytes a build_info observation. *)
Theorem X8_short_replies_are_harmless :
  (forall cl : Client,
      (length (Dial cl STATS) < least_stats_length)%nat ->
      (length (Dial cl VERSION) < least_version_length)%nat ->
      result (Collect (New cl)) = Ret tt /\
      dialled (trace (Collect (New cl))) = [PING; STATS; VERSION] /\
      forall name,
        name <> "clamav_up" ->
        observed name (trace (Collect (New cl))) = []) /\
  least_stats_length = 15%nat /\ least_version_length = 8%nat /\
  observed "clamav_queue"
           (trace (Collect (New (replies "" "QUEUE:: 0 items" ""))))
  = [(inject_Z 0, [])] /\
  observed "clamav_build_info"
           (trace (Collect (New (replies "" "" "ClamAV /"))))
  = [(inject_Z 1, [""; ""])].
Proof.
  split; [|vm_compute; repeat split].
  intros cl Hs Hv.
  assert (Ft : FindAllStringSubmatch threads_regex (Dial cl STATS) = []).
  { destruct (FindAllStringSubmatch threads_regex (Dial cl STATS))
      as [|x later] eqn:E; [reflexivity|].
    destruct (threads_found_inv _ _ _ E) as (pre & a & b & c & post & Hat & _).
    apply threads_at_length in Hat. lia. }
  assert (Fq : FindAllStringSubmatch queue_regex (Dial cl STATS) = []).
  { destruct (FindAllStringSubmatch queue_regex (Dial cl STATS))
      as [|x later] eqn:E; [reflexivity|].
    destruct (queue_found_inv _ _ _ E) as (pre & n & post & Hat & _).
    apply queue_at_length in Hat. lia. }
  assert (Fm : FindAllStringSubmatch memstats_regex (Dial cl STATS) = []).
  { destruct (FindAllStringSubmatch memstats_regex (Dial cl STATS))
      as [|x later] eqn:E; [reflexivity|].
    destruct (memstats_found_inv _ _ _ E)
      as (pre & h & m & u & f & r & p & pu & pt & post & Hat & _).
    apply memstats_at_length in Hat. lia. }
  assert (Fv : FindAllStringSubmatch version_regex (Dial cl VERSION) = []).
  { destruct (FindAllStringSubmatch version_regex (Dial cl VERSION))
      as [|x later] eqn:E; [reflexivity|].
    destruct (version_found_inv _ _ _ E) as (pre & n & w & e & d & post & Hat & _).
    apply version_at_length in Hat. lia. }
  destruct (unmatched_replies_stop_nothing cl Ft Fq Fm) as (Hd & Hr & _).
  split; [exact Hr|]. split; [exact Hd|].
  intros name Hn. rewrite observed_Collect.
  rewrite (threads_step_none cl _ Ft), (queue_step_none cl _ Fq),
    (memstats_step_none cl _ Fm), (version_step_none cl _ Fv).
  rewrite (observed_only name _ _ (ping_step_only cl (Dial cl PING))).
  - reflexivity.
  - simpl. intuition congruence.
Qed.

Lemma X8_short_replies_are_harmless_witness :
  let cl := replies PONG "" "" in
  (length (Dial cl STATS) < least_stats_length)%nat /\
  (length (Dial cl VERSION) < least_version_length)%nat /\
  result (Collect (New cl)) = Ret tt /\
  dialled (trace (Collect (New cl))) = [PING; STATS; VERSION] /\
  observed "clamav_queue" (trace (Collect (New cl))) = [].
Proof.
  intros cl.
  assert (Hs : (length (Dial cl STATS) < least_stats_length)%nat)
    by (vm_compute; lia).
  assert (Hv : (length (Dial cl VERSION) < least_version_length)%nat)
    by (vm_compute; lia).
  destruct (proj1 X8_short_replies_are_harmless cl Hs Hv) as (Hr & Hd & Ho).
  split; [exact Hs|]. split; [exact Hv|]. split; [exact Hr|].
  split; [exact Hd|]. apply Ho. discriminate.
Defined.

(** ** What each reply decides *)

Section Separately.
Variables cl1 cl2 : Client.

Lemma ping_step_client (pong : string) :
  ping_step (New cl1) pong = ping_step (New cl2) pong.
Proof. reflexivity. Qed.

Lemma threads_step_client (stats : string) :
  threads_step (New cl1) stats = threads_step (New cl2) stats.
Proof. reflexivity. Qed.

Lemma queue_step_client (stats : string) :
  queue_step (New cl1) stats = queue_step (New cl2) stats.
Proof. reflexivity. Qed.

Lemma memstats_step_client (stats : string) :
  memstats_step (New cl1) stats = memstats_step (New cl2) stats.
Proof. reflexivity. Qed.

Lemma stats_steps_client (stats : string) :
  stats_steps (New cl1) stats = stats_steps (New cl2) stats.
Proof. reflexivity. Qed.

Lemma version_step_client (version : string) :
  version_step (New cl1) version = version_step (New cl2) version.
Proof. reflexivity. Qed.

End Separately.

(** X9.  Each reply decides its own part of a pass.  The liveness observation
    depends on the PING reply alone.  The way the pass ends, its exchanges,
    its debug line and its observations on the thread, queue, memory and
    pools metrics depend on the STATS reply alone: no PING or VERSION reply
    can end a pass or change one of them.  The build_info observation
    depends on the STATS and VERSION replies. *)
Theorem X9_replies_act_separately (cl1 cl2 : Client) :
  (Dial cl1 PING = Dial cl2 PING ->
   observed "clamav_up" (trace (Collect (New cl1)))
   = observed "clamav_up" (trace (Collect (New cl2)))) /\
  (Dial cl1 STATS = Dial cl2 STATS ->
   result (Collect (New cl1)) = result (Collect (New cl2)) /\
   dialled (trace (Collect (New cl1))) = dialled (trace (Collect (New cl2))) /\
   debugged (trace (Collect (New cl1))) = debugged (trace (Collect (New cl2))) /\
   (forall name,
       name <> "clamav_up" -> name <> "clamav_build_info" ->
       observed name (trace (Collect (New cl1)))
       = observed name (trace (Collect (New cl2)))) /\
   (Dial cl1 VERSION = Dial cl2 VERSION ->
    observed "clamav_build_info" (trace (Collect (New cl1)))
    = observed "clamav_build_info" (trace (Collect (New cl2))))).
Proof.
  split.
  - intros Hp. rewrite !observed_up, Hp. now rewrite (ping_step_client cl1 cl2).
  - intros Hs.
    split; [|split; [|split; [|split]]].
    + rewrite !Collect_result, !version_step_returns, Hs.
      now rewrite (stats_steps_client cl1 cl2).
    + rewrite !Collect_dialled, Hs. now rewrite (stats_steps_client cl1 cl2).
    + now rewrite !Collect_debugged, Hs.
    + intros name Hu Hb. rewrite !observed_Collect, Hs.
      rewrite (observed_only name _ _ (ping_step_only cl1 (Dial cl1 PING)))
        by (simpl; intuition congruence).
      rewrite (observed_only name _ _ (ping_step_only cl2 (Dial cl2 PING)))
        by (simpl; intuition congruence).
      rewrite (observed_only name _ _ (version_step_only cl1 (Dial cl1 VERSION)))
        by (simpl; intuition congruence).
      rewrite (observed_only name _ _ (version_step_only cl2 (Dial cl2 VERSION)))
        by (simpl; intuition congruence).
      rewrite (threads_step_client cl1 cl2), (queue_step_client cl1 cl2),
        (memstats_step_client cl1 cl2). reflexivity.
    + intros Hv. rewrite !observed_build_info, Hs, Hv.
      now rewrite (stats_steps_client cl1 cl2), (version_step_client cl1 cl2).
Qed.

Lemma X9_replies_act_separately_witness :
  let cl1 := replies PONG example_stats "ClamAV 0.102.4/26168" in
  let cl2 := replies "" example_stats "" in
  let cl3 := replies PONG "" "" in
  Dial cl1 STATS = Dial cl2 STATS /\
  result (Collect (New cl1)) = result (Collect (New cl2)) /\
  observed "clamav_pools_used_mb" (trace (Collect (New cl1)))
  = observed "clamav_pools_used_mb" (trace (Collect (New cl2))) /\
  Dial cl1 PING = Dial cl3 PING /\
  observed "clamav_up" (trace (Collect (New cl1)))
  = observed "clamav_up" (trace (Collect (New cl3))).
Proof.
  intros cl1 cl2 cl3.
  destruct (proj2 (X9_replies_act_separately cl1 cl2) eq_refl)
    as (Hr & _ & _ & Ho & _).
  split; [reflexivity|]. split; [exact Hr|].
  split; [apply Ho; discriminate|].
  split; [reflexivity|].
  exact (proj1 (X9_replies_act_separately cl1 cl3) eq_refl).
Defined.

(** ** The build_info observation *)

(** X10.  A build_info observation has the value 1 and two labels, the texts
    around the slash of an occurrence of the VERSION pattern in the VERSION
    reply, each a possibly empty run of digits and points: no other byte of
    the reply gets into a label.  The observation is the last thing a pass
    sends: when it is there, the pass has returned. *)
Theorem X10_build_info_labels_are_plain (cl : Client) (v : float64)
        (labels : list string) :
  In (v, labels) (observed "clamav_build_info" (trace (Collect (New cl)))) ->
  v = inject_Z 1 /\
  (exists pre n w e d post,
      version_at (Dial cl VERSION) pre n w e d post /\ labels = [e; d] /\
      plain e = true /\ plain d = true) /\
  result (Collect (New cl)) = Ret tt.
Proof.
  rewrite observed_build_info, Collect_result, version_step_returns.
  unfold returns.
  destruct (result (stats_steps (New cl) (Dial cl STATS))) as [[]|e| |];
    try contradiction.
  destruct (FindAllStringSubmatch version_regex (Dial cl VERSION))
    as [|x later] eqn:E.
  - rewrite (version_step_none cl _ E). contradiction.
  - destruct (version_found_inv _ _ _ E)
      as (pre & n & w & e & d & post & Hat & ->).
    rewrite (version_step_first cl _ _ _ _ _ _ _ E).
    intros [H|[]]. injection H as <- <-.
    split; [reflexivity|]. split; [|reflexivity].
    exists pre, n, w, e, d, post. pose proof Hat as (_ & He & Hd & _). auto.
Qed.

Lemma X10_build_info_labels_are_plain_witness :
  let cl := replies "" "" "ClamAV 0.102.4/26168/Mon" in
  In (inject_Z 1, ["0.102.4"; "26168"])
     (observed "clamav_build_info" (trace (Collect (New cl)))) /\
  (exists pre n w e d post,
      version_at (Dial cl VERSION) pre n w e d post /\
      ["0.102.4"; "26168"] = [e; d] /\ plain e = true /\ plain d = true) /\
  result (Collect (New cl)) = Ret tt.
Proof.
  intros cl.
  assert (H : In (inject_Z 1, ["0.102.4"; "26168"])
                 (observed "clamav_build_info" (trace (Collect (New cl)))))
    by (vm_compute; tauto).
  split; [exact H|].
  exact (proj2 (X10_build_info_labels_are_plain cl _ _ H)).
Defined.

(** ** The accuracy of the values *)

Section Accuracy.
Local Open Scope Z_scope.

Lemma readFloat_after_point (s : string) :
  forall sawdigits m f m' k,
    readFloat s true sawdigits m f = Some (m', k) ->
    m' = digits_acc s m /\ k = f + Z.of_nat (length s) /\
    without_points s = s.
Proof.
  induction s as [|c s IH]; cbn [readFloat]; intros sawdigits m f m' k H.
  - destruct sawdigits; [|discriminate]. injection H as <- <-.
    cbn [digits_acc length without_points]. repeat split. lia.
  - destruct (Ascii.eqb c ".") eqn:Ec; [discriminate|].
    destruct (is_digit c); [|discriminate].
    destruct (IH _ _ _ _ _ H) as (-> & -> & Hw).
    cbn [digits_acc length without_points]. rewrite Ec, Hw.
    repeat split. lia.
Qed.

(** What the scanning loop reads is the number the numeral denotes: its
    digits as an integer, and the count of digits behind the point. *)
Lemma readFloat_value (s : string) :
  forall sawdigits m f m' k,
    readFloat s false sawdigits m f = Some (m', k) ->
    m' = digits_acc (without_points s) m /\
    k = f + Z.of_nat (length (after_point s)).
Proof.
  induction s as [|c s IH]; cbn [readFloat]; intros sawdigits m f m' k H.
  - destruct sawdigits; [|discriminate]. injection H as <- <-.
    cbn [digits_acc length without_points after_point]. split; lia.
  - cbn [without_points after_point].
    destruct (Ascii.eqb c ".") eqn:Ec.
    + destruct (readFloat_after_point _ _ _ _ _ _ H) as (-> & -> & ->).
      split; reflexivity.
    + destruct (is_digit c); [|discriminate].
      destruct (IH _ _ _ _ _ H) as (-> & ->). split; reflexivity.
Qed.

Lemma within_half_ulp (a : Z) (p : positive) (n : Z) (d : positive) :
  Z.abs (a * Zpos d - n * Zpos p) * 2 ^ 53 <= n * Zpos p ->
  Qle (Qmult (Qabs (Qminus (Qmake a p) (Qmake n d))) (inject_Z (2 ^ 53)))
      (Qmake n d).
Proof.
  intros H. unfold Qle, Qmult, Qabs, Qminus, Qplus, Qopp, inject_Z.
  cbn [Qnum Qden].
  rewrite !Pos2Z.inj_mul. set (P := Zpos p) in *. set (D := Zpos d) in *.
  assert (HP : 0 < P) by (unfold P; lia).
  assert (HD : 0 < D) by (unfold D; lia).
  replace (a * D + - n * P) with (a * D - n * P) by lia.
  set (x := Z.abs (a * D - n * P)) in *.
  replace (Z.pos 1) with 1 by reflexivity. nia.
Qed.

(** The value [nearest64] gives is within half a unit in the last place:
    for a quotient in the normal range, at most 2^-53 of the quotient away
    from it. *)
Lemma nearest64_accuracy (n : Z) (d : positive) (v : float64) :
  0 < n -> Zpos d <= n * 2 ^ 1022 ->
  nearest64 n (Zpos d) = Some v ->
  Qle (Qmult (Qabs (Qminus v (Qmake n d))) (inject_Z (2 ^ 53))) (Qmake n d).
Proof.
  intros Hn Hnorm H.
  assert (Hd : 0 < Zpos d) by lia.
  destruct (nearest64_spec n (Zpos d) v Hn Hd H) as (m & q & Eq & Hm & Hv).
  destruct (floor_log2_spec n (Zpos d) Hn Hd) as [Hlo Hup].
  set (e := floor_log2 n (Zpos d)) in *.
  assert (He : -1022 <= e).
  { destruct (Z.le_gt_cases (-1022) e) as [|Hlt]; [assumption|exfalso].
    unfold ge_pow2 in Hup.
    destruct (Z.leb_spec 0 (e + 1)); [lia|].
    apply Z.leb_gt in Hup.
    pose proof (pow2_le 1022 (- (e + 1)) ltac:(lia)).
    pose proof (pow2_pos 1022 ltac:(lia)). nia. }
  assert (Eq' : q = e - 52) by lia. clear Eq.
  unfold ge_pow2 in Hlo.
  destruct (Z.leb_spec 0 q) as [Hq|Hq].
  - destruct Hv as [-> Hr].
    destruct (Z.leb_spec 0 e); [|lia]. apply Z.leb_le in Hlo.
    replace e with (q + 52) in Hlo by lia.
    rewrite Z.pow_add_r in Hlo by lia.
    pose proof (pow2_pos q Hq) as Hp.
    apply (within_half_ulp (m * 2 ^ q) 1 n d).
    replace (Z.pos 1) with 1 by reflexivity. rewrite Z.mul_1_r.
    replace (m * 2 ^ q * Z.pos d - n) with (m * (Z.pos d * 2 ^ q) - n) by ring.
    change (2 ^ 53) with (2 * 2 ^ 52).
    set (x := Z.abs (m * (Z.pos d * 2 ^ q) - n)) in *.
    generalize dependent (2 ^ 52). intros b Hlo. nia.
  - destruct Hv as [Ev Hr].
    pose proof (pow2_pos (- q) ltac:(lia)) as Hp.
    set (P := Z.to_pos (2 ^ (- q))) in *.
    assert (EP : Zpos P = 2 ^ (- q)) by (unfold P; rewrite Z2Pos.id; lia).
    assert (Hdn : Zpos d * 2 ^ 52 <= n * 2 ^ (- q)).
    { replace (- q) with (52 - e) by lia.
      destruct (Z.leb_spec 0 e) as [He0|He0].
      - apply Z.leb_le in Hlo.
        replace 52 with (e + (52 - e)) at 1 by lia.
        rewrite Z.pow_add_r by lia.
        pose proof (pow2_pos (52 - e) ltac:(lia)). nia.
      - apply Z.leb_le in Hlo.
        replace (52 - e) with (- e + 52) by lia.
        rewrite Z.pow_add_r by lia.
        pose proof (pow2_pos 52 ltac:(lia)). nia. }
    assert (Hw := within_half_ulp m P n d).
    rewrite EP in Hw.
    assert (Hgoal : Z.abs (m * Z.pos d - n * 2 ^ (- q)) * 2 ^ 53
                    <= n * 2 ^ (- q)).
    { change (2 ^ 53) with (2 * 2 ^ 52).
      set (x := Z.abs (m * Z.pos d - n * 2 ^ (- q))) in *.
      generalize dependent (2 ^ 52). intros b Hdn. nia. }
    specialize (Hw Hgoal).
    assert (Eqv : Qeq v (Qmake m P)) by (rewrite Ev; apply Qred_correct).
    rewrite Eqv. exact Hw.
Qed.

End Accuracy.

(** X11.  The closure [float] is accurate.  When it returns a value for a text,
    the text denotes a decimal number -- its digits as an integer, over ten
    to the count of digits behind its point -- and the value is the binary64
    nearest to that number: for a number from 2^-1022 on, within 2^-53 of
    the number, relative to it; and 0 for the number 0. *)
Theorem X11_float_is_accurate (s : string) (v : float64) :
  float s = ret v ->
  (Qeq (decimal_value s) (inject_Z 0) -> v = inject_Z 0) /\
  (Qle (Qmake 1 (Z.to_pos (2 ^ 1022))) (decimal_value s) ->
   Qle (Qmult (Qabs (Qminus v (decimal_value s))) (inject_Z (2 ^ 53)))
       (decimal_value s)).
Proof.
  unfold float, ret. intros H.
  destruct (ParseFloat s) as [[v'|e]|] eqn:E; try discriminate.
  injection H as ->.
  unfold ParseFloat in E.
  destruct (all_chars is_digit_or_dot s); [|discriminate].
  destruct (readFloat s false false 0 0) as [[m k]|] eqn:Er; [|discriminate].
  destruct (readFloat_nonneg s _ _ _ _ _ _ Er ltac:(lia) ltac:(lia)) as [Hm Hk].
  destruct (readFloat_value s _ _ _ _ _ Er) as [Em Ek]. simpl in Ek.
  destruct (nearest64 m (10 ^ k)) as [v'|] eqn:En; [|discriminate].
  injection E as ->.
  assert (Hp : (0 < 10 ^ k)%Z) by (apply Z.pow_pos_nonneg; lia).
  unfold decimal_value, digits_value. rewrite <- Em, <- Ek.
  set (d := Z.to_pos (10 ^ k)).
  assert (Ed : Zpos d = (10 ^ k)%Z) by (unfold d; rewrite Z2Pos.id; lia).
  split.
  - unfold Qeq, inject_Z. cbn [Qnum Qden]. intros H0.
    assert (Hm0 : m = 0%Z) by lia. rewrite Hm0 in En.
    change (nearest64 0 (10 ^ k)) with (Some (inject_Z 0)) in En.
    injection En as <-. reflexivity.
  - unfold Qle at 1. cbn [Qnum Qden]. intros Hn.
    rewrite Z2Pos.id in Hn by (apply Z.pow_pos_nonneg; lia).
    assert (Hm0 : (0 < m)%Z).
    { destruct (Z.eq_dec m 0) as [->|]; [|lia]. lia. }
    apply nearest64_accuracy; [exact Hm0 | lia | now rewrite Ed].
Qed.

Lemma X11_float_is_accurate_witness :
  let v := Qmake 2514794198956245 (2 ^ 41) in
  float "1143.596" = ret v /\
  Qeq (decimal_value "1143.596") (Qmake 1143596 1000) /\
  Qle (Qmake 1 (Z.to_pos (2 ^ 1022))) (decimal_value "1143.596") /\
  Qle (Qmult (Qabs (Qminus v (decimal_value "1143.596"))) (inject_Z (2 ^ 53)))
      (decimal_value "1143.596").
Proof.
  intros v.
  assert (H : float "1143.596" = ret v) by (vm_compute; reflexivity).
  assert (Hn : Qle (Qmake 1 (Z.to_pos (2 ^ 1022))) (decimal_value "1143.596"))
    by (vm_compute; discriminate).
  split; [exact H|]. split; [reflexivity|]. split; [exact Hn|].
  exact (proj2 (X11_float_is_accurate "1143.596" v H) Hn).
Defined.

(** ** Numbers out of range *)

Section Overflow.
Local Open Scope Z_scope.

Lemma round_half_even_ge (n d : Z) : n / d <= round_half_even n d.
Proof.
  unfold round_half_even.
  destruct (2 * (n mod d) ?= d); [destruct (Z.even (n / d))| |]; lia.
Qed.

(** From 2^1024 on no integer rounds to a finite binary64. *)
Lemma nearest64_overflow (n : Z) : 2 ^ 1024 <= n -> nearest64 n 1 = None.
Proof.
  intros Hn.
  assert (H0 : 0 < 2 ^ 1024) by (apply pow2_pos; lia).
  unfold nearest64.
  destruct (Z.eqb_spec n 0) as [|_]; [lia|].
  destruct (floor_log2_spec n 1 ltac:(lia) ltac:(lia)) as [Hlo Hup].
  set (e := floor_log2 n 1) in *.
  assert (He : 1024 <= e).
  { unfold ge_pow2 in Hup.
    destruct (Z.leb_spec 0 (e + 1)) as [He|He].
    - apply Z.leb_gt in Hup.
      destruct (Z.le_gt_cases 1024 e) as [|Hlt]; [assumption|exfalso].
      pose proof (pow2_le (e + 1) 1024 ltac:(lia)). lia.
    - apply Z.leb_gt in Hup.
      pose proof (pow2_pos (- (e + 1)) ltac:(lia)). nia. }
  unfold ge_pow2 in Hlo. destruct (Z.leb_spec 0 e); [|lia].
  apply Z.leb_le in Hlo.
  rewrite Z.max_l by lia.
  destruct (Z.leb_spec 0 (e - 52)); [|lia].
  pose proof (pow2_pos (e - 52) ltac:(lia)) as Hq.
  rewrite Z.mul_1_l in *.
  pose proof (round_half_even_ge n (2 ^ (e - 52))) as Hr.
  assert (Hd : 2 ^ 52 <= n / 2 ^ (e - 52)).
  { apply Z.div_le_lower_bound; [assumption|].
    rewrite <- Z.pow_add_r by lia. now replace (e - 52 + 52) with e by lia. }
  assert (Hbig : 2 ^ 1024 <= round_half_even n (2 ^ (e - 52)) * 2 ^ (e - 52)).
  { apply Z.le_trans with (2 ^ 52 * 2 ^ (e - 52)).
    - rewrite <- Z.pow_add_r by lia. apply pow2_le. lia.
    - apply Z.mul_le_mono_nonneg_r; lia. }
  apply Z.leb_le in Hbig. now rewrite Hbig.
Qed.

Lemma ParseFloat_overflow (s : string) :
  number s = true -> 2 ^ 1024 <= digits_value s ->
  ParseFloat s = Some (inr (rangeError s)).
Proof.
  unfold number, digits_value. intros H Hv.
  apply andb_prop in H. destruct H as [Hne Hd].
  unfold ParseFloat. rewrite (digits_are_plain s Hd).
  rewrite (readFloat_digits s Hd), Hne. cbn [orb].
  change (10 ^ 0) with 1. now rewrite nearest64_overflow.
Qed.

End Overflow.

(** X12.  A count too large for a float64 ends the pass.  When the first number
    of the leftmost THREADS line is 2^1024 or more, [float] gets a range
    error and [log.Fatalf] ends the process: no thread, queue, memory, pools
    or build_info metric is sent, and the VERSION exchange does not take
    place. *)
Theorem X12_a_huge_thread_count_ends_the_pass (cl : Client)
        (pre a b c post : string) :
  first_threads_at (Dial cl STATS) pre a b c post ->
  (2 ^ 1024 <= digits_value a)%Z ->
  result (Collect (New cl)) = Fatal (rangeError a) /\
  sent (trace (Collect (New cl)))
  = sent (trace (ping_step (New cl) (Dial cl PING))) /\
  dialled (trace (Collect (New cl))) = [PING; STATS].
Proof.
  intros Hfirst Hbig.
  destruct (threads_found _ _ _ _ _ _ Hfirst) as [later Hf].
  destruct Hfirst as [(Na & _) _].
  assert (Es : stats_steps (New cl) (Dial cl STATS) = ([], Fatal (rangeError a))).
  { unfold stats_steps. rewrite (threads_step_first cl _ _ _ _ _ _ Hf).
    rewrite (gauge_of_eval (threadsLive (New cl)) a eq_refl).
    now rewrite (ParseFloat_overflow a Na Hbig). }
  split; [|split].
  - now rewrite Collect_result, Es.
  - rewrite Collect_trace, Es. cbn [app sent]. rewrite sent_app.
    cbn [trace fst returns result snd app sent]. now rewrite app_nil_r.
  - now rewrite Collect_dialled, Es.
Qed.

Lemma X12_a_huge_thread_count_ends_the_pass_witness :
  let a := copies 309 "9" in
  let later := "idle-timeout 30" ++ LF in
  let stats := threads_line a "2" "3" ++ later in
  let cl := replies PONG stats "ClamAV 0.102.4/26168" in
  first_threads_at stats "" a "2" "3" later /\
  (2 ^ 1024 <= digits_value a)%Z /\
  result (Collect (New cl)) = Fatal (rangeError a) /\
  dialled (trace (Collect (New cl))) = [PING; STATS].
Proof.
  intros a later stats cl.
  assert (Hfirst : first_threads_at stats "" a "2" "3" later).
  { eapply first_threads_by_search.
    - repeat split; reflexivity.
    - vm_compute. reflexivity. }
  assert (Hbig : (2 ^ 1024 <= digits_value a)%Z) by (vm_compute; discriminate).
  destruct (X12_a_huge_thread_count_ends_the_pass cl "" a "2" "3" later Hfirst Hbig)
    as (Hr & _ & Hd).
  split; [exact Hfirst|]. split; [exact Hbig|]. split; [exact Hr | exact Hd].
Defined.

(** ** Gauges that come together *)

(** X13.  In a pass that returns, the thread gauges come as a triple and the
    pools gauges as a pair: the three thread metrics have one observation
    each or none has one; pools_used and pools_total have one each or
    neither has one, and then no memory metric has one either. *)
Theorem X13_gauges_come_together (cl : Client) :
  result (Collect (New cl)) = Ret tt ->
  let t := trace (Collect (New cl)) in
  ((observed "clamav_threads_live" t = [] /\
    observed "clamav_threads_idle" t = [] /\
    observed "clamav_threads_max" t = []) \/
   (exists a b c,
       observed "clamav_threads_live" t = [(a, [])] /\
       observed "clamav_threads_idle" t = [(b, [])] /\
       observed "clamav_threads_max" t = [(c, [])])) /\
  ((observed "clamav_pools_used_mb" t = [] /\
    observed "clamav_pools_total_mb" t = [] /\
    observed "clamav_mem_heap" t = [] /\
    observed "clamav_mem_mmap" t = [] /\
    observed "clamav_mem_used" t = []) \/
   (exists pu pt,
       observed "clamav_pools_used_mb" t = [(pu, [])] /\
       observed "clamav_pools_total_mb" t = [(pt, [])])).
Proof.
  intros Hret t. subst t.
  destruct (Collect_returns_stats cl Hret) as (Rt & Rq & Rm).
  split.
  - rewrite !(observed_threads cl) by (simpl; tauto).
    destruct (FindAllStringSubmatch threads_regex (Dial cl STATS))
      as [|x later] eqn:E.
    + left. rewrite (threads_step_none cl _ E). repeat split.
    + right. destruct (threads_found_inv _ _ _ E)
        as (pre & a & b & c & post & _ & ->).
      rewrite (threads_step_gauges cl _ _ _ _ _ _ E) in *.
      pose proof (run_gauges_returns _ (threads_gauges_unlabelled cl a b c) Rt)
        as Hc.
      rewrite !(run_gauges_values _ _ (threads_gauges_unlabelled cl a b c) Rt).
      unfold threads_gauges in Hc. use_conversions.
      unfold values_of, threads_gauges. simpl.
      repeat match goal with
             | H : ParseFloat _ = Some (inl _) |- _ => rewrite H; clear H
             end.
      eexists _, _, _. repeat split.
  - rewrite !(observed_memstats cl) by (simpl; tauto).
    unfold returns. rewrite Rt, Rq. cbn [andb].
    destruct (FindAllStringSubmatch memstats_regex (Dial cl STATS))
      as [|x later] eqn:E.
    + left. rewrite (memstats_step_none cl _ E). repeat split.
    + right. destruct (memstats_found_inv _ _ _ E)
        as (pre & h & m & u & f & r & p & pu & pt & post & _ & ->).
      rewrite (memstats_step_gauges cl _ _ _ _ _ _ _ _ _ _ _ E) in *.
      pose proof (run_gauges_returns
                    _ (memstats_gauges_unlabelled cl h m u pu pt) Rm) as Hc.
      rewrite !(run_gauges_values
                  _ _ (memstats_gauges_unlabelled cl h m u pu pt) Rm).
      unfold memstats_gauges, unless_na in *.
      destruct (String.eqb h "N/A"), (String.eqb m "N/A"), (String.eqb u "N/A");
        cbn [app] in Hc; use_conversions; unfold values_of; simpl;
        repeat match goal with
               | H : ParseFloat _ = Some (inl _) |- _ => rewrite H; clear H
               end;
        eexists _, _; split; reflexivity.
Qed.

Lemma X13_gauges_come_together_witness :
  let cl := replies PONG example_stats "ClamAV 0.102.4/26168" in
  let t := trace (Collect (New cl)) in
  result (Collect (New cl)) = Ret tt /\
  ((observed "clamav_threads_live" t = [] /\
    observed "clamav_threads_idle" t = [] /\
    observed "clamav_threads_max" t = []) \/
   (exists a b c,
       observed "clamav_threads_live" t = [(a, [])] /\
       observed "clamav_threads_idle" t = [(b, [])] /\
       observed "clamav_threads_max" t = [(c, [])])).
Proof.
  intros cl t.
  assert (Hret : result (Collect (New cl)) = Ret tt) by (vm_compute; reflexivity).
  split; [exact Hret|].
  exact (proj1 (X13_gauges_come_together cl Hret)).
Defined.

(** ** The queue gauge and the version labels, as the code has them *)

(** X14.  The queue gauge needs two colons.  In a pass that returns, on a STATS
    reply whose leftmost text "QUEUE:: n items" -- two colons, one blank, a
    run of digits n below 2^53, " items" -- the queue gauge is sent with
    exactly n.  On a reply without such a text, nothing is sent on the queue
    metric. *)
Theorem X14_queue_needs_two_colons (cl : Client) :
  (forall pre n post,
      first_queue_at (Dial cl STATS) pre n post -> below_2_53 n ->
      result (Collect (New cl)) = Ret tt ->
      observed "clamav_queue" (trace (Collect (New cl)))
      = [(inject_Z (digits_value n), [])]) /\
  ((forall pre n post, ~ queue_at (Dial cl STATS) pre n post) ->
   observed "clamav_queue" (trace (Collect (New cl))) = []).
Proof.
  split.
  - intros pre n post Hfirst Hn Hret.
    destruct (queue_found _ _ _ _ Hfirst) as [later Hf].
    destruct Hfirst as [(Nn & _) _].
    destruct (Collect_returns_stats cl Hret) as (Rt & _ & _).
    rewrite observed_queue. unfold returns. rewrite Rt.
    rewrite (queue_step_first cl _ _ _ _ Hf).
    now rewrite (gauge_of_converts (queue (New cl)) n _ eq_refl
                   (ParseFloat_number n Nn Hn)).
  - intros Hnone. apply queue_not_found in Hnone.
    rewrite observed_queue, (queue_step_none cl _ Hnone).
    now destruct (returns _).
Qed.

Lemma X14_queue_needs_two_colons_witness :
  let stats := "QUEUE:: 7 items" ++ LF in
  let cl := replies PONG stats "" in
  first_queue_at stats "" "7" LF /\ below_2_53 "7" /\
  result (Collect (New cl)) = Ret tt /\
  observed "clamav_queue" (trace (Collect (New cl))) = [(inject_Z 7, [])] /\
  (forall pre n post, ~ queue_at example_stats pre n post) /\
  observed "clamav_queue"
           (trace (Collect (New (replies PONG example_stats "")))) = [].
Proof.
  intros stats cl.
  assert (Hfirst : first_queue_at stats "" "7" LF).
  { eapply first_queue_by_search.
    - split; reflexivity.
    - vm_compute. reflexivity. }
  assert (Hn : below_2_53 "7") by (vm_compute; reflexivity).
  assert (Hret : result (Collect (New cl)) = Ret tt) by (vm_compute; reflexivity).
  assert (Hnone : forall pre n post, ~ queue_at example_stats pre n post).
  { intros pre n post (Nn & E).
    apply (search_none_no_occurrence queue_regex example_stats eq_refl
             pre (queue_line n) [Some (queue_line n); Some n] post); [|exact E].
    apply queue_occurrence. exists n. repeat split. exact Nn. }
  split; [exact Hfirst|]. split; [exact Hn|]. split; [exact Hret|].
  split; [exact (proj1 (X14_queue_needs_two_colons cl) _ _ _ Hfirst Hn Hret)|].
  split; [exact Hnone|].
  exact (proj2 (X14_queue_needs_two_colons (replies PONG example_stats "")) Hnone).
Defined.

(** X15.  The labels of build_info are those of the leftmost occurrence.  In a
    pass that returns, on a VERSION reply whose leftmost occurrence of the
    pattern is the product name one or more times, one white-space byte, a
    run e of digits and points, a slash and a run d that does not go on
    behind it, one build_info observation is sent, with the value 1 and the
    labels e and d. *)
Theorem X15_build_info_has_the_leftmost_versions (cl : Client) (pre : string)
        (n : nat) (w : ascii) (e d post : string) :
  first_version_at (Dial cl VERSION) pre n w e d post ->
  result (Collect (New cl)) = Ret tt ->
  observed "clamav_build_info" (trace (Collect (New cl)))
  = [(inject_Z 1, [e; d])].
Proof.
  intros Hfirst Hret. apply (build_info_labels cl pre n w e d post Hfirst).
  now apply Collect_returns_iff.
Qed.

Lemma X15_build_info_has_the_leftmost_versions_witness :
  let version := "ClamAVClamAV" ++ TAB ++ "1.0.3/27000/Sun ClamAV 1/2" in
  let cl := replies "" "" version in
  first_version_at version "" 1 "009" "1.0.3" "27000" "/Sun ClamAV 1/2" /\
  result (Collect (New cl)) = Ret tt /\
  observed "clamav_build_info" (trace (Collect (New cl)))
  = [(inject_Z 1, ["1.0.3"; "27000"])].
Proof.
  intros version cl.
  assert (Hfirst : first_version_at version "" 1 "009" "1.0.3" "27000"
                                    "/Sun ClamAV 1/2").
  { eapply first_version_by_search.
    - repeat split; reflexivity.
    - reflexivity.
    - vm_compute. reflexivity. }
  assert (Hret : result (Collect (New cl)) = Ret tt) by (vm_compute; reflexivity).
  split; [exact Hfirst|]. split; [exact Hret|].
  exact (X15_build_info_has_the_leftmost_versions cl _ _ _ _ _ _ Hfirst Hret).
Defined.

(** * The earlier variant *)

(** ** Its pools_used pattern *)

Section EarlierPattern.

Lemma pools_used_occurrence (c : string) (caps : Caps) :
  Occurrence part_000.pools_used_regex c caps <->
  exists pu,
    dotted pu = true /\ c = pools_used_text pu /\ caps = [Some c; Some pu].
Proof.
  unfold Occurrence, no_caps, part_000.pools_used_regex.
  cbn [expr numSubexp cat repeat].
  split.
  - intros H. invert_matches. eexists.
    refine (conj _ (conj eq_refl eq_refl)); assumption.
  - intros (pu & Hpu & -> & ->). unfold pools_used_text.
    match goal with
    | |- Matches ?re ?c ?caps0 _ =>
        change (Matches re c caps0 (set_cap 0 c (set_cap 1 pu caps0)))
    end.
    build_matches.
Qed.

Lemma match_here_pools_used (pu post : string) :
  dotted pu = true ->
  match_here part_000.pools_used_regex (pools_used_text pu ++ post)
  = Some (pools_used_text pu, [Some (pools_used_text pu); Some pu], post).
Proof.
  intros Hpu. unfold match_here, pools_used_text.
  rewrite !append_assoc.
  cbn [part_000.pools_used_regex expr numSubexp cat repeat].
  apply (first_capture 0 _ _ _ _ [None; Some pu]).
  solve_first.
Qed.

Lemma pools_used_found (stats pre pu post : string) :
  first_pools_used_at stats pre pu post ->
  exists later,
    FindAllStringSubmatch part_000.pools_used_regex stats
    = [pools_used_text pu; pu] :: later.
Proof.
  intros [(Hpu & E) Hmin].
  apply (FindAll_first part_000.pools_used_regex stats pre
           (pools_used_text pu, [Some (pools_used_text pu); Some pu], post)).
  apply search_first_occurrence; [exact E | now apply match_here_pools_used|].
  intros pre' c' caps' post' Ho E'.
  apply pools_used_occurrence in Ho. destruct Ho as (pu' & Hpu' & -> & _).
  apply (Hmin pre' pu' post'). split; assumption.
Qed.

Lemma first_pools_used_by_search (stats pre pu post : string) (m : Res) :
  pools_used_at stats pre pu post ->
  search part_000.pools_used_regex stats = Some (pre, m) ->
  first_pools_used_at stats pre pu post.
Proof.
  intros H Hs. split; [exact H|].
  intros pre' pu' post' (Hpu & E).
  apply (search_leftmost _ _ _ _ Hs pre' (pools_used_text pu')
           [Some (pools_used_text pu'); Some pu'] post'); [|exact E].
  apply pools_used_occurrence. exists pu'. repeat split; assumption.
Qed.

Lemma pools_used_found_first (stats : string) (x : list string)
      (later : list (list string)) :
  FindAllStringSubmatch part_000.pools_used_regex stats = x :: later ->
  exists pre pu post,
    first_pools_used_at stats pre pu post /\ x = [pools_used_text pu; pu].
Proof.
  intros H. assert (E := FindAll_head part_000.pools_used_regex stats).
  rewrite H in E.
  destruct (search part_000.pools_used_regex stats)
    as [[pre [[c caps] post]]|] eqn:Es; [|discriminate].
  injection E as ->. destruct (search_occurrence _ _ _ _ _ _ Es) as [Ho Est].
  apply pools_used_occurrence in Ho. destruct Ho as (pu & Hpu & -> & ->).
  exists pre, pu, post. split; [|reflexivity].
  eapply first_pools_used_by_search; [|exact Es]. split; assumption.
Qed.

End EarlierPattern.

(** ** Its pass, step by step *)

Section EarlierPass.
Variable cl : Client.

Lemma earlier_pools_step_none (stats : string) :
  FindAllStringSubmatch part_000.pools_used_regex stats = [] ->
  part_000.pools_step (part_000.New cl) stats = part_000.ret tt.
Proof. intros H. unfold part_000.pools_step. now rewrite H. Qed.

Lemma earlier_pools_step_first (stats w pu : string)
      (later : list (list string)) :
  FindAllStringSubmatch part_000.pools_used_regex stats = [w; pu] :: later ->
  part_000.pools_step (part_000.New cl) stats
  = match ParseFloat pu with
    | Some (inl v) =>
        ([part_000.EvSend
            {| desc := poolsUsed (part_000.New cl); valType := GaugeValue;
               value := v; labelValues := [] |}], Ret tt)
    | Some (inr e) => ([], Fatal e)
    | None => ([], NotCovered)
    end.
Proof.
  intros H. unfold part_000.pools_step. rewrite H.
  unfold part_000.send_gauge, part_000.float.
  cbn [List.length Nat.ltb Nat.leb part_000.when part_000.at2 nth_error
       part_000.bind part_000.ret].
  now destruct (ParseFloat pu) as [[v|e]|].
Qed.

Lemma earlier_version_step_none (version : string) :
  FindAllStringSubmatch version_regex version = [] ->
  part_000.version_step (part_000.New cl) version = part_000.ret tt.
Proof. intros H. unfold part_000.version_step. now rewrite H. Qed.

Lemma earlier_version_step_first (version w w1 w2 e d : string)
      (later : list (list string)) :
  FindAllStringSubmatch version_regex version = [w; w1; w2; e; d] :: later ->
  part_000.version_step (part_000.New cl) version
  = ([part_000.EvSend
        {| desc := buildInfo (part_000.New cl); valType := GaugeValue;
           value := inject_Z 1; labelValues := [e; d] |}], Ret tt).
Proof. intros H. unfold part_000.version_step. now rewrite H. Qed.

(** The pools step returns or ends in [log.Fatalf]; it sends at most the
    pools_used gauge. *)
Lemma earlier_pools_step_cases (stats : string) :
  (FindAllStringSubmatch part_000.pools_used_regex stats = [] /\
   part_000.pools_step (part_000.New cl) stats = part_000.ret tt) \/
  exists pre pu post,
    first_pools_used_at stats pre pu post /\
    ((exists v, ParseFloat pu = Some (inl v) /\
                part_000.pools_step (part_000.New cl) stats
                = ([part_000.EvSend
                      {| desc := poolsUsed (part_000.New cl);
                         valType := GaugeValue;
                         value := v; labelValues := [] |}], Ret tt)) \/
     (exists e, ParseFloat pu = Some (inr e) /\
                part_000.pools_step (part_000.New cl) stats = ([], Fatal e))).
Proof.
  destruct (FindAllStringSubmatch part_000.pools_used_regex stats)
    as [|x later] eqn:E.
  - left. split; [reflexivity|]. now apply earlier_pools_step_none.
  - right. destruct (pools_used_found_first _ _ _ E)
      as (pre & pu & post & Hfirst & ->).
    exists pre, pu, post. split; [exact Hfirst|].
    rewrite (earlier_pools_step_first _ _ _ _ E).
    destruct Hfirst as [(Hpu & _) _].
    pose proof (ParseFloat_covers pu (dotted_plain pu Hpu)) as Hc.
    destruct (ParseFloat pu) as [[v|e]|]; [left | right | congruence].
    + now exists v.
    + now exists e.
Qed.

Lemma earlier_version_step_cases (version : string) :
  part_000.version_step (part_000.New cl) version = part_000.ret tt \/
  exists e d,
    part_000.version_step (part_000.New cl) version
    = ([part_000.EvSend
          {| desc := buildInfo (part_000.New cl); valType := GaugeValue;
             value := inject_Z 1; labelValues := [e; d] |}], Ret tt).
Proof.
  destruct (FindAllStringSubmatch version_regex version) as [|x later] eqn:E.
  - left. now apply earlier_version_step_none.
  - right. destruct (version_found_inv _ _ _ E)
      as (pre & n & w & e & d & post & _ & ->).
    exists e, d. now apply (earlier_version_step_first _ _ _ _ _ _ _ E).
Qed.

(** The pass as a whole. *)
Lemma earlier_Collect_eval :
  part_000.Collect (part_000.New cl)
  = (([part_000.EvDial PING]
      ++ (if String.eqb (Dial cl PING) PONG
          then [part_000.EvSend
                  {| desc := up (part_000.New cl); valType := CounterValue;
                     value := inject_Z 1; labelValues := [] |}]
          else [])
      ++ [part_000.EvDial STATS;
          part_000.EvInfo ("Stats: " ++ Dial cl STATS);
          part_000.EvInfo
            ("Stats: "
             ++ part_000.intstring
                  (Z.of_nat
                     (List.length
                        (FindAllStringSubmatch part_000.numbers_regex
                                               (Dial cl STATS)))))]
      ++ part_000.trace (part_000.pools_step (part_000.New cl) (Dial cl STATS))
      ++ match part_000.result
                 (part_000.pools_step (part_000.New cl) (Dial cl STATS)) with
         | Ret _ =>
             part_000.EvDial VERSION
             :: part_000.trace
                  (part_000.version_step (part_000.New cl) (Dial cl VERSION))
         | _ => []
         end)%list,
     match part_000.result
             (part_000.pools_step (part_000.New cl) (Dial cl STATS)) with
     | Ret _ =>
         part_000.result
           (part_000.version_step (part_000.New cl) (Dial cl VERSION))
     | o => o
     end).
Proof.
  unfold part_000.Collect.
  change (part_000.when
            (0 <? List.length
                    (FindAllStringSubmatch part_000.pools_used_regex ?s))%nat
            (part_000.send_gauge ?d _ 0 1))
    with (part_000.pools_step (part_000.New cl) s).
  cbn [part_000.dial part_000.bind client part_000.New].
  set (v := Dial cl VERSION).
  destruct (String.eqb (Dial cl PING) PONG);
    cbn [part_000.when part_000.MustNewConstMetric NewConstMetric
         variableLabels List.length Nat.eqb part_000.ret part_000.bind
         part_000.send part_000.dial part_000.Info app];
    destruct (0 <? _)%nat;
    cbn [part_000.when part_000.ret part_000.bind app];
    destruct (part_000.pools_step _ _) as [t [[]|e| |]];
    cbn [part_000.trace part_000.result fst snd part_000.bind app];
    try rewrite app_nil_r; try reflexivity;
    fold (part_000.version_step (part_000.New cl) v);
    destruct (part_000.version_step _ v) as [t' o']; reflexivity.
Qed.

End EarlierPass.

Section EarlierNames.

Lemma earlier_observed_absent (name : string) (names : list string)
      (t : list part_000.event) :
  Subseq (part_000.names_sent t) names -> ~ In name names ->
  part_000.observed name t = [].
Proof.
  unfold part_000.names_sent, part_000.observed. intros Hs Hn.
  assert (Hin : forall m, In m (part_000.sent t) -> In (fqName (desc m)) names).
  { intros m Hm. apply (Subseq_In _ _ _ Hs).
    exact (in_map (fun m0 => fqName (desc m0)) _ _ Hm). }
  clear Hs. revert Hin.
  induction (part_000.sent t) as [|m l IH]; intros Hin; [reflexivity|]. simpl.
  destruct (String.eqb_spec (fqName (desc m)) name) as [E|E].
  - exfalso. apply Hn. rewrite <- E. apply Hin. now left.
  - apply IH. intros m' Hm'. apply Hin. now right.
Qed.

Lemma earlier_Collect_names (cl : Client) :
  Subseq (part_000.names_sent
            (part_000.trace (part_000.Collect (part_000.New cl))))
         earlier_order.
Proof.
  rewrite earlier_Collect_eval. unfold part_000.trace at 1. cbn [fst].
  destruct (earlier_pools_step_cases cl (Dial cl STATS))
    as [[_ ->]|(pre & pu & post & _ & [(v & _ & ->)|(e & _ & ->)])];
    cbn [part_000.trace part_000.result part_000.ret fst snd];
    try destruct (earlier_version_step_cases cl (Dial cl VERSION))
      as [->|(e' & d' & ->)];
    destruct (String.eqb (Dial cl PING) PONG);
    cbn; repeat first [apply SubseqNil | apply SubseqTake | apply SubseqSkip].
Qed.

End EarlierNames.

(** X16.  The earlier variant announces more than it sends.  Its [Describe]
    announces the same eleven descriptors, but a pass sends on three metrics
    at most -- up, pools_used, build_info, in this order, each at most
    once -- and never on one of the other eight. *)
Theorem X16_earlier_Collect_sends_on_three_metrics (cl : Client) :
  Subseq (part_000.names_sent
            (part_000.trace (part_000.Collect (part_000.New cl))))
         earlier_order /\
  List.length (part_000.Describe (part_000.New cl)) = 11%nat /\
  forall d,
    In d (part_000.Describe (part_000.New cl)) ->
    ~ In (fqName d) earlier_order ->
    part_000.observed (fqName d)
                      (part_000.trace (part_000.Collect (part_000.New cl)))
    = [].
Proof.
  split; [apply earlier_Collect_names|]. split; [reflexivity|].
  intros d _ Hd.
  exact (earlier_observed_absent _ _ _ (earlier_Collect_names cl) Hd).
Qed.

Lemma X16_earlier_Collect_sends_on_three_metrics_witness :
  let cl := replies PONG example_stats "ClamAV 0.102.4/26168" in
  In (threadsLive (part_000.New cl)) (part_000.Describe (part_000.New cl)) /\
  ~ In "clamav_threads_live" earlier_order /\
  part_000.observed "clamav_threads_live"
                    (part_000.trace (part_000.Collect (part_000.New cl)))
  = [] /\
  part_000.names_sent (part_000.trace (part_000.Collect (part_000.New cl)))
  = earlier_order.
Proof.
  intros cl.
  assert (Hin : In (threadsLive (part_000.New cl))
                   (part_000.Describe (part_000.New cl)))
    by (simpl; tauto).
  assert (Hn : ~ In "clamav_threads_live" earlier_order)
    by (simpl; intuition discriminate).
  split; [exact Hin|]. split; [exact Hn|].
  split; [|vm_compute; reflexivity].
  exact (proj2 (proj2 (X16_earlier_Collect_sends_on_three_metrics cl)) _ Hin Hn).
Defined.

(** X17.  In the earlier variant the pools_used gauge needs no whole MEMSTATS
    line: the leftmost text "pools_used x M" of the STATS reply decides, x
    a run of digits and points, wherever it stands.  When x is a decimal
    numeral the gauge is sent with its value and the pass returns. *)
Theorem X17_earlier_pools_used_needs_no_whole_line (cl : Client)
        (pre pu post : string) :
  first_pools_used_at (Dial cl STATS) pre pu post ->
  decimal pu = true ->
  exists v,
    part_000.float pu = part_000.ret v /\
    part_000.observed "clamav_pools_used"
                      (part_000.trace (part_000.Collect (part_000.New cl)))
    = [(v, [])] /\
    part_000.result (part_000.Collect (part_000.New cl)) = Ret tt.
Proof.
  intros Hfirst Hdec.
  destruct (ParseFloat_decimal pu Hdec) as [v Hv]. exists v.
  split; [unfold part_000.float; now rewrite Hv|].
  destruct (pools_used_found _ _ _ _ Hfirst) as [later Hf].
  rewrite earlier_Collect_eval.
  rewrite (earlier_pools_step_first cl _ _ _ _ Hf), Hv.
  cbn [part_000.trace part_000.result fst snd].
  destruct (earlier_version_step_cases cl (Dial cl VERSION))
    as [->|(e' & d' & ->)];
    destruct (String.eqb (Dial cl PING) PONG); split; reflexivity.
Qed.

Lemma X17_earlier_pools_used_needs_no_whole_line_witness :
  let cl := replies PONG bad_free_stats "" in
  let v := Qmake 2514794198956245 (2 ^ 41) in
  first_pools_used_at
    bad_free_stats
    "MEMSTATS: heap 1 mmap 2 used 3 free ? releasable 5 pools 1 "
    "1143.596" (" pools_total 1143.632M" ++ LF) /\
  decimal "1143.596" = true /\
  part_000.observed "clamav_pools_used"
                    (part_000.trace (part_000.Collect (part_000.New cl)))
  = [(v, [])] /\
  part_000.result (part_000.Collect (part_000.New cl)) = Ret tt /\
  observed "clamav_pools_used_mb" (trace (Collect (New cl))) = [].
Proof.
  intros cl v.
  assert (Hfirst : first_pools_used_at
                     bad_free_stats
                     "MEMSTATS: heap 1 mmap 2 used 3 free ? releasable 5 pools 1 "
                     "1143.596" (" pools_total 1143.632M" ++ LF)).
  { eapply first_pools_used_by_search.
    - split; reflexivity.
    - vm_compute. reflexivity. }
  assert (Hdec : decimal "1143.596" = true) by reflexivity.
  destruct (X17_earlier_pools_used_needs_no_whole_line cl _ _ _ Hfirst Hdec)
    as (v' & Hv & Ho & Hr).
  vm_compute in Hv. injection Hv as <-.
  split; [exact Hfirst|]. split; [exact Hdec|]. split; [exact Ho|].
  split; [exact Hr|]. vm_compute. reflexivity.
Defined.

(** X18.  How a pass of the earlier variant ends.  It returns after its three
    exchanges, or [log.Fatalf] ends it in the pools step, on the value of
    the leftmost "pools_used x M" of the STATS reply, after two exchanges.
    The runs of digits and points that its first pattern finds all over the
    reply are counted and never converted: nothing else in a reply can end
    the pass. *)
Theorem X18_earlier_Collect_ends_in_the_pools_step (cl : Client) :
  (part_000.result (part_000.Collect (part_000.New cl)) = Ret tt /\
   part_000.dialled (part_000.trace (part_000.Collect (part_000.New cl)))
   = [PING; STATS; VERSION]) \/
  (exists pre pu post e,
      first_pools_used_at (Dial cl STATS) pre pu post /\
      ParseFloat pu = Some (inr e) /\
      part_000.result (part_000.Collect (part_000.New cl)) = Fatal e /\
      part_000.dialled (part_000.trace (part_000.Collect (part_000.New cl)))
      = [PING; STATS]).
Proof.
  rewrite earlier_Collect_eval.
  destruct (earlier_pools_step_cases cl (Dial cl STATS))
    as [[_ ->]|(pre & pu & post & Hfirst & [(v & _ & ->)|(e & He & ->)])];
    cbn [part_000.trace part_000.result part_000.ret fst snd].
  - left.
    destruct (earlier_version_step_cases cl (Dial cl VERSION))
      as [->|(e' & d' & ->)];
      destruct (String.eqb (Dial cl PING) PONG); split; reflexivity.
  - left.
    destruct (earlier_version_step_cases cl (Dial cl VERSION))
      as [->|(e' & d' & ->)];
      destruct (String.eqb (Dial cl PING) PONG); split; reflexivity.
  - right. exists pre, pu, post, e.
    split; [exact Hfirst|]. split; [exact He|].
    destruct (String.eqb (Dial cl PING) PONG); split; reflexivity.
Qed.

(** ** Its log *)

Lemma intstring_length (i : Z) :
  (1 <= length (part_000.intstring i) <= 4)%nat.
Proof.
  unfold part_000.intstring, part_000.encoderune, part_000.runeError.
  destruct (_ || _); cbn [Z.leb Z.compare Pos.compare Pos.compare_cont length];
    [lia|].
  destruct (i <=? 127)%Z; [simpl; lia|].
  destruct (i <=? 2047)%Z; [simpl; lia|].
  destruct (i <=? 65535)%Z; simpl; lia.
Qed.

(** X19.  The earlier variant calls [log.Info] twice in every pass: with the
    STATS reply behind "Stats: ", and with, behind "Stats: ", the count of
    the runs of digits and points of the reply -- not in decimal:
    [string(n)] makes of the count n the one character with that code point,
    of one to four bytes; 65 runs are logged as "A". *)
Theorem X19_earlier_Collect_logs_the_count_as_a_character (cl : Client) :
  let n := List.length (FindAllStringSubmatch part_000.numbers_regex
                                              (Dial cl STATS)) in
  part_000.logged (part_000.trace (part_000.Collect (part_000.New cl)))
  = ["Stats: " ++ Dial cl STATS;
     "Stats: " ++ part_000.intstring (Z.of_nat n)] /\
  (1 <= length (part_000.intstring (Z.of_nat n)) <= 4)%nat /\
  part_000.intstring 65 = "A".
Proof.
  intros n. split; [|split; [apply intstring_length | reflexivity]].
  rewrite earlier_Collect_eval. subst n.
  destruct (earlier_pools_step_cases cl (Dial cl STATS))
    as [[_ ->]|(pre & pu & post & _ & [(v & _ & ->)|(e & _ & ->)])];
    cbn [part_000.trace part_000.result part_000.ret fst snd];
    try destruct (earlier_version_step_cases cl (Dial cl VERSION))
      as [->|(e' & d' & ->)];
    destruct (String.eqb (Dial cl PING) PONG); reflexivity.
Qed.

(** ** The two variants *)

Section Variants.

Lemma memstats_has_pools_used (stats pre h m u f r p pu pt post : string) :
  memstats_at stats pre h m u f r p pu pt post ->
  exists pre' post', pools_used_at stats pre' pu post'.
Proof.
  intros (_ & _ & _ & _ & _ & _ & Hpu & _ & ->).
  exists (pre ++ "MEMSTATS: heap " ++ h ++ " mmap " ++ m ++ " used " ++ u
          ++ " free " ++ f ++ " releasable " ++ r ++ " pools " ++ p ++ " "),
         (" pools_total " ++ pt ++ "M" ++ post).
  split; [exact Hpu|].
  unfold memstats_line, pools_used_text.
  change " pools_used " with (" " ++ "pools_used ").
  change "M pools_total " with ("M" ++ " pools_total ").
  now rewrite !append_assoc.
Qed.

Lemma pools_used_occurs (stats pre pu post : string) :
  pools_used_at stats pre pu post ->
  FindAllStringSubmatch part_000.pools_used_regex stats <> [].
Proof.
  intros (Hpu & E) Hnone.
  assert (Hh := FindAll_head part_000.pools_used_regex stats).
  rewrite Hnone in Hh.
  destruct (search part_000.pools_used_regex stats) as [x|] eqn:Es;
    [discriminate|].
  apply (search_none_no_occurrence _ _ Es pre (pools_used_text pu)
           [Some (pools_used_text pu); Some pu] post); [|exact E].
  apply pools_used_occurrence. exists pu. repeat split. exact Hpu.
Qed.

End Variants.

(** X20.  The present variant is the stricter of the two.  Whenever a pass of
    the present [Collect] sends one of its five memory and pools metrics,
    the STATS reply has a "pools_used x M": a pass of the earlier [Collect]
    on the same reply sends its pools_used gauge, or ends on converting
    x. *)
Theorem X20_present_variant_is_stricter (cl : Client) (name : string) :
  In name memstats_names ->
  observed name (trace (Collect (New cl))) <> [] ->
  part_000.observed "clamav_pools_used"
                    (part_000.trace (part_000.Collect (part_000.New cl)))
  <> [] \/
  exists e, part_000.result (part_000.Collect (part_000.New cl)) = Fatal e.
Proof.
  intros Hn Hsent.
  destruct (memstats_sent_inv cl name Hn Hsent)
    as (pre & h & m & u & f & r & p & pu & pt & post & Hat).
  destruct (memstats_has_pools_used _ _ _ _ _ _ _ _ _ _ _ Hat)
    as (pre' & post' & Hpu).
  pose proof (pools_used_occurs _ _ _ _ Hpu) as Hocc.
  rewrite earlier_Collect_eval.
  destruct (earlier_pools_step_cases cl (Dial cl STATS))
    as [[Hnone _]|(pre1 & pu1 & post1 & _ & [(v & _ & ->)|(e & _ & ->)])];
    [contradiction | left | right].
  - cbn [part_000.trace part_000.result fst snd].
    destruct (earlier_version_step_cases cl (Dial cl VERSION))
      as [->|(e' & d' & ->)];
      destruct (String.eqb (Dial cl PING) PONG); discriminate.
  - exists e. reflexivity.
Qed.

Lemma X20_present_variant_is_stricter_witness :
  let cl := replies PONG example_stats "" in
  In "clamav_pools_total_mb" memstats_names /\
  observed "clamav_pools_total_mb" (trace (Collect (New cl))) <> [] /\
  (part_000.observed "clamav_pools_used"
                     (part_000.trace (part_000.Collect (part_000.New cl)))
   <> [] \/
   exists e, part_000.result (part_000.Collect (part_000.New cl)) = Fatal e).
Proof.
  intros cl.
  assert (Hn : In "clamav_pools_total_mb" memstats_names) by (simpl; tauto).
  assert (Hs : observed "clamav_pools_total_mb" (trace (Collect (New cl))) <> [])
    by (vm_compute; discriminate).
  split; [exact Hn|]. split; [exact Hs|].
  exact (X20_present_variant_is_stricter cl _ Hn Hs).
Defined.
